(** * gofrr: a client for the FRR vty sockets

    A shallow embedding of the Go package [gofrr] (spec.go, status_codes.go)
    and the properties of its framing, command sequencing and multi-socket
    orchestration.

    Conventions.
    - [[]byte] is [list byte]; a Go [string] is a Rocq [string];
      [[]byte(s)] and [string(b)] are [bytes_of_string] and
      [string_of_bytes].
    - Go [int] values are in [Z] where the code compares or subtracts them
      ([bytes.Index] answers [-1] when nothing is found).
    - An [error] is [option error]: [None] is Go's [nil].
    - A method with a pointer receiver [c *Connection] takes the
      [Connection] and gives the updated one back; the [Sockets] container
      holds pointers into a heap of [Connection] objects.
    - What lies outside the program (the peer behind a socket, the dialer,
      the file system) is a script: the data and the failures the
      environment is going to produce, consumed call by call. *)

From Stdlib Require Import ZArith Lia List.
From Stdlib Require Import Strings.Ascii Strings.String Strings.Byte.
From stdpp Require Import base tactics option list gmap strings.
From Equations Require Import Equations.
From Equations.Prop Require Import Logic.

Set Warnings "-register-all".
Open Scope string_scope.
Open Scope list_scope.

Create HintDb gofrr.

(** ** Bytes and strings *)

#[global] Instance byte_eq_dec : EqDecision byte := Byte.byte_eq_dec.

Definition bytes_of_string : string -> list byte := list_byte_of_string.
Definition string_of_bytes : list byte -> string := string_of_list_byte.

(** The newline character, for the literals that contain ["\n"]. *)
Definition NL : string := String "010"%char EmptyString.

(** [len(b)] as a Go [int]. *)
Definition len {A} (l : list A) : Z := Z.of_nat (length l).

(** ** Errors

    An error value records how it was built: [errors.New], [fmt.Errorf]
    with its format and operands, or [errors.Join]. Errors that come from
    the operating system or the network are [errors_New] leaves chosen by
    the environment. Two errors made by [errors.New] are told apart by
    their text; the two of this package have different texts. *)

Inductive error : Type :=
| errors_New (text : string)
| fmt_Errorf (format : string) (operands : list operand)
| joinError (errs : list error)
with operand : Type :=
| opError (e : error)        (* an error operand; every one is under [%w] *)
| opString (s : string)      (* a string operand, under [%s] or [%q] *)
| opBytes (b : list byte).   (* a [[]byte] operand, under [%s] *)

(** [errors.Join]: nil operands are dropped; nil when none is left. *)
Definition errors_Join (errs : list (option error)) : option error :=
  match omap id errs with
  | [] => None
  | es => Some (joinError es)
  end.

(** [errors.Is err target] for the errors of this package: [target] is
    [err] itself or is reached from it through [%w] operands and joined
    errors. *)
Inductive Is : error -> error -> Prop :=
| Is_here e : Is e e
| Is_wrapped format operands e target :
    In (opError e) operands -> Is e target ->
    Is (fmt_Errorf format operands) target
| Is_joined errs e target :
    In e errs -> Is e target -> Is (joinError errs) target.

#[global] Hint Constructors Is : gofrr.

Definition io_EOF : error := errors_New "EOF".

(** ** Package [bytes] *)

Module bytes.

Fixpoint HasPrefix (s prefix : list byte) : bool :=
  match prefix, s with
  | [], _ => true
  | _ :: _, [] => false
  | p :: prefix', b :: s' => Byte.eqb b p && HasPrefix s' prefix'
  end.

(** [Index s sep]: the index of the first instance of [sep] in [s], or
    [-1]. *)
Fixpoint Index (s sep : list byte) : Z :=
  match s with
  | [] => if HasPrefix [] sep then 0 else -1
  | _ :: s' =>
      if HasPrefix s sep then 0
      else let i := Index s' sep in
           if (i <? 0)%Z then (-1)%Z else (i + 1)%Z
  end.

(** [Count s sep] for a non-empty [sep]: the number of non-overlapping
    instances. Every round removes at least one byte of [s], so
    [length s] rounds are enough. *)
Fixpoint countLoop (rounds : nat) (s sep : list byte) (n : nat) : nat :=
  match rounds with
  | O => n
  | S rounds' =>
      let i := Index s sep in
      if (i <? 0)%Z then n
      else countLoop rounds' (skipn (Z.to_nat i + length sep) s) sep (S n)
  end.

Definition Count (s sep : list byte) : nat := countLoop (length s) s sep 0.

(** [genSplit]: at most [n] cuts at the successive instances of [sep];
    the rest of [s] is the last element. *)
Fixpoint genSplit (n : nat) (s sep : list byte) : list (list byte) :=
  match n with
  | O => [s]
  | S n' =>
      let m := Index s sep in
      if (m <? 0)%Z then [s]
      else firstn (Z.to_nat m) s
             :: genSplit n' (skipn (Z.to_nat m + length sep) s) sep
  end.

(** [Split s sep] for a non-empty [sep] (the package only splits on
    ["\n"]): [Count s sep + 1] subslices. *)
Definition Split (s sep : list byte) : list (list byte) :=
  genSplit (Count s sep) s sep.

(** White space as defined by Unicode ([unicode.IsSpace]), each rune in
    its UTF-8 encoding. No encoding is a prefix or a suffix of another. *)
Definition whiteSpace : list (list byte) :=
  [ [x09]; [x0a]; [x0b]; [x0c]; [x0d]; [x20];  (* \t \n \v \f \r space *)
    [xc2; x85]; [xc2; xa0];                     (* U+0085, U+00A0 *)
    [xe1; x9a; x80];                            (* U+1680 *)
    [xe2; x80; x80]; [xe2; x80; x81]; [xe2; x80; x82]; [xe2; x80; x83];
    [xe2; x80; x84]; [xe2; x80; x85]; [xe2; x80; x86]; [xe2; x80; x87];
    [xe2; x80; x88]; [xe2; x80; x89]; [xe2; x80; x8a];  (* U+2000..U+200A *)
    [xe2; x80; xa8]; [xe2; x80; xa9];           (* U+2028, U+2029 *)
    [xe2; x80; xaf]; [xe2; x81; x9f];           (* U+202F, U+205F *)
    [xe3; x80; x80] ].                          (* U+3000 *)

(** Drops one leading white space rune, if there is one. *)
Definition dropSpace (spaces : list (list byte)) (s : list byte)
  : option (list byte) :=
  match filter (fun w => HasPrefix s w = true) spaces with
  | w :: _ => Some (skipn (length w) s)
  | [] => None
  end.

Fixpoint trimLeft (rounds : nat) (spaces : list (list byte)) (s : list byte)
  : list byte :=
  match rounds with
  | O => s
  | S rounds' =>
      match dropSpace spaces s with
      | Some s' => trimLeft rounds' spaces s'
      | None => s
      end
  end.

Definition TrimLeftSpace (s : list byte) : list byte :=
  trimLeft (length s) whiteSpace s.

(** The trailing runes are the leading ones of the reversed slice, with
    each encoding reversed. *)
Definition TrimRightSpace (s : list byte) : list byte :=
  rev (trimLeft (length s) (map (@rev byte) whiteSpace) (rev s)).

(** [TrimSpace s]: [s] without its leading and trailing white space. *)
Definition TrimSpace (s : list byte) : list byte :=
  TrimRightSpace (TrimLeftSpace s).

End bytes.

(** ** Status codes (status_codes.go) *)

(** [type StatusCode byte]; the constants count up from [iota = 0]. *)
Definition StatusCode : Type := byte.

Definition Success : StatusCode := x00.
Definition Warning : StatusCode := x01.
Definition ErrNoMatch : StatusCode := x02.
Definition ErrAmbiguous : StatusCode := x03.
Definition ErrIncomplete : StatusCode := x04.
Definition ErrExeedArgcMax : StatusCode := x05.
Definition ErrNothingTodo : StatusCode := x06.
Definition CompleteFullMatch : StatusCode := x07.
Definition CompleteMatch : StatusCode := x08.
Definition CompleteListMatch : StatusCode := x09.
Definition SuccessDaemon : StatusCode := x0a.
Definition ErrNoFile : StatusCode := x0b.
Definition Suspend : StatusCode := x0c.
Definition WarningConfigFailed : StatusCode := x0d.
Definition NotMyInstance : StatusCode := x0e.
Definition NoLevelUp : StatusCode := x0f.
Definition ErrNoDaemon : StatusCode := x10.

(** [func (sc StatusCode) String() string]: the [switch], case by case. *)
Definition StatusCode_String (sc : StatusCode) : string :=
  if Byte.eqb sc Success then "CMD_SUCCESS"
  else if Byte.eqb sc Warning then "CMD_WARNING"
  else if Byte.eqb sc ErrNoMatch then "CMD_ERR_NO_MATCH"
  else if Byte.eqb sc ErrAmbiguous then "CMD_ERR_AMBIGUOUS"
  else if Byte.eqb sc ErrIncomplete then "CMD_ERR_INCOMPLETE"
  else if Byte.eqb sc ErrExeedArgcMax then "CMD_ERR_EXEED_ARGC_MAX"
  else if Byte.eqb sc ErrNothingTodo then "CMD_ERR_NOTHING_TODO"
  else if Byte.eqb sc CompleteFullMatch then "CMD_COMPLETE_FULL_MATCH"
  else if Byte.eqb sc CompleteMatch then "CMD_COMPLETE_MATCH"
  else if Byte.eqb sc CompleteListMatch then "CMD_COMPLETE_LIST_MATCH"
  else if Byte.eqb sc SuccessDaemon then "CMD_SUCCESS_DAEMON"
  else if Byte.eqb sc ErrNoFile then "CMD_ERR_NO_FILE"
  else if Byte.eqb sc Suspend then "CMD_SUSPEND"
  else if Byte.eqb sc WarningConfigFailed then "CMD_WARNING_CONFIG_FAILED"
  else if Byte.eqb sc NotMyInstance then "CMD_NOT_MY_INSTANCE"
  else if Byte.eqb sc NoLevelUp then "CMD_NO_LEVEL_UP"
  else if Byte.eqb sc ErrNoDaemon then "CMD_ERR_NO_DAEMON"
  else "unknown status code".

(** [context.Context], as far as the package looks at it: [ctx.Deadline()]. *)
Record Context := mkContext { Deadline : option Z }.

(** ** Package [net]: the transport of a connection

    A [net.Conn] is the client end of a unix stream socket together with
    what its environment is going to do: the data the daemon delivers, read
    by read, and the failures of the calls. Once the deliveries are used up
    a [Read] reports [io.EOF] (a read that would block until the deadline
    is a [ReadFails] with the timeout error). *)

Module net.

Inductive ReadEvent :=
| Delivers (data : list byte)
| ReadFails (e : error).

Record Conn := mkConn {
  now : Z;                                  (* [time.Now()], in ns *)
  deadline : option Z;                      (* the deadline last set *)
  deadlineFaults : list (option error);     (* outcomes of [SetDeadline] *)
  writeFaults : list (option (nat * error)); (* outcomes of [Write] *)
  sent : list (list byte);                  (* per [Write], what went out *)
  incoming : list ReadEvent;                (* outcomes of [Read] *)
  closeFault : option error                 (* outcome of [Close] *)
}.

Definition set_incoming (evs : list ReadEvent) (c : Conn) : Conn :=
  mkConn (now c) (deadline c) (deadlineFaults c) (writeFaults c) (sent c)
         evs (closeFault c).

(** [Read(buf)] with [len(buf) = n]: at most [n] bytes of the next
    delivery; what does not fit stays for the next read. *)
Definition Read (n : nat) (c : Conn) : (list byte * option error) * Conn :=
  match incoming c with
  | [] => (([], Some io_EOF), c)
  | ReadFails e :: rest => (([], Some e), set_incoming rest c)
  | Delivers d :: rest =>
      if (length d <=? n)%nat then ((d, None), set_incoming rest c)
      else ((firstn n d, None),
            set_incoming (Delivers (skipn n d) :: rest) c)
  end.

(** [Write(b)]: the number of bytes written and the error. A failing
    write may have sent a part of [b]. *)
Definition Write (b : list byte) (c : Conn) : (Z * option error) * Conn :=
  match writeFaults c with
  | Some (n, e) :: rest =>
      ((len (firstn n b), Some e),
       mkConn (now c) (deadline c) (deadlineFaults c) rest
              (sent c ++ [firstn n b]) (incoming c) (closeFault c))
  | None :: rest =>
      ((len b, None),
       mkConn (now c) (deadline c) (deadlineFaults c) rest
              (sent c ++ [b]) (incoming c) (closeFault c))
  | [] =>
      ((len b, None),
       mkConn (now c) (deadline c) (deadlineFaults c) []
              (sent c ++ [b]) (incoming c) (closeFault c))
  end.

Definition SetDeadline (t : Z) (c : Conn) : option error * Conn :=
  match deadlineFaults c with
  | Some e :: rest =>
      (Some e,
       mkConn (now c) (deadline c) rest (writeFaults c) (sent c)
              (incoming c) (closeFault c))
  | None :: rest =>
      (None,
       mkConn (now c) (Some t) rest (writeFaults c) (sent c)
              (incoming c) (closeFault c))
  | [] =>
      (None,
       mkConn (now c) (Some t) [] (writeFaults c) (sent c)
              (incoming c) (closeFault c))
  end.

Definition Close (c : Conn) : option error := closeFault c.

(** The reads that are still possible, weighted by the bytes they
    deliver: what a [Read] with a non-empty buffer makes smaller. *)
Definition pending (c : Conn) : nat :=
  list_sum (map (fun ev => match ev with
                           | Delivers d => S (length d)
                           | ReadFails _ => 1
                           end) (incoming c)).

(** The unix sockets of the machine: what a dial of a path yields, and
    the paths dialled so far, oldest first. Whether a dial succeeds is
    the environment's choice, whatever the context. *)
Record Network := mkNetwork {
  listeners : string -> Conn + error;
  dialed : list string
}.

(** [(&net.Dialer{}).DialContext(ctx, network, address)] *)
Definition DialContext (ctx : Context) (network address : string)
  (nw : Network) : (Conn + error) * Network :=
  (listeners nw address, mkNetwork (listeners nw) (dialed nw ++ [address])).

End net.

(** ** Connection (spec.go) *)

(** [var terminationMarker = []byte{0, 0, 0}] *)
Definition terminationMarker : list byte := [x00; x00; x00].

(** [const techDataTotalLen = 4] *)
Definition techDataTotalLen : Z := 4.

(** [DefaultTimeout = 1 * time.Second], in ns. *)
Definition DefaultTimeout : Z := 1 * 1000000000.

Record socketResponse := mkResponse {
  plainText : list byte;
  statusCode : StatusCode;
  err : option error
}.

Record Connection := mkConnection {
  socketPath : string;
  conn : option net.Conn
}.

Definition ErrConnNotEstab : error :=
  errors_New "connection is not established for socket".
Definition ErrNotAcceptableStatusCode : error :=
  errors_New "not acceptable status code".

Definition NewConnection (socketPath : string) : Connection :=
  {| socketPath := socketPath; conn := None |}.

(** [c.conn = nc] *)
Definition with_conn (c : Connection) (nc : option net.Conn) : Connection :=
  {| socketPath := socketPath c; conn := nc |}.

(** [Close]: the deferred [c.conn = nil] runs on both ways out. *)
Definition Close (c : Connection) : option error * Connection :=
  match conn c with
  | None => (None, c)
  | Some nc =>
      match net.Close nc with
      | Some e =>
          (Some (fmt_Errorf "socket connection close %s: %w"
                            [opString (socketPath c); opError e]),
           with_conn c None)
      | None => (None, with_conn c None)
      end
  end.

(** [setDeadline] and [writeCommand] use [c.conn] without a check; they
    are given the transport that [Execute] has found present. *)
Definition setDeadline (ctx : Context) (nc : net.Conn)
  : option error * net.Conn :=
  let deadline := match Deadline ctx with
                  | Some d => d
                  | None => (net.now nc + DefaultTimeout)%Z
                  end in
  net.SetDeadline deadline nc.

Definition writeCommand (cmd : string) (nc : net.Conn)
  : (Z * option error) * net.Conn :=
  net.Write (bytes_of_string (cmd ++ String "000"%char EmptyString)) nc.

Definition bufSize : nat := 4096.

(** The [for] loop of [readResponse]; [response] is the buffer so far. A
    read error leaves the status at its zero value. Where the loop ends
    well, [0 <= endIdx] and [len response' - endIdx = 4], so the last byte
    and the slice without the last four are in range. *)
Equations? readLoop (nc : net.Conn) (response : list byte)
  : socketResponse * net.Conn by wf (net.pending nc) lt :=
  readLoop nc response with inspect (net.Read bufSize nc) => {
    | exist _ (pair (pair _ (Some e)) nc') _ :=
        ({| plainText := response; statusCode := x00; err := Some e |}, nc');
    | exist _ (pair (pair chunk None) nc') Hread :=
        let response' := response ++ chunk in
        let endIdx := bytes.Index response' terminationMarker in
        if (endIdx <? 0)%Z then readLoop nc' response'
        else if (len response' - endIdx =? techDataTotalLen)%Z then
          ({| plainText :=
                firstn (Z.to_nat (len response' - techDataTotalLen)) response';
              statusCode := nth (Z.to_nat (len response' - 1)) response' x00;
              err := None |}, nc')
        else readLoop nc' response' }.
Proof.
  all: revert Hread; unfold net.Read, net.pending, bufSize;
    destruct (net.incoming nc) as [|[d|e] rest]; simpl; try discriminate;
    destruct (Nat.leb_spec (length d) 4096); intros [= <- <-]; simpl;
    rewrite ?length_skipn; lia.
Qed.

Definition readResponse (c : Connection) : socketResponse * Connection :=
  match conn c with
  | None =>
      ({| plainText := []; statusCode := x00;
          err := Some (fmt_Errorf "%w %s" [opError ErrConnNotEstab;
                                           opString (socketPath c)]) |}, c)
  | Some nc =>
      let (response, nc') := readLoop nc [] in
      (response, with_conn c (Some nc'))
  end.

Definition Execute (ctx : Context) (cmd : string) (c : Connection)
  : (list byte * option error) * Connection :=
  match conn c with
  | None =>
      (([], Some (fmt_Errorf "%w %s" [opError ErrConnNotEstab;
                                      opString (socketPath c)])), c)
  | Some nc =>
      match setDeadline ctx nc with
      | (Some e, nc1) =>
          (([], Some (fmt_Errorf "set connection deadline %s: %w"
                                 [opString (socketPath c); opError e])),
           with_conn c (Some nc1))
      | (None, nc1) =>
          match writeCommand cmd nc1 with
          | ((_, Some e), nc2) =>
              (([], Some (fmt_Errorf "write %q to socket %q: %w"
                                     [opString cmd; opString (socketPath c);
                                      opError e])),
               with_conn c (Some nc2))
          | ((_, None), nc2) =>
              let (response, c') := readResponse (with_conn c (Some nc2)) in
              match err response with
              | Some e => ((plainText response, Some e), c')
              | None =>
                  let sc := statusCode response in
                  if negb (Byte.eqb sc Success) && negb (Byte.eqb sc Warning)
                     && negb (Byte.eqb sc SuccessDaemon)
                  then ((plainText response,
                         Some (fmt_Errorf
                                 "%w, FRR command %q on socket %q: %s"
                                 [opError ErrNotAcceptableStatusCode;
                                  opString cmd; opString (socketPath c);
                                  opString (StatusCode_String sc)])), c')
                  else ((plainText response, None), c')
              end
          end
      end
  end.

(** A sequence of statements that may [return err]: [None] goes on to the
    next statement, [Some e] leaves the function with [e]. *)
Definition Stmt (St : Type) : Type := St -> option error * St.

Definition andThen {St} (p q : Stmt St) : Stmt St :=
  fun st => match p st with
            | (Some e, st') => (Some e, st')
            | (None, st') => q st'
            end.

(** [for _, x := range xs { body }] *)
Fixpoint forRange {St A} (xs : list A) (body : A -> Stmt St) : Stmt St :=
  match xs with
  | [] => fun st => (None, st)
  | x :: xs' => andThen (body x) (forRange xs' body)
  end.

(** The body of the two loops of [ApplyConfig] that enter and leave the
    modes. *)
Definition runModeCommand (ctx : Context) (cmd : string) : Stmt Connection :=
  fun c => match Execute ctx cmd c with
           | ((_, Some e), c') =>
               (Some (fmt_Errorf "could not run %s command: %w"
                                 [opString cmd; opError e]), c')
           | ((_, None), c') => (None, c')
           end.

(** The body of the loop over the lines of the configuration. *)
Definition runConfigLine (ctx : Context) (cmd : list byte) : Stmt Connection :=
  fun c =>
    let cmd := bytes.TrimSpace cmd in
    if (len cmd =? 0)%Z then (None, c)            (* continue *)
    else match Execute ctx (string_of_bytes cmd) c with
         | ((_, Some e), c') =>
             (Some (fmt_Errorf
                      "exec command '%s' on frr socket %s while applying config: %w"
                      [opBytes cmd; opString (socketPath c); opError e]), c')
         | ((_, None), c') => (None, c')
         end.

Definition ApplyConfig (ctx : Context) (config : list byte) : Stmt Connection :=
  let commands := bytes.Split config (bytes_of_string NL) in
  andThen (forRange ["enable"; "configure"] (runModeCommand ctx))
    (andThen (forRange commands (runConfigLine ctx))
       (forRange ["exit"; "disable"] (runModeCommand ctx))).

Definition ShowRunningConfig (ctx : Context) (c : Connection)
  : (list byte * option error) * Connection :=
  match Execute ctx "enable" c with
  | ((r, Some e), c1) =>
      (([], Some (fmt_Errorf
                    "show running config `enable` command, resp: %s, err: %w"
                    [opBytes r; opError e])), c1)
  | ((_, None), c1) =>
      match Execute ctx "do write terminal" c1 with
      | ((response, Some e), c2) =>
          (([], Some (fmt_Errorf
                        "show running config `do write terminal` command, resp: %s, err: %w"
                        [opBytes response; opError e])), c2)
      | ((response, None), c2) =>
          match Execute ctx "disable" c2 with
          | ((r, Some e), c3) =>
              (([], Some (fmt_Errorf
                            "show running config `disable` command, resp: %s, err: %w"
                            [opBytes r; opError e])), c3)
          | ((_, None), c3) => ((response, None), c3)
          end
      end
  end.

(** [Connect]: the transport is stored only when the dial succeeded. The
    dialer belongs to the network, so [Connect] takes and gives back the
    network as well. *)
Definition Connect (ctx : Context) (c : Connection) (nw : net.Network)
  : (option error * Connection) * net.Network :=
  match net.DialContext ctx "unix" (socketPath c) nw with
  | (inr e, nw') => ((Some e, c), nw')
  | (inl nc, nw') => ((None, with_conn c (Some nc)), nw')
  end.

(** ** Package [os]: the files *)

Module os.

Definition FileMode : Type := N.

Record File := mkFile { content : list byte; perm : FileMode }.

(** The files by path, the outcomes of the coming calls, and the file
    mode creation mask of the process. [None] is a call that works,
    [Some (None, e)] one that fails before it touches anything,
    [Some (Some k, e)] a write that fails after [k] bytes. A script that
    has run out means success. *)
Record FS := withUmask {
  files : gmap string File;
  faults : list (option (option nat * error));
  umask : FileMode
}.

(** The files of a process that masks no bit. *)
Definition mkFS (files : gmap string File)
  (faults : list (option (option nat * error))) : FS :=
  withUmask files faults 0%N.

(** [WriteFile] creates the file with [perm], less the bits of the umask,
    or truncates the one that is there, keeping its mode. *)
Definition written (name : string) (data : list byte) (perm mask : FileMode)
  (fs : gmap string File) : gmap string File :=
  match fs !! name with
  | Some f => <[name := mkFile data (os.perm f)]> fs
  | None => <[name := mkFile data (N.ldiff perm mask)]> fs
  end.

Definition WriteFile (name : string) (data : list byte) (perm : FileMode)
  (fs : FS) : option error * FS :=
  match faults fs with
  | Some (None, e) :: rest => (Some e, withUmask (files fs) rest (umask fs))
  | Some (Some k, e) :: rest =>
      (Some e,
       withUmask (written name (firstn k data) perm (umask fs) (files fs))
                 rest (umask fs))
  | None :: rest =>
      (None,
       withUmask (written name data perm (umask fs) (files fs)) rest
                 (umask fs))
  | [] =>
      (None,
       withUmask (written name data perm (umask fs) (files fs)) []
                 (umask fs))
  end.

(** [Rename] replaces [newpath] by the file at [oldpath] in one step, or
    fails and changes nothing. *)
Definition moved (oldpath newpath : string) (f : File)
  (fs : gmap string File) : gmap string File :=
  <[newpath := f]> (delete oldpath fs).

Definition Rename (oldpath newpath : string) (fs : FS) : option error * FS :=
  match faults fs with
  | Some (_, e) :: rest => (Some e, withUmask (files fs) rest (umask fs))
  | None :: rest =>
      match files fs !! oldpath with
      | Some f =>
          (None,
           withUmask (moved oldpath newpath f (files fs)) rest (umask fs))
      | None => (Some (errors_New "no such file or directory"),
                 withUmask (files fs) rest (umask fs))
      end
  | [] =>
      match files fs !! oldpath with
      | Some f =>
          (None, withUmask (moved oldpath newpath f (files fs)) [] (umask fs))
      | None => (Some (errors_New "no such file or directory"), fs)
      end
  end.

End os.

(** [DefaultFRRConfigPerm = fs.FileMode(0640)] *)
Definition DefaultFRRConfigPerm : os.FileMode := 416%N.

Definition atomicWrite (path : string) (data : list byte) (perm : os.FileMode)
  : Stmt os.FS :=
  fun fs =>
    let tmpPath := (path ++ ".tmp")%string in
    match os.WriteFile tmpPath data perm fs with
    | (Some e, fs') =>
        (Some (fmt_Errorf "writing temporary file %q: %w"
                          [opString tmpPath; opError e]), fs')
    | (None, fs') =>
        match os.Rename tmpPath path fs' with
        | (Some e, fs'') =>
            (Some (fmt_Errorf
                     "renaming temporary file %q to destination file %q: %w"
                     [opString tmpPath; opString path; opError e]), fs'')
        | (None, fs'') => (None, fs'')
        end
    end.

(** ** Sockets

    The container holds pointers: the four named fields and the list
    [allConnections] refer to the same [Connection] objects. A pointer is
    an index into the heap of the [World]. *)

Definition ptr : Type := nat.

Record Sockets := mkSockets {
  bgpConn : ptr;
  bfdConn : ptr;
  mgmtConn : ptr;
  zebraConn : ptr;
  allConnections : list ptr;
  frrConfigPath : string
}.

Record World := mkWorld {
  heap : list Connection;
  network : net.Network;
  fs : os.FS
}.

(** A computation over the world; [None] is the panic of a nil or dangling
    pointer, which a container made by [NewSockets] never meets. *)
Definition M (A : Type) : Type := World -> option (A * World).

Definition ret {A} (a : A) : M A := fun w => Some (a, w).

Definition bind {A B} (m : M A) (k : A -> M B) : M B :=
  fun w => match m w with
           | Some (a, w') => k a w'
           | None => None
           end.

Notation "'let*' x ':=' m 'in' k" := (bind m (fun x => k))
  (at level 10, x name, m at level 100, k at level 200).

(** [new(Connection)] *)
Definition alloc (c : Connection) : M ptr :=
  fun w => Some (length (heap w), mkWorld (heap w ++ [c]) (network w) (fs w)).

(** [*p] *)
Definition deref (p : ptr) : M Connection :=
  fun w => match heap w !! p with
           | Some c => Some (c, w)
           | None => None
           end.

(** A call [p.method(...)] of a method that works on its receiver only. *)
Definition call {A} (p : ptr) (method : Connection -> A * Connection) : M A :=
  fun w => match heap w !! p with
           | Some c =>
               let (a, c') := method c in
               Some (a, mkWorld (<[p := c']> (heap w)) (network w) (fs w))
           | None => None
           end.

(** [p.Connect(ctx)] *)
Definition callConnect (ctx : Context) (p : ptr) : M (option error) :=
  fun w => match heap w !! p with
           | Some c =>
               let '((e, c'), nw') := Connect ctx c (network w) in
               Some (e, mkWorld (<[p := c']> (heap w)) nw' (fs w))
           | None => None
           end.

(** A statement on the files, run in the world. *)
Definition onFiles (st : Stmt os.FS) : M (option error) :=
  fun w => let (e, fs') := st (fs w) in
           Some (e, mkWorld (heap w) (network w) fs').

Definition mgmtSocketName : string := "mgmtd.vty".
Definition bfdSocketName : string := "bfdd.vty".
Definition bgpSocketName : string := "bgpd.vty".
Definition zebraSocketName : string := "zebra.vty".

Section NewSockets.

(** [filepath.Join] of the run directory and a socket name; nothing below
    depends on how it cleans the path. *)
Variable filepath_Join : string -> string -> string.

Definition NewSockets (frrConfigPath frrRunDir : string) : M Sockets :=
  let* bgpConn :=
    alloc (NewConnection (filepath_Join frrRunDir bgpSocketName)) in
  let* bfdConn :=
    alloc (NewConnection (filepath_Join frrRunDir bfdSocketName)) in
  let* mgmtConn :=
    alloc (NewConnection (filepath_Join frrRunDir mgmtSocketName)) in
  let* zebraConn :=
    alloc (NewConnection (filepath_Join frrRunDir zebraSocketName)) in
  let allConnections := [bgpConn; bfdConn; mgmtConn; zebraConn] in
  ret {| bgpConn := bgpConn; bfdConn := bfdConn; mgmtConn := mgmtConn;
         zebraConn := zebraConn; allConnections := allConnections;
         frrConfigPath := frrConfigPath |}.

End NewSockets.

Definition execute (s : Sockets) (ctx : Context) (conn : ptr) (cmd : string)
  : M (list byte * option error) :=
  call conn (Execute ctx cmd).

Definition ExecuteBFD (s : Sockets) (ctx : Context) (cmd : string)
  : M (list byte * option error) :=
  execute s ctx (mgmtConn s) cmd.

Definition ExecuteBGP (s : Sockets) (ctx : Context) (cmd : string)
  : M (list byte * option error) :=
  execute s ctx (bgpConn s) cmd.

Definition ExecuteMgmt (s : Sockets) (ctx : Context) (cmd : string)
  : M (list byte * option error) :=
  execute s ctx (mgmtConn s) cmd.

Definition ExecuteZebra (s : Sockets) (ctx : Context) (cmd : string)
  : M (list byte * option error) :=
  execute s ctx (zebraConn s) cmd.

(** [for _, c := range conns { err = errors.Join(err, step(c)) }] *)
Fixpoint joinEach (conns : list ptr) (step : ptr -> M (option error))
  (err : option error) : M (option error) :=
  match conns with
  | [] => ret err
  | c :: conns' =>
      let* e := step c in
      joinEach conns' step (errors_Join [err; e])
  end.

(** [Sockets.Close] and [Sockets.Connect] *)
Definition Sockets_Close (s : Sockets) : M (option error) :=
  joinEach (allConnections s) (fun c => call c Close) None.

Definition Sockets_Connect (s : Sockets) (ctx : Context) : M (option error) :=
  let* err := joinEach (allConnections s) (callConnect ctx) None in
  match err with
  | Some _ =>
      let* e := Sockets_Close s in
      ret (errors_Join [err; e])
  | None => ret None
  end.

Definition ApplyBGPConfig (s : Sockets) (ctx : Context) (config : list byte)
  : M (option error) :=
  call (bgpConn s) (ApplyConfig ctx config).

Definition ApplyMgmtConfig (s : Sockets) (ctx : Context) (config : list byte)
  : M (option error) :=
  call (mgmtConn s) (ApplyConfig ctx config).

Definition ShowRunningConfigBGP (s : Sockets) (ctx : Context)
  : M (list byte * option error) :=
  call (bgpConn s) (ShowRunningConfig ctx).

Definition ShowRunningConfigMgmt (s : Sockets) (ctx : Context)
  : M (list byte * option error) :=
  call (mgmtConn s) (ShowRunningConfig ctx).

(** [bytes.Buffer.Write]: the error is always nil. *)
Definition Buffer_Write (buf p : list byte) : (Z * option error) * list byte :=
  ((len p, None), buf ++ p).

(** The loop of [DumpRunningConfig] over the connections: the buffer when
    every connection has answered, or the error the function returns. *)
Fixpoint dumpLoop (ctx : Context) (conns : list ptr) (resultConfig : list byte)
  : M (list byte + error) :=
  match conns with
  | [] => ret (inl resultConfig)
  | conn :: conns' =>
      let* r := call conn (ShowRunningConfig ctx) in
      match r with
      | (resp, Some e) =>
          ret (inr (fmt_Errorf "show running config, resp: %s, err: %w"
                               [opBytes resp; opError e]))
      | (resp, None) =>
          let* c := deref conn in
          let comment := bytes_of_string ("! " ++ socketPath c ++ NL) in
          match Buffer_Write resultConfig comment with
          | ((_, Some e), _) =>
              ret (inr (fmt_Errorf "write comment to buffer: %w" [opError e]))
          | ((_, None), resultConfig1) =>
              match Buffer_Write resultConfig1 resp with
              | ((_, Some e), _) =>
                  ret (inr (fmt_Errorf "write response to buffer: %w"
                                       [opError e]))
              | ((_, None), resultConfig2) =>
                  dumpLoop ctx conns' resultConfig2
              end
          end
      end
  end.

Definition DumpRunningConfig (s : Sockets) (ctx : Context) (dstFile : string)
  (mode : os.FileMode) : M (option error) :=
  let* r := dumpLoop ctx (allConnections s) [] in
  match r with
  | inr e => ret (Some e)
  | inl resultConfig =>
      let* e := onFiles (atomicWrite dstFile resultConfig mode) in
      match e with
      | Some e =>
          ret (Some (fmt_Errorf "atomic write for %s: %w"
                                [opString (frrConfigPath s); opError e]))
      | None => ret None
      end
  end.


(** * Vocabulary of the properties *)

(** ** Status codes *)

(** The seventeen codes in the order of their declaration, and the
    mnemonics of lib/command.h in the same order. *)
Definition definedCodes : list StatusCode :=
  [Success; Warning; ErrNoMatch; ErrAmbiguous; ErrIncomplete; ErrExeedArgcMax;
   ErrNothingTodo; CompleteFullMatch; CompleteMatch; CompleteListMatch;
   SuccessDaemon; ErrNoFile; Suspend; WarningConfigFailed; NotMyInstance;
   NoLevelUp; ErrNoDaemon].

Definition mnemonics : list string :=
  ["CMD_SUCCESS"; "CMD_WARNING"; "CMD_ERR_NO_MATCH"; "CMD_ERR_AMBIGUOUS";
   "CMD_ERR_INCOMPLETE"; "CMD_ERR_EXEED_ARGC_MAX"; "CMD_ERR_NOTHING_TODO";
   "CMD_COMPLETE_FULL_MATCH"; "CMD_COMPLETE_MATCH"; "CMD_COMPLETE_LIST_MATCH";
   "CMD_SUCCESS_DAEMON"; "CMD_ERR_NO_FILE"; "CMD_SUSPEND";
   "CMD_WARNING_CONFIG_FAILED"; "CMD_NOT_MY_INSTANCE"; "CMD_NO_LEVEL_UP";
   "CMD_ERR_NO_DAEMON"].

Definition unknownStatus : string := "unknown status code".

(** The codes [Execute] accepts. *)
Definition acceptedCodes : list StatusCode := [Success; Warning; SuccessDaemon].

(** ** Errors *)

(** The strings an error built by [fmt.Errorf] carries in its message. *)
Definition mentions (e : error) (s : string) : Prop :=
  match e with
  | fmt_Errorf _ operands => In (opString s) operands
  | _ => False
  end.

(** [carries err t]: [err] is an error and [errors.Is err t]. *)
Definition carries (err : option error) (t : error) : Prop :=
  exists e, err = Some e /\ Is e t.

(** The error of [Execute] for a code it does not accept. *)
Definition statusRejected (cmd : string) (c : Connection) (sc : StatusCode)
  : error :=
  fmt_Errorf "%w, FRR command %q on socket %q: %s"
             [opError ErrNotAcceptableStatusCode; opString cmd;
              opString (socketPath c); opString (StatusCode_String sc)].

(** The error of [ApplyConfig] for a configuration line that failed. *)
Definition lineFailed (cmd : list byte) (c : Connection) (e : error) : error :=
  fmt_Errorf "exec command '%s' on frr socket %s while applying config: %w"
             [opBytes cmd; opString (socketPath c); opError e].

(** ** Framing *)

(** A response on the wire: the plaintext, the marker, the status byte. *)
Definition encodeResponse (P : list byte) (status : StatusCode) : list byte :=
  P ++ terminationMarker ++ [status].

(** [P] has no run of three zero bytes. *)
Definition noMarkerRun (P : list byte) : Prop :=
  forall l1 l2, P <> l1 ++ terminationMarker ++ l2.

(** ** Commands *)

(** A command as [writeCommand] puts it on the wire. *)
Definition wire (cmd : string) : list byte :=
  bytes_of_string (cmd ++ String "000"%char EmptyString).

(** What has been written on the transport of a connection. *)
Definition sentOn (c : Connection) : list (list byte) :=
  match conn c with
  | Some nc => net.sent nc
  | None => []
  end.

(** The lines of a configuration as the spec words them: split on newline,
    trimmed, the empty ones left out. *)
Definition configLines (config : list byte) : list (list byte) :=
  filter (fun line => line <> [])
         (map bytes.TrimSpace (bytes.Split config (bytes_of_string NL))).

Definition configCommands (config : list byte) : list string :=
  map string_of_bytes (configLines config).

(** [ExecAll ctx cmds c c']: executed in this order from [c], every
    command of [cmds] succeeds, and the connection ends as [c']. *)
Inductive ExecAll (ctx : Context)
  : list string -> Connection -> Connection -> Prop :=
| ExecAll_nil c : ExecAll ctx [] c c
| ExecAll_cons cmd cmds c resp c1 c2 :
    Execute ctx cmd c = ((resp, None), c1) ->
    ExecAll ctx cmds c1 c2 ->
    ExecAll ctx (cmd :: cmds) c c2.

#[global] Hint Constructors ExecAll : gofrr.

(** ** Sockets *)

(** What [NewSockets] establishes and no method changes: the list holds
    the four named connections in the order bgp, bfd, mgmt, zebra, they are
    four different objects, and they are allocated. *)
Definition Sockets_wf (s : Sockets) (w : World) : Prop :=
  allConnections s = [bgpConn s; bfdConn s; mgmtConn s; zebraConn s] /\
  NoDup (allConnections s) /\
  Forall (fun p => is_Some (heap w !! p)) (allConnections s).

(** Two worlds with the same socket paths in the heap and the same
    listeners: all that the methods of [Sockets] keep. *)
Definition sameSockets (w w' : World) : Prop :=
  map socketPath (heap w') = map socketPath (heap w) /\
  net.listeners (network w') = net.listeners (network w).

(** The connection at [p] has no transport. *)
Definition unconnected (w : World) (p : ptr) : Prop :=
  exists c, heap w !! p = Some c /\ conn c = None.

(** A dial of the socket of the connection at [p] fails with [e]. *)
Definition dialFails (w : World) (p : ptr) (e : error) : Prop :=
  exists c, heap w !! p = Some c /\
            net.listeners (network w) (socketPath c) = inr e.

(** The socket paths of the connections at [ps]. *)
Definition pathsOf (w : World) (ps : list ptr) : list string :=
  omap (fun p => socketPath <$> heap w !! p) ps.

(** The answer of [ShowRunningConfig] on a connection, and its failure. *)
Definition shown (ctx : Context) (c : Connection) : list byte :=
  fst (fst (ShowRunningConfig ctx c)).

Definition showFails (ctx : Context) (c : Connection) : Prop :=
  snd (fst (ShowRunningConfig ctx c)) <> None.

(** What [DumpRunningConfig] writes for one connection: the comment line
    with the socket path, then the running configuration. *)
Definition dumpEntry (c : Connection) (resp : list byte) : list byte :=
  bytes_of_string ("! " ++ socketPath c ++ NL) ++ resp.

(** The merged configuration of the connections [cs], in their order. *)
Definition mergedConfig (ctx : Context) (cs : list Connection) : list byte :=
  concat (map (fun c => dumpEntry c (shown ctx c)) cs).

(** The next [n] calls on the files work. *)
Definition filesWork (n : nat) (fs : os.FS) : Prop :=
  Forall (fun fault => fault = None) (firstn n (os.faults fs)).

(** ** Examples *)

Definition noDeadline : Context := mkContext None.

(** A transport that has nothing wrong with it and delivers the given
    chunks, one per read. *)
Definition peer (chunks : list (list byte)) : net.Conn :=
  net.mkConn 0 None [] [] [] (map net.Delivers chunks) None.

(** The chunks that deliver [data] one byte at a time. *)
Definition bytewise (data : list byte) : list (list byte) :=
  map (fun b => [b]) data.

(** The response of a daemon that has nothing to say: no plaintext, the
    status [Success]. *)
Definition emptyOK : list byte := encodeResponse [] Success.

(** A connection to bgpd whose daemon sends the given chunks. *)
Definition bgpd (chunks : list (list byte)) : Connection :=
  mkConnection "/run/frr/bgpd.vty" (Some (peer chunks)).

(** A connection to zebra whose transport fails to close. *)
Definition brokenZebra : Connection :=
  mkConnection "/run/frr/zebra.vty"
    (Some (net.mkConn 0 None [] [] [] []
                      (Some (errors_New "bad file descriptor")))).

(** The configuration of the spec's example: two lines, the second
    indented, and a blank line at the end. *)
Definition exampleConfig : list byte :=
  bytes_of_string ("router bgp 65000" ++ NL ++
                   " neighbor 10.0.0.1 remote-as 65001" ++ NL ++ NL).

(** A machine: the four sockets under [/run/frr], and the container as
    [NewSockets] makes it in an empty heap. *)
Definition exampleSockets : Sockets :=
  mkSockets 0 1 2 3 [0; 1; 2; 3] "/etc/frr/frr.conf".

Definition examplePaths : list string :=
  ["/run/frr/bgpd.vty"; "/run/frr/bfdd.vty"; "/run/frr/mgmtd.vty";
   "/run/frr/zebra.vty"].

(** No daemon listens on the bfd and zebra sockets. *)
Definition refused : error := errors_New "connect: connection refused".
Definition missing : error := errors_New "connect: no such file or directory".

Definition exampleListeners (path : string) : net.Conn + error :=
  if String.eqb path "/run/frr/bfdd.vty" then inr refused
  else if String.eqb path "/run/frr/zebra.vty" then inr missing
  else inl (peer []).

(** The machine with no connection made yet. *)
Definition downWorld : World :=
  mkWorld (map NewConnection examplePaths)
          (net.mkNetwork exampleListeners []) (os.mkFS ∅ []).

(** A connection whose daemon answers [enable], then [do write terminal]
    with its configuration, then [disable]. *)
Definition answering (path config : string) : Connection :=
  mkConnection path
    (Some (peer [emptyOK;
                 encodeResponse (bytes_of_string config) Success;
                 emptyOK])).

(** The machine with the four connections made, and an old file at the
    destination of the dump. *)
Definition upWorld : World :=
  mkWorld [answering "/run/frr/bgpd.vty" ("router bgp 65000" ++ NL);
           answering "/run/frr/bfdd.vty" ("bfd" ++ NL);
           answering "/run/frr/mgmtd.vty" ("hostname r1" ++ NL);
           answering "/run/frr/zebra.vty" ("ip forwarding" ++ NL)]
          (net.mkNetwork exampleListeners [])
          (os.mkFS {[ "/etc/frr/frr.conf" :=
                        os.mkFile (bytes_of_string "old")
                                  DefaultFRRConfigPerm ]} []).


(** ** The deliveries of a transport *)

(** The bytes a transport delivers before its first failure, and that
    failure: the error of the first read that fails, [io.EOF] when the
    deliveries run out. *)
Fixpoint stream (evs : list net.ReadEvent) : list byte :=
  match evs with
  | net.Delivers d :: evs' => d ++ stream evs'
  | _ => []
  end.

Fixpoint failure (evs : list net.ReadEvent) : error :=
  match evs with
  | net.Delivers _ :: evs' => failure evs'
  | net.ReadFails e :: _ => e
  | [] => io_EOF
  end.

(** The test that ends the loop of [readResponse]: the marker is in the
    buffer and four bytes follow its start. *)
Definition complete (B : list byte) : Prop :=
  (0 <= bytes.Index B terminationMarker)%Z /\
  (len B - bytes.Index B terminationMarker = techDataTotalLen)%Z.

(** A payload that the framing can carry: no run of three zero bytes, no
    zero byte at the end. *)
Definition framable (P : list byte) : Prop :=
  noMarkerRun P /\ last P <> Some x00.

(** Nothing is scripted to go wrong with the deadlines and the writes of
    the transport. *)
Definition healthy (nc : net.Conn) : Prop :=
  Forall (fun fault => fault = None) (net.deadlineFaults nc) /\
  Forall (fun fault => fault = None) (net.writeFaults nc).

(** [serves nc rs]: the transport is healthy and its daemon answers the
    coming commands with the responses [rs], plaintext and status, one
    after the other - each response in deliveries of its own, cut into
    chunks in whatever way. Nothing is asked of the plaintexts here:
    whether the framing can carry them is said apart, by [framable]. *)
Definition serves (nc : net.Conn) (rs : list (list byte * StatusCode))
  : Prop :=
  healthy nc /\
  exists chunkss evs,
    net.incoming nc = map net.Delivers (concat chunkss) ++ evs /\
    Forall2 (fun chunks r => concat chunks = encodeResponse (fst r) (snd r))
            chunkss rs.

(** The same socket in the same state of connection: the path is kept,
    and there is a transport after if and only if there was one before. *)
Definition sameSocket (c c' : Connection) : Prop :=
  socketPath c' = socketPath c /\ (conn c' = None <-> conn c = None).

(** ** Configuration text *)

(** A command as a line of configuration: not empty, without a newline,
    and with no white space to trim at either end. *)
Definition commandLine (l : list byte) : Prop :=
  l <> [] /\ ~ In x0a l /\ bytes.TrimSpace l = l.

(** The text of the lines [ls], each followed by a newline. *)
Definition unlines (ls : list (list byte)) : list byte :=
  concat (map (fun l => l ++ [x0a]) ls).

(** ** More on the sockets *)

(** The close of the transport of the connection at [p] fails with [e]. *)
Definition closeFails (w : World) (p : ptr) (e : error) : Prop :=
  exists c nc, heap w !! p = Some c /\ conn c = Some nc /\
               net.closeFault nc = Some e.

(** A daemon listens on the socket of the connection at [p]: a dial
    yields the transport [nc]. *)
Definition dialYields (w : World) (p : ptr) (nc : net.Conn) : Prop :=
  exists c, heap w !! p = Some c /\
            net.listeners (network w) (socketPath c) = inl nc.

(** The worlds differ at most in the connection at [p]. *)
Definition onlyAt (p : ptr) (w w' : World) : Prop :=
  network w' = network w /\ fs w' = fs w /\
  forall q, q <> p -> heap w' !! q = heap w !! q.

(** The computation [m] is the method [method] run on the connection at
    [p], and on nothing else. *)
Definition runsOn {A} (m : M A) (p : ptr)
  (method : Connection -> A * Connection) (w : World) : Prop :=
  exists c w',
    heap w !! p = Some c /\ m w = Some (fst (method c), w') /\
    heap w' !! p = Some (snd (method c)) /\ onlyAt p w w'.

(** The computation [m] does not panic, and keeps the container well
    formed and the sockets the same. *)
Definition safe {A} (s : Sockets) (m : M A) (w : World) : Prop :=
  exists r w', m w = Some (r, w') /\ Sockets_wf s w' /\ sameSockets w w'.

(** The daemon behind the transport answers [enable],
    [do write terminal] and [disable] with accepted status, the second
    one with the configuration [P]; the plaintexts of the first and the
    third answer are ones that the framing can carry. Whether it can
    carry [P] is not said here. *)
Definition showsConfig (nc : net.Conn) (P : list byte) : Prop :=
  exists r1 s2 r3,
    serves nc [r1; (P, s2); r3] /\
    framable (fst r1) /\ framable (fst r3) /\
    In (snd r1) acceptedCodes /\ In s2 acceptedCodes /\
    In (snd r3) acceptedCodes.

(** A machine on which the four daemons listen, each ready to show a
    configuration of one line; no container has been made yet. *)
Definition showing (config : string) : net.Conn :=
  peer [emptyOK; encodeResponse (bytes_of_string config) Success; emptyOK].

Definition listening (path : string) : net.Conn + error :=
  if String.eqb path "/run/frr/bgpd.vty" then inl (showing "router bgp 65000")
  else if String.eqb path "/run/frr/bfdd.vty" then inl (showing "bfd")
  else if String.eqb path "/run/frr/mgmtd.vty" then inl (showing "hostname r1")
  else if String.eqb path "/run/frr/zebra.vty" then inl (showing "ip forwarding")
  else inr missing.

Definition servedWorld : World :=
  mkWorld [] (net.mkNetwork listening []) (os.mkFS ∅ []).

(** What [filepath.Join] gives for a directory and a name that are clean
    already, the directory neither the root nor ending in a slash, as
    [/run/frr] and [bgpd.vty]: the two with a slash between. On other
    arguments [filepath.Join] cleans the path and this function does
    not. *)
Definition joinClean (dir name : string) : string :=
  (dir ++ "/" ++ name)%string.

(** ** Lines and white space, in the words of the spec

    What "a line of the blob" and "the line without its surrounding white
    space" mean is said here without [bytes.Split] and [bytes.TrimSpace]:
    these are the notions the code is measured against. *)

(** White space as Unicode has it: the code points with the property
    White_Space, which is what Go's [unicode.IsSpace] tests. *)
Definition spaceRunes : list N :=
  [9; 10; 11; 12; 13; 32; 133; 160; 5760;
   8192; 8193; 8194; 8195; 8196; 8197; 8198; 8199; 8200; 8201; 8202;
   8232; 8233; 8239; 8287; 12288]%N.

Definition byte_of_N (n : N) : byte :=
  match Byte.of_N n with
  | Some b => b
  | None => x00
  end.

(** The UTF-8 encoding of a code point below U+10000. *)
Definition utf8 (r : N) : list byte :=
  if (r <? 128)%N then [byte_of_N r]
  else if (r <? 2048)%N then
    [byte_of_N (192 + r / 64); byte_of_N (128 + r mod 64)]
  else
    [byte_of_N (224 + r / 4096); byte_of_N (128 + (r / 64) mod 64);
     byte_of_N (128 + r mod 64)].

(** A byte that goes on a character of more than one byte. *)
Definition continues (b : byte) : bool :=
  (128 <=? Byte.to_nat b)%nat && (Byte.to_nat b <? 192)%nat.

(** A run of white space: white space characters, one after the other. *)
Definition spaces (l : list byte) : Prop :=
  exists rs, Forall (fun r => In r spaceRunes) rs /\ l = concat (map utf8 rs).

(** [t] neither begins nor ends with a white space character. *)
Definition trimmed (t : list byte) : Prop :=
  forall r, In r spaceRunes ->
            ~ utf8 r `prefix_of` t /\ ~ utf8 r `suffix_of` t.

(** [t] is the line [raw] without the white space around it. *)
Definition strips (raw t : list byte) : Prop :=
  exists l r, raw = l ++ t ++ r /\ spaces l /\ spaces r /\ trimmed t.

(** The text whose lines are [first] and then those of [rest]: a newline
    stands between one line and the next. A text that ends with a newline
    has an empty last line. *)
Definition joinLines (first : list byte) (rest : list (list byte))
  : list byte :=
  first ++ concat (map (fun l => x0a :: l) rest).

(** The commands of the lines once stripped: the ones that are not empty,
    as strings. *)
Definition commandsOf (trims : list (list byte)) : list string :=
  map string_of_bytes (filter (fun t => t <> []) trims).
(** * Properties *)

(** An error built by [fmt.Errorf] wraps its [%w] operand. *)
Ltac wraps := eapply Is_wrapped; [simpl; auto | apply Is_here].

(** ** Status codes *)

(** C9. The seventeen codes have the values 0 to 16 in declaration order and
    [String] gives each its mnemonic, [CMD_SUCCESS] for 0 up to
    [CMD_ERR_NO_DAEMON] for 16; every other byte gets the one fallback
    string, which is not empty. [String] is a total function: it never
    fails. *)
Theorem StatusCode_String_table :
  map Byte.to_nat definedCodes = seq 0 17 /\
  map StatusCode_String definedCodes = mnemonics /\
  (forall sc : StatusCode,
      (16 < Byte.to_nat sc)%nat -> StatusCode_String sc = unknownStatus) /\
  unknownStatus <> "".
Proof.
  repeat split; try reflexivity; try discriminate.
  intros sc Hsc. destruct sc; try reflexivity; vm_compute in Hsc; lia.
Qed.

Lemma StatusCode_String_table_witness :
  (16 < Byte.to_nat xff)%nat /\ StatusCode_String xff = unknownStatus.
Proof.
  split; [vm_compute; lia|].
  apply (proj1 (proj2 (proj2 StatusCode_String_table))). vm_compute; lia.
Defined.

(** ** Close *)

(** The two cases of [Close]. *)
Lemma Close_connected c nc :
  conn c = Some nc ->
  Close c =
  (match net.closeFault nc with
   | Some e => Some (fmt_Errorf "socket connection close %s: %w"
                                [opString (socketPath c); opError e])
   | None => None
   end, with_conn c None).
Proof.
  intros H. unfold Close, net.Close. rewrite H.
  destruct (net.closeFault nc); reflexivity.
Qed.

Lemma Close_unconnected c : conn c = None -> Close c = (None, c).
Proof. intros H. unfold Close. rewrite H. reflexivity. Qed.

Lemma Close_conn c : conn (snd (Close c)) = None.
Proof.
  destruct (conn c) as [nc|] eqn:H.
  - rewrite (Close_connected c nc H). reflexivity.
  - rewrite (Close_unconnected c H). exact H.
Qed.

Lemma Close_socketPath c : socketPath (snd (Close c)) = socketPath c.
Proof.
  destruct (conn c) as [nc|] eqn:H.
  - rewrite (Close_connected c nc H). reflexivity.
  - rewrite (Close_unconnected c H). reflexivity.
Qed.

(** C10. After [Close] the transport is absent, whether the close of the
    transport reported an error or not; a [Close] right after it returns
    nil; and [Close] on a connection without transport returns nil and
    leaves the connection as it is. *)
Theorem Close_idempotent (c : Connection) :
  conn (snd (Close c)) = None /\
  Close (snd (Close c)) = (None, snd (Close c)) /\
  (forall nc e,
      conn c = Some nc -> net.closeFault nc = Some e ->
      exists e', fst (Close c) = Some e' /\ Is e' e /\
                 conn (snd (Close c)) = None) /\
  (conn c = None -> Close c = (None, c)).
Proof.
  split; [apply Close_conn|].
  split; [apply Close_unconnected, Close_conn|].
  split; [|apply Close_unconnected].
  intros nc e Hc He. rewrite (Close_connected c nc Hc), He. simpl.
  eexists; split; [reflexivity|]. split; [|reflexivity].
  wraps.
Qed.

Lemma Close_idempotent_witness :
  exists e', fst (Close brokenZebra) = Some e' /\
             Is e' (errors_New "bad file descriptor") /\
             conn (snd (Close brokenZebra)) = None.
Proof.
  apply (proj1 (proj2 (proj2 (Close_idempotent brokenZebra))) _
           (errors_New "bad file descriptor") eq_refl eq_refl).
Defined.

(** ** Execute *)

(** C8. [Execute] on a connection without transport fails at once with the
    error that wraps [ErrConnNotEstab] and names the socket; the connection
    comes back as it was, and as there is no transport nothing is written
    and nothing is read. *)
Theorem Execute_unconnected (ctx : Context) (cmd : string) (c : Connection) :
  conn c = None ->
  Execute ctx cmd c =
    (([], Some (fmt_Errorf "%w %s" [opError ErrConnNotEstab;
                                    opString (socketPath c)])), c) /\
  Is (fmt_Errorf "%w %s" [opError ErrConnNotEstab; opString (socketPath c)])
     ErrConnNotEstab.
Proof.
  intros H. unfold Execute. rewrite H. split; [reflexivity|].
  wraps.
Qed.

Lemma Execute_unconnected_witness :
  Execute noDeadline "show version" (NewConnection "/run/frr/bgpd.vty") =
    (([], Some (fmt_Errorf "%w %s" [opError ErrConnNotEstab;
                                    opString "/run/frr/bgpd.vty"])),
     NewConnection "/run/frr/bgpd.vty").
Proof.
  apply (Execute_unconnected noDeadline "show version"
           (NewConnection "/run/frr/bgpd.vty")).
  reflexivity.
Defined.

(** C7. When the deadline is set, the command is written and the read
    cycle completes with plaintext [pt] and code [sc]: for [sc] among
    [Success], [Warning], [SuccessDaemon], [Execute] returns [pt] and no
    error; for any other [sc] it returns [pt] together with an error that
    wraps [ErrNotAcceptableStatusCode] and carries the command, the socket
    path and the mnemonic of [sc]. *)
Theorem Execute_status (ctx : Context) (cmd : string) (c : Connection)
  (nc nc1 nc2 : net.Conn) (n : Z) (pt : list byte) (sc : StatusCode)
  (c' : Connection) :
  conn c = Some nc ->
  setDeadline ctx nc = (None, nc1) ->
  writeCommand cmd nc1 = ((n, None), nc2) ->
  readResponse (with_conn c (Some nc2)) = (mkResponse pt sc None, c') ->
  (In sc acceptedCodes -> Execute ctx cmd c = ((pt, None), c')) /\
  (~ In sc acceptedCodes ->
   Execute ctx cmd c = ((pt, Some (statusRejected cmd c sc)), c') /\
   Is (statusRejected cmd c sc) ErrNotAcceptableStatusCode /\
   mentions (statusRejected cmd c sc) (StatusCode_String sc) /\
   mentions (statusRejected cmd c sc) cmd /\
   mentions (statusRejected cmd c sc) (socketPath c)).
Proof.
  intros Hc Hd Hw Hr. unfold Execute. rewrite Hc, Hd, Hw, Hr. simpl.
  split.
  - intros Hin. simpl in Hin.
    destruct Hin as [<-|[<-|[<-|[]]]]; reflexivity.
  - intros Hout. split; [|split; [|unfold mentions; simpl; auto 6]].
    + assert (Hne : forall code, In code acceptedCodes ->
                                   Byte.eqb sc code = false).
      { intros code Hin. destruct (Byte.eqb sc code) eqn:E; [|reflexivity].
        apply Byte.byte_dec_bl in E. subst code. destruct (Hout Hin). }
      rewrite !Hne by (simpl; auto). reflexivity.
    + wraps.
Qed.

Lemma Execute_status_witness :
  Execute noDeadline "show version" (bgpd [[x6f; x6b; x00]; [x00; x00]; [x02]])
  = (([x6f; x6b],
      Some (fmt_Errorf "%w, FRR command %q on socket %q: %s"
                       [opError ErrNotAcceptableStatusCode;
                        opString "show version";
                        opString "/run/frr/bgpd.vty";
                        opString "CMD_ERR_NO_MATCH"])),
     mkConnection "/run/frr/bgpd.vty"
       (Some (net.mkConn 0 (Some 1000000000%Z) [] []
                         [wire "show version"] [] None))).
Proof.
  refine (proj1 (proj2 (Execute_status noDeadline "show version"
            (bgpd [[x6f; x6b; x00]; [x00; x00]; [x02]])
            (peer [[x6f; x6b; x00]; [x00; x00]; [x02]])
            (net.mkConn 0 (Some 1000000000%Z) [] [] []
                        (map net.Delivers [[x6f; x6b; x00]; [x00; x00]; [x02]])
                        None)
            (net.mkConn 0 (Some 1000000000%Z) [] [] [wire "show version"]
                        (map net.Delivers [[x6f; x6b; x00]; [x00; x00]; [x02]])
                        None)
            13%Z [x6f; x6b] ErrNoMatch _ _ _ _ _) _)).
  - reflexivity.
  - reflexivity.
  - reflexivity.
  - reflexivity.
  - unfold acceptedCodes. simpl. intros [H|[H|[H|[]]]]; discriminate H.
Defined.

(** ** The read cycle *)

(** The loop of [readResponse], one round unfolded. *)
Lemma readLoop_round nc response :
  readLoop nc response =
  match net.Read bufSize nc with
  | ((_, Some e), nc') =>
      ({| plainText := response; statusCode := x00; err := Some e |}, nc')
  | ((chunk, None), nc') =>
      let response' := response ++ chunk in
      let endIdx := bytes.Index response' terminationMarker in
      if (endIdx <? 0)%Z then readLoop nc' response'
      else if (len response' - endIdx =? techDataTotalLen)%Z then
        ({| plainText :=
              firstn (Z.to_nat (len response' - techDataTotalLen)) response';
            statusCode := nth (Z.to_nat (len response' - 1)) response' x00;
            err := None |}, nc')
      else readLoop nc' response'
  end.
Proof.
  rewrite readLoop_equation_1. unfold inspect.
  generalize (@eq_refl _ (net.Read bufSize nc)).
  generalize (net.Read bufSize nc) at 2 4 5 as r.
  intros [[chunk [e|]] nc'] H; reflexivity.
Qed.

(** A read that delivers data leaves less to read. *)
Lemma Read_pending n nc data nc' :
  (0 < n)%nat -> net.Read n nc = ((data, None), nc') ->
  (net.pending nc' < net.pending nc)%nat.
Proof.
  intros Hn. unfold net.Read, net.pending.
  destruct (net.incoming nc) as [|[d|e] rest]; simpl; try discriminate.
  destruct (Nat.leb_spec (length d) n); intros [= <- <-]; simpl; [lia|].
  rewrite length_skipn. lia.
Qed.

(** A read changes nothing of the transport but what is still to come. *)
Lemma Read_frame n nc r nc' :
  net.Read n nc = (r, nc') ->
  exists evs, nc' = net.set_incoming evs nc.
Proof.
  unfold net.Read. destruct (net.incoming nc) as [|[d|e] rest] eqn:Hin.
  - intros [= <- <-]. exists (net.incoming nc). destruct nc; reflexivity.
  - destruct (length d <=? n)%nat; intros [= <- <-]; eauto.
  - intros [= <- <-]; eauto.
Qed.

(** So does the whole loop. *)
Lemma readLoop_frame nc response :
  exists evs, snd (readLoop nc response) = net.set_incoming evs nc.
Proof.
  remember (net.pending nc) as n eqn:Hn.
  revert nc response Hn.
  induction n as [n IH] using lt_wf_ind. intros nc response ->.
  rewrite readLoop_round.
  destruct (net.Read bufSize nc) as [[chunk [e|]] nc'] eqn:Hread.
  - simpl. eapply Read_frame; eassumption.
  - assert (Hdec : (net.pending nc' < net.pending nc)%nat)
      by (eapply Read_pending; [|exact Hread]; unfold bufSize; lia).
    destruct (Read_frame _ _ _ _ Hread) as [evs ->].
    assert (Hrec : forall r, exists evs',
               snd (readLoop (net.set_incoming evs nc) r)
               = net.set_incoming evs' nc).
    { intros r. destruct (IH _ Hdec (net.set_incoming evs nc) r eq_refl)
        as [evs' ->]. exists evs'. reflexivity. }
    cbv zeta.
    destruct (_ <? 0)%Z; [apply Hrec|].
    destruct (_ =? _)%Z; [|apply Hrec].
    simpl. eauto.
Qed.

(** *** [bytes.Index] *)

(** [HasPrefix] is what its name says. *)
Lemma HasPrefix_true s p : bytes.HasPrefix s p = true -> exists l, s = p ++ l.
Proof.
  revert s. induction p as [|b p IH]; intros s H; simpl in *.
  - exists s. destruct s; reflexivity.
  - destruct s as [|a s]; [destruct p; discriminate|].
    assert (H' : Byte.eqb a b && bytes.HasPrefix s p = true)
      by (destruct p; exact H).
    apply andb_prop in H' as [Hab Hp]. apply Byte.byte_dec_bl in Hab. subst a.
    destruct (IH _ Hp) as [l ->]. exists l. reflexivity.
Qed.

(** [Index] answers [-1] or a position. *)
Lemma Index_lower s sep : (-1 <= bytes.Index s sep)%Z.
Proof.
  induction s as [|a s IH]; cbn [bytes.Index].
  - destruct (bytes.HasPrefix [] sep); lia.
  - destruct (bytes.HasPrefix (a :: s) sep); [lia|].
    destruct (Z.ltb_spec (bytes.Index s sep) 0); lia.
Qed.

(** A non-negative answer of [Index] is the position of an instance. *)
Lemma Index_found s sep :
  (0 <= bytes.Index s sep)%Z ->
  exists l1 l2, s = l1 ++ sep ++ l2 /\ len l1 = bytes.Index s sep.
Proof.
  induction s as [|a s IH]; cbn [bytes.Index].
  - destruct (bytes.HasPrefix [] sep) eqn:Hp; [|lia].
    intros _. apply HasPrefix_true in Hp as [l Hl]. exists [], l. auto.
  - destruct (bytes.HasPrefix (a :: s) sep) eqn:Hp.
    + intros _. apply HasPrefix_true in Hp as [l Hl]. exists [], l. auto.
    + destruct (Z.ltb_spec (bytes.Index s sep) 0) as [Hneg|Hpos]; [lia|].
      intros _. destruct (IH Hpos) as (l1 & l2 & -> & Hlen).
      exists (a :: l1), l2. split; [reflexivity|].
      unfold len in *. simpl length. lia.
Qed.

Lemma HasPrefix_app sep l : bytes.HasPrefix (sep ++ l) sep = true.
Proof.
  induction sep as [|b sep IH]; simpl; [destruct l; reflexivity|].
  rewrite IH. destruct (Byte.eqb b b) eqn:E; [reflexivity|].
  apply Byte.eqb_false in E. congruence.
Qed.

(** [Index] answers the first instance: it is at or before any instance. *)
Lemma Index_first l1 sep l2 :
  (0 <= bytes.Index (l1 ++ sep ++ l2) sep <= len l1)%Z.
Proof.
  induction l1 as [|a l1 IH].
  - cbn [app]. unfold len. simpl length.
    destruct (sep ++ l2) as [|b l] eqn:E; cbn [bytes.Index].
    + destruct sep; [simpl; lia|discriminate].
    + rewrite <- E, HasPrefix_app. lia.
  - change ((a :: l1) ++ sep ++ l2) with (a :: (l1 ++ sep ++ l2)).
    cbn [bytes.Index]. unfold len in *. simpl length.
    destruct (bytes.HasPrefix _ _); [lia|].
    destruct (Z.ltb_spec (bytes.Index (l1 ++ sep ++ l2) sep) 0); lia.
Qed.

(** No run of three zero bytes, no marker. *)
Lemma Index_no_run s :
  noMarkerRun s -> bytes.Index s terminationMarker = (-1)%Z.
Proof.
  intros Hs. pose proof (Index_lower s terminationMarker).
  destruct (Z.eq_dec (bytes.Index s terminationMarker) (-1)%Z) as [|Hne];
    [assumption|].
  destruct (Index_found s terminationMarker) as (l1 & l2 & Heq & _); [lia|].
  destruct (Hs _ _ Heq).
Qed.

Lemma noMarkerRun_prefix l k : noMarkerRun (l ++ k) -> noMarkerRun l.
Proof.
  intros H l1 l2 ->. apply (H l1 (l2 ++ k)). rewrite <- !app_assoc. reflexivity.
Qed.

Lemma noMarkerRun_tail a l : noMarkerRun (a :: l) -> noMarkerRun l.
Proof. intros H l1 l2 ->. apply (H (a :: l1) l2). reflexivity. Qed.

Lemma noMarkerRun_short l : (length l < 3)%nat -> noMarkerRun l.
Proof.
  intros Hl l1 l2 ->. rewrite !length_app in Hl. simpl in Hl. lia.
Qed.

(** The marker in a payload followed by the first [k] bytes of its
    trailer: found once the three zero bytes are there, and then at the
    end of the payload. *)
Lemma Index_payload P status k :
  noMarkerRun P -> last P <> Some x00 ->
  bytes.Index (P ++ firstn k (terminationMarker ++ [status]))
              terminationMarker =
  if (k <? 3)%nat then (-1)%Z else len P.
Proof.
  intros Hrun Hlast. induction P as [|a P IH].
  - destruct k as [|[|[|[|k]]]]; reflexivity.
  - assert (Hp : bytes.HasPrefix
                   ((a :: P) ++ firstn k (terminationMarker ++ [status]))
                   terminationMarker = false).
    { destruct (bytes.HasPrefix _ _) eqn:Hp; [|reflexivity]. exfalso.
      apply HasPrefix_true in Hp as [l Hl].
      destruct P as [|b [|c P]]; simpl in Hl.
      - injection Hl as -> _. apply Hlast. reflexivity.
      - injection Hl as -> -> _. apply Hlast. reflexivity.
      - injection Hl as -> -> -> _. apply (Hrun [] P). reflexivity. }
    change ((a :: P) ++ ?t) with (a :: (P ++ t)) in *.
    cbn [bytes.Index]. rewrite Hp, IH.
    + destruct (k <? 3)%nat; [reflexivity|].
      destruct (Z.ltb_spec (len P) 0) as [Hn|Hn];
        unfold len in *; simpl length; lia.
    + eapply noMarkerRun_tail; eassumption.
    + destruct P as [|b P]; [discriminate|]. exact Hlast.
Qed.

(** The marker in what has been received so far of a response. *)
Lemma Index_received P status B R :
  noMarkerRun P -> last P <> Some x00 ->
  B ++ R = encodeResponse P status ->
  bytes.Index B terminationMarker =
  if (length B <? length P + 3)%nat then (-1)%Z else len P.
Proof.
  intros Hrun Hlast HB.
  assert (HB' : B = firstn (length B) P ++
                    firstn (length B - length P)
                           (terminationMarker ++ [status])).
  { rewrite <- firstn_app. fold (encodeResponse P status). rewrite <- HB.
    rewrite firstn_app, Nat.sub_diag, firstn_all. simpl.
    symmetry. apply app_nil_r. }
  destruct (Nat.le_gt_cases (length B) (length P)) as [Hle|Hgt].
  - replace (length B - length P)%nat with 0%nat in HB' by lia.
    simpl in HB'. rewrite app_nil_r in HB'.
    destruct (Nat.ltb_spec (length B) (length P + 3)); [|lia].
    apply Index_no_run. apply (noMarkerRun_prefix B (skipn (length B) P)).
    rewrite HB' at 1. rewrite firstn_skipn. exact Hrun.
  - rewrite firstn_all2 in HB' by lia.
    rewrite HB' at 1. rewrite (Index_payload P status _ Hrun Hlast).
    destruct (Nat.ltb_spec (length B - length P) 3),
             (Nat.ltb_spec (length B) (length P + 3)); (reflexivity || lia).
Qed.

(** *** Chunks *)

(** A read of a transport that still holds deliveries: a part of the first
    chunk, with the rest of the data still to come in the same order. *)
Lemma Read_delivery n nc d chunks rest :
  net.incoming nc = map net.Delivers (d :: chunks) ++ rest ->
  exists data chunks' nc',
    net.Read n nc = ((data, None), nc') /\
    net.incoming nc' = map net.Delivers chunks' ++ rest /\
    data ++ concat chunks' = concat (d :: chunks).
Proof.
  intros Hin. unfold net.Read. rewrite Hin. simpl.
  destruct (Nat.leb_spec (length d) n).
  - exists d, chunks, (net.set_incoming (map net.Delivers chunks ++ rest) nc).
    repeat split.
  - exists (firstn n d), (skipn n d :: chunks),
      (net.set_incoming
         (net.Delivers (skipn n d) :: map net.Delivers chunks ++ rest) nc).
    repeat split. simpl. rewrite app_assoc, firstn_skipn. reflexivity.
Qed.

(** The loop, entered with a part of the response in the buffer and the
    rest of it still to be delivered, ends with the payload and the
    status. *)
Lemma readLoop_frames P status :
  noMarkerRun P -> last P <> Some x00 ->
  forall n nc response chunks rest,
    (net.pending nc <= n)%nat ->
    net.incoming nc = map net.Delivers chunks ++ rest ->
    response ++ concat chunks = encodeResponse P status ->
    (length response < length P + 4)%nat ->
    fst (readLoop nc response) = mkResponse P status None.
Proof.
  intros Hrun Hlast.
  induction n as [|n IH]; intros nc response chunks rest Hn Hin Henc Hlt.
  all: destruct chunks as [|d chunks];
    [ exfalso; simpl in Henc; rewrite app_nil_r in Henc; subst response;
      unfold encodeResponse in Hlt; rewrite !length_app in Hlt;
      simpl in Hlt; lia | ].
  - exfalso. unfold net.pending in Hn. rewrite Hin in Hn. simpl in Hn. lia.
  - destruct (Read_delivery bufSize nc d chunks rest Hin)
      as (data & chunks' & nc' & Hread & Hin' & Hcat).
    assert (Hdec : (net.pending nc' < net.pending nc)%nat)
      by (eapply Read_pending; [|exact Hread]; unfold bufSize; lia).
    rewrite readLoop_round, Hread. cbv zeta.
    assert (Henc' : (response ++ data) ++ concat chunks'
                    = encodeResponse P status)
      by (rewrite <- app_assoc, Hcat; exact Henc).
    rewrite (Index_received P status _ _ Hrun Hlast Henc').
    assert (Hlen : (length (response ++ data) <= length P + 4)%nat).
    { apply (f_equal (@length byte)) in Henc'. unfold encodeResponse in Henc'.
      rewrite !length_app in Henc'. simpl in Henc'. rewrite length_app. lia. }
    destruct (Nat.ltb_spec (length (response ++ data)) (length P + 3))
      as [Hs|Hs].
    + change ((-1 <? 0)%Z) with true. cbv iota.
      eapply IH; [lia|exact Hin'|exact Henc'|lia].
    + destruct (Z.ltb_spec (len P) 0) as [Hneg|_];
        [unfold len in Hneg; lia|].
      destruct (Z.eqb_spec (len (response ++ data) - len P) techDataTotalLen)
        as [Hfull|Hpart].
      * unfold len, techDataTotalLen in *.
        assert (Hall : length (response ++ data) = (length P + 4)%nat) by lia.
        assert (HE : response ++ data = encodeResponse P status).
        { rewrite <- Henc'.
          destruct (concat chunks') as [|x xs]; [symmetry; apply app_nil_r|].
          exfalso. apply (f_equal (@length byte)) in Henc'.
          unfold encodeResponse in Henc'. rewrite !length_app in Henc'.
          simpl in Henc'. rewrite length_app in Hall. lia. }
        rewrite HE. simpl. unfold encodeResponse. f_equal.
        -- rewrite !length_app. simpl.
           replace (Z.to_nat (Z.of_nat (length P + 4) - 4))
             with (length P + 0)%nat by lia.
           rewrite firstn_app_2. simpl. apply app_nil_r.
        -- rewrite !length_app. simpl.
           replace (Z.to_nat (Z.of_nat (length P + 4) - 1))
             with (length P + 3)%nat by lia.
           rewrite app_nth2_plus. reflexivity.
      * eapply IH; [lia|exact Hin'|exact Henc'|].
        unfold len, techDataTotalLen in *. lia.
Qed.

(** C1, as the code has it. For a payload [P] without a run of three zero
    bytes that does not end in a zero byte, and any status code: whatever
    the chunks in which the transport delivers [P ++ [0;0;0;status]] (and
    whatever it would deliver after them), the read cycle ends and gives
    the plaintext [P] and that status without error - so the result is
    the same for all chunkings. [readResponse] is a total function, the
    deliveries of a transport being finite. *)
Theorem readResponse_roundtrip (P : list byte) (status : StatusCode)
  (chunks : list (list byte)) (rest : list net.ReadEvent)
  (c : Connection) (nc : net.Conn) :
  noMarkerRun P -> last P <> Some x00 ->
  conn c = Some nc ->
  net.incoming nc = map net.Delivers chunks ++ rest ->
  concat chunks = encodeResponse P status ->
  fst (readResponse c) = mkResponse P status None.
Proof.
  intros Hrun Hlast Hc Hin Hcat. unfold readResponse. rewrite Hc.
  pose proof (readLoop_frames P status Hrun Hlast (net.pending nc) nc []
                chunks rest (Nat.le_refl _) Hin Hcat) as H.
  destruct (readLoop nc []) as [response nc']. simpl in *.
  apply H. lia.
Qed.

Lemma readResponse_roundtrip_witness :
  fst (readResponse
         (bgpd (bytewise (encodeResponse [x6f; x00; x00; x6b] Warning))))
  = mkResponse [x6f; x00; x00; x6b] Warning None.
Proof.
  apply (readResponse_roundtrip [x6f; x00; x00; x6b] Warning
           (bytewise (encodeResponse [x6f; x00; x00; x6b] Warning)) []
           (bgpd (bytewise (encodeResponse [x6f; x00; x00; x6b] Warning)))
           (peer (bytewise (encodeResponse [x6f; x00; x00; x6b] Warning)))).
  - intros l1 l2 H.
    destruct l1 as [|a [|b l1]]; try discriminate H.
    injection H as _ _ H. destruct l1 as [|d l1]; try discriminate H.
    injection H as _ H. destruct l1 as [|d' l1]; try discriminate H.
    injection H as _ H. destruct l1; discriminate H.
  - discriminate.
  - reflexivity.
  - reflexivity.
  - reflexivity.
Defined.

(** Where the loop ends without error: the buffer [B] at that point is a
    part of what was to be received, the marker's first instance in it is
    where the plaintext ends, and four bytes follow. *)
Lemma readLoop_completes :
  forall n nc response chunks pt st,
    (net.pending nc <= n)%nat ->
    net.incoming nc = map net.Delivers chunks ->
    fst (readLoop nc response) = mkResponse pt st None ->
    exists B R,
      B ++ R = response ++ concat chunks /\
      bytes.Index B terminationMarker = len pt /\
      len B = (len pt + 4)%Z.
Proof.
  induction n as [|n IH]; intros nc response chunks pt st Hn Hin Hres.
  all: destruct chunks as [|d chunks];
    [ rewrite readLoop_round in Hres; unfold net.Read in Hres;
      rewrite Hin in Hres; discriminate Hres | ].
  - exfalso. unfold net.pending in Hn. rewrite Hin in Hn. simpl in Hn. lia.
  - rewrite <- (app_nil_r (map net.Delivers (d :: chunks))) in Hin.
    destruct (Read_delivery bufSize nc d chunks [] Hin)
      as (data & chunks' & nc' & Hread & Hin' & Hcat).
    rewrite app_nil_r in Hin'.
    assert (Hdec : (net.pending nc' < net.pending nc)%nat)
      by (eapply Read_pending; [|exact Hread]; unfold bufSize; lia).
    rewrite readLoop_round, Hread in Hres. cbv zeta in Hres.
    assert (Hrec : fst (readLoop nc' (response ++ data))
                   = mkResponse pt st None ->
                   exists B R, B ++ R = response ++ concat (d :: chunks) /\
                               bytes.Index B terminationMarker = len pt /\
                               len B = (len pt + 4)%Z).
    { intros H. rewrite <- Hcat, app_assoc.
      eapply IH; [|exact Hin'|exact H]. lia. }
    destruct (Z.ltb_spec (bytes.Index (response ++ data) terminationMarker) 0)
      as [Hneg|Hpos]; [exact (Hrec Hres)|].
    destruct (Z.eqb_spec (len (response ++ data)
                          - bytes.Index (response ++ data) terminationMarker)
                         techDataTotalLen)
      as [Hfull|Hpart]; [|exact (Hrec Hres)].
    simpl in Hres. injection Hres as Hpt _.
    exists (response ++ data), (concat chunks').
    split; [rewrite <- Hcat, app_assoc; reflexivity|].
    assert (Hlen : len pt = (len (response ++ data) - 4)%Z).
    { rewrite <- Hpt. unfold len, techDataTotalLen in *.
      rewrite length_firstn. lia. }
    unfold techDataTotalLen in *. lia.
Qed.

(** The precondition of the round trip is the least one: if some chunking
    of the response of [P] gives back [P] and its status, then [P] has no
    run of three zero bytes and does not end in a zero byte. *)
Lemma roundtrip_only_if P status chunks c nc :
  conn c = Some nc ->
  net.incoming nc = map net.Delivers chunks ->
  concat chunks = encodeResponse P status ->
  fst (readResponse c) = mkResponse P status None ->
  noMarkerRun P /\ last P <> Some x00.
Proof.
  intros Hc Hin Hcat Hres. unfold readResponse in Hres. rewrite Hc in Hres.
  destruct (readLoop nc []) as [response nc'] eqn:Hloop. simpl in Hres.
  destruct (readLoop_completes (net.pending nc) nc [] chunks P status
              (Nat.le_refl _) Hin) as (B & R & HB & Hidx & Hlen).
  { rewrite Hloop. exact Hres. }
  simpl in HB. rewrite Hcat in HB.
  assert (HR : R = []).
  { apply (f_equal (@length byte)) in HB. unfold encodeResponse in HB.
    rewrite !length_app in HB. simpl in HB. unfold len in Hlen.
    destruct R; [reflexivity|]. simpl in HB. lia. }
  subst R. rewrite app_nil_r in HB. subst B. unfold encodeResponse in Hidx.
  split.
  - intros l1 l2 HP. subst P. rewrite <- !app_assoc in Hidx.
    pose proof (Index_first l1 terminationMarker
                  (l2 ++ terminationMarker ++ [status])) as Hfirst.
    rewrite Hidx in Hfirst. unfold len in Hfirst.
    rewrite !length_app in Hfirst. simpl in Hfirst. lia.
  - intros Hlast. apply last_Some in Hlast as [P' ->].
    rewrite <- app_assoc in Hidx.
    pose proof (Index_first P' terminationMarker [x00; status]) as Hfirst.
    change ([x00] ++ terminationMarker ++ [status])
      with (terminationMarker ++ [x00; status]) in Hidx.
    rewrite Hidx in Hfirst. unfold len in Hfirst.
    rewrite length_app in Hfirst. simpl in Hfirst. lia.
Qed.

(** C1, as the claim has it, fails on a payload that ends in a zero byte:
    [[0]] has no run of three zero bytes, yet of its response
    [[0;0;0;0;1]] the marker is found at index 0, not 1. Delivered in one
    chunk, five bytes follow the marker's start, the cycle reads on and
    ends with [io.EOF]; delivered byte by byte, it stops after the fourth
    byte with an empty plaintext and the status [Success]. Neither is the
    payload [[0]] with the status [Warning], and the two differ. *)
Lemma readResponse_trailing_zero :
  noMarkerRun [x00] /\
  fst (readResponse (bgpd [encodeResponse [x00] Warning]))
  = mkResponse [x00; x00; x00; x00; x01] Success (Some io_EOF) /\
  fst (readResponse (bgpd (bytewise (encodeResponse [x00] Warning))))
  = mkResponse [] Success None /\
  ~ (forall (P : list byte) (status : StatusCode) (chunks : list (list byte))
            (rest : list net.ReadEvent) (c : Connection) (nc : net.Conn),
        noMarkerRun P ->
        conn c = Some nc ->
        net.incoming nc = map net.Delivers chunks ++ rest ->
        concat chunks = encodeResponse P status ->
        fst (readResponse c) = mkResponse P status None).
Proof.
  assert (Hrun : noMarkerRun [x00]) by (apply noMarkerRun_short; simpl; lia).
  split; [exact Hrun|]. split; [reflexivity|]. split; [reflexivity|].
  intros H.
  specialize (H [x00] Warning [encodeResponse [x00] Warning] []
                (bgpd [encodeResponse [x00] Warning])
                (peer [encodeResponse [x00] Warning])
                Hrun eq_refl eq_refl eq_refl).
  discriminate H.
Qed.

(** ** What [Execute] leaves on the wire *)

(** Setting the deadline writes nothing; a write is one entry, the whole
    of [b] when it succeeds; reading writes nothing. *)
Lemma SetDeadline_sent t nc e nc' :
  net.SetDeadline t nc = (e, nc') -> net.sent nc' = net.sent nc.
Proof.
  unfold net.SetDeadline.
  destruct (net.deadlineFaults nc) as [|[f|] rest]; intros [= <- <-];
    reflexivity.
Qed.

Lemma Write_sent b nc n e nc' :
  net.Write b nc = ((n, e), nc') ->
  exists out, net.sent nc' = net.sent nc ++ [out] /\
              (e = None -> out = b) /\ out `prefix_of` b.
Proof.
  unfold net.Write.
  destruct (net.writeFaults nc) as [|[[k f]|] rest]; intros [= <- <- <-]; simpl.
  - exists b. repeat split; reflexivity.
  - exists (firstn k b). repeat split; [discriminate|].
    exists (skipn k b). symmetry. apply firstn_skipn.
  - exists b. repeat split; reflexivity.
Qed.

Lemma readResponse_frame c :
  socketPath (snd (readResponse c)) = socketPath c /\
  sentOn (snd (readResponse c)) = sentOn c /\
  (is_Some (conn c) -> is_Some (conn (snd (readResponse c)))).
Proof.
  unfold readResponse, sentOn. destruct (conn c) as [nc|] eqn:Hc.
  - destruct (readLoop_frame nc []) as [evs Hevs].
    destruct (readLoop nc []) as [response nc']. simpl in *. subst nc'.
    repeat split. eauto.
  - simpl. rewrite Hc. repeat split. intros [? [=]].
Qed.

(** Whatever its outcome, [Execute] keeps the socket path and writes at
    most once, the command or a part of it. *)
Lemma Execute_frame ctx cmd c r c' :
  Execute ctx cmd c = (r, c') ->
  socketPath c' = socketPath c /\
  (sentOn c' = sentOn c \/
   exists out, sentOn c' = sentOn c ++ [out] /\ out `prefix_of` wire cmd).
Proof.
  unfold Execute. destruct (conn c) as [nc|] eqn:Hc.
  2: { intros [= <- <-]. auto. }
  unfold setDeadline.
  destruct (net.SetDeadline _ nc) as [[e|] nc1] eqn:Hd.
  { intros [= <- <-]. split; [reflexivity|]. left. unfold sentOn. rewrite Hc.
    simpl. eapply SetDeadline_sent; eassumption. }
  apply SetDeadline_sent in Hd.
  unfold writeCommand. fold (wire cmd).
  destruct (net.Write (wire cmd) nc1) as [[n [e|]] nc2] eqn:Hw;
    destruct (Write_sent _ _ _ _ _ Hw) as (out & Hout & _ & Hpre).
  { intros [= <- <-]. split; [reflexivity|]. right. exists out.
    unfold sentOn. rewrite Hc. simpl. split; [congruence|assumption]. }
  destruct (readResponse_frame (with_conn c (Some nc2))) as (Hp & Hs & _).
  destruct (readResponse (with_conn c (Some nc2))) as [response c''].
  simpl in Hp, Hs.
  assert (Hgoal : socketPath c'' = socketPath c /\
                  (sentOn c'' = sentOn c \/
                   exists out, sentOn c'' = sentOn c ++ [out] /\
                               out `prefix_of` wire cmd)).
  { split; [exact Hp|]. right. exists out. rewrite Hs. unfold sentOn.
    rewrite Hc. simpl. split; [congruence|assumption]. }
  destruct (err response); [intros [= <- <-]; exact Hgoal|].
  destruct (_ && _); intros [= <- <-]; exact Hgoal.
Qed.

(** An [Execute] that succeeds has written the command and its NUL. *)
Lemma Execute_ok ctx cmd c resp c' :
  Execute ctx cmd c = ((resp, None), c') ->
  socketPath c' = socketPath c /\ sentOn c' = sentOn c ++ [wire cmd].
Proof.
  intros H. split; [eapply Execute_frame; eassumption|].
  revert H. unfold Execute. destruct (conn c) as [nc|] eqn:Hc; [|discriminate].
  unfold setDeadline.
  destruct (net.SetDeadline _ nc) as [[e|] nc1] eqn:Hd; [discriminate|].
  apply SetDeadline_sent in Hd.
  unfold writeCommand. fold (wire cmd).
  destruct (net.Write (wire cmd) nc1) as [[n [e|]] nc2] eqn:Hw; [discriminate|].
  destruct (Write_sent _ _ _ _ _ Hw) as (out & Hout & Hb & _).
  rewrite (Hb eq_refl) in Hout.
  destruct (readResponse_frame (with_conn c (Some nc2))) as (_ & Hs & _).
  destruct (readResponse (with_conn c (Some nc2))) as [response c''].
  simpl in Hs.
  assert (Hgoal : sentOn c'' = sentOn c ++ [wire cmd]).
  { rewrite Hs. unfold sentOn. rewrite Hc. simpl. congruence. }
  destruct (err response); [discriminate|].
  destruct (_ && _); intros [= <- <-]; exact Hgoal.
Qed.

(** Runs of commands compose and split. *)
Lemma ExecAll_app ctx cmds1 cmds2 c c1 c2 :
  ExecAll ctx cmds1 c c1 -> ExecAll ctx cmds2 c1 c2 ->
  ExecAll ctx (cmds1 ++ cmds2) c c2.
Proof.
  induction 1; simpl; eauto with gofrr.
Qed.

Lemma ExecAll_split ctx cmds1 cmds2 c c2 :
  ExecAll ctx (cmds1 ++ cmds2) c c2 ->
  exists c1, ExecAll ctx cmds1 c c1 /\ ExecAll ctx cmds2 c1 c2.
Proof.
  revert c. induction cmds1 as [|cmd cmds1 IH]; simpl; intros c H.
  - eauto with gofrr.
  - inversion H as [|? ? ? resp c1 ? Hex Hrest]; subst.
    destruct (IH _ Hrest) as (c1' & H1 & H2). eauto with gofrr.
Qed.

(** The commands of a successful run are on the wire, in their order. *)
Lemma ExecAll_sent ctx cmds c c' :
  ExecAll ctx cmds c c' ->
  socketPath c' = socketPath c /\ sentOn c' = sentOn c ++ map wire cmds.
Proof.
  induction 1 as [c|cmd cmds c resp c1 c2 Hex _ [IHp IHs]]; simpl.
  - split; [reflexivity|]. symmetry. apply app_nil_r.
  - apply Execute_ok in Hex as [Hp Hs].
    split; [congruence|]. rewrite IHs, Hs, <- app_assoc. reflexivity.
Qed.

(** ** ApplyConfig *)

(** The loop over commands that succeed goes through all of them. *)
Lemma forRange_modes ctx cmds c c' :
  ExecAll ctx cmds c c' -> forRange cmds (runModeCommand ctx) c = (None, c').
Proof.
  induction 1 as [c|cmd cmds c resp c1 c2 Hex _ IH]; simpl; [reflexivity|].
  unfold andThen, runModeCommand at 1. rewrite Hex. exact IH.
Qed.

(** The loop over the raw lines runs the commands of the lines that are
    not empty once trimmed. *)
Lemma forRange_lines ctx raw c c' :
  ExecAll ctx (map string_of_bytes
                 (filter (fun line => line <> []) (map bytes.TrimSpace raw)))
          c c' ->
  forRange raw (runConfigLine ctx) c = (None, c').
Proof.
  revert c. induction raw as [|line raw IH]; simpl; intros c H.
  - inversion H; reflexivity.
  - unfold andThen, runConfigLine at 1. rewrite filter_cons in H.
    destruct (bytes.TrimSpace line) as [|b l] eqn:Ht.
    + rewrite decide_False in H by (intros Hne; apply Hne; reflexivity).
      simpl. apply IH, H.
    + rewrite decide_True in H by discriminate. simpl in H.
      inversion H as [|? ? ? resp c1 ? Hex Hrest]; subst.
      change (len (b :: l) =? 0)%Z with false. cbv iota.
      rewrite Hex. apply IH, Hrest.
Qed.

(** The loop over the raw lines stops at the first command that fails. *)
Lemma forRange_lines_stop ctx raw pre cmd post c c1 resp e c2 :
  filter (fun line => line <> []) (map bytes.TrimSpace raw)
    = pre ++ cmd :: post ->
  ExecAll ctx (map string_of_bytes pre) c c1 ->
  Execute ctx (string_of_bytes cmd) c1 = ((resp, Some e), c2) ->
  forRange raw (runConfigLine ctx) c = (Some (lineFailed cmd c1 e), c2).
Proof.
  revert pre c.
  induction raw as [|line raw IH]; simpl; intros pre c Hf Hpre Hex.
  - destruct pre; discriminate Hf.
  - unfold andThen, runConfigLine at 1. rewrite filter_cons in Hf.
    destruct (bytes.TrimSpace line) as [|b l] eqn:Ht.
    + rewrite decide_False in Hf by (intros Hne; apply Hne; reflexivity).
      simpl. eapply IH; eassumption.
    + rewrite decide_True in Hf by discriminate.
      change (len (b :: l) =? 0)%Z with false. cbv iota.
      destruct pre as [|p pre]; simpl in Hf; injection Hf as Hb Hf.
      * subst cmd. inversion Hpre; subst. rewrite Hex. reflexivity.
      * subst p. simpl in Hpre.
        inversion Hpre as [|? ? ? resp' c' ? Hex' Hrest]; subst.
        rewrite Hex'. eapply IH; eassumption.
Qed.


(** ** The lines of a configuration *)

(** *** Split *)

(** [Index] of a single byte. *)
Lemma Index_byte_none x l :
  ~ In x l -> bytes.Index l [x] = (-1)%Z.
Proof.
  induction l as [|a l IH]; intros Hnot; [reflexivity|].
  cbn [bytes.Index bytes.HasPrefix].
  destruct (Byte.eqb a x) eqn:E.
  - apply Byte.byte_dec_bl in E. subst a. destruct Hnot. left. reflexivity.
  - simpl. rewrite IH by (intros H; apply Hnot; right; exact H). reflexivity.
Qed.

Lemma Index_byte_first x l rest :
  ~ In x l -> bytes.Index (l ++ x :: rest) [x] = len l.
Proof.
  induction l as [|a l IH]; intros Hnot.
  - cbn [app bytes.Index bytes.HasPrefix].
    rewrite (Byte.byte_dec_lb (@eq_refl _ x)). destruct rest; reflexivity.
  - change ((a :: l) ++ x :: rest) with (a :: (l ++ x :: rest)).
    cbn [bytes.Index bytes.HasPrefix].
    destruct (Byte.eqb a x) eqn:E.
    + apply Byte.byte_dec_bl in E. subst a. destruct Hnot. left. reflexivity.
    + simpl. rewrite IH by (intros H; apply Hnot; right; exact H).
      unfold len. simpl length.
      destruct (Z.ltb_spec (Z.of_nat (length l)) 0); lia.
Qed.

Lemma skipn_line (l : list byte) x rest :
  skipn (Z.to_nat (len l) + length [x]) (l ++ x :: rest) = rest.
Proof.
  unfold len. rewrite Nat2Z.id. simpl length.
  replace (length l + 1)%nat with (length (l ++ [x]))
    by (rewrite length_app; reflexivity).
  change (l ++ x :: rest) with (l ++ [x] ++ rest). rewrite app_assoc.
  apply drop_app_length.
Qed.

Lemma firstn_line (l : list byte) x rest :
  firstn (Z.to_nat (len l)) (l ++ x :: rest) = l.
Proof.
  unfold len. rewrite Nat2Z.id.
  rewrite <- (Nat.add_0_r (length l)), firstn_app_2. simpl. apply app_nil_r.
Qed.

Lemma joinLines_cons first l rest :
  joinLines first (l :: rest) = first ++ x0a :: joinLines l rest.
Proof. reflexivity. Qed.

(** A text holds one newline for each line after the first. *)
Lemma countLoop_joinLines rest : forall first rounds n,
  Forall (fun l => ~ In x0a l) (first :: rest) -> (length rest <= rounds)%nat ->
  bytes.countLoop rounds (joinLines first rest) [x0a] n
  = (n + length rest)%nat.
Proof.
  induction rest as [|l rest IH]; intros first rounds n Hls Hr.
  - apply Forall_cons in Hls as [Hf _]. unfold joinLines. simpl.
    rewrite app_nil_r. destruct rounds; simpl; [lia|].
    rewrite (Index_byte_none x0a first Hf). simpl. lia.
  - apply Forall_cons in Hls as [Hf Hls].
    destruct rounds as [|rounds]; [simpl in Hr; lia|].
    rewrite joinLines_cons. cbn [bytes.countLoop].
    rewrite (Index_byte_first x0a first (joinLines l rest) Hf).
    destruct (Z.ltb_spec (len first) 0) as [Hneg|_];
      [unfold len in Hneg; lia|].
    rewrite skipn_line, IH by (auto; simpl in Hr; lia). simpl. lia.
Qed.

Lemma length_joinLines first rest :
  (length rest <= length (joinLines first rest))%nat.
Proof.
  revert first. induction rest as [|l rest IH]; intros first; [simpl; lia|].
  rewrite joinLines_cons. specialize (IH l).
  rewrite length_app. simpl. lia.
Qed.

Lemma genSplit_joinLines rest : forall first,
  Forall (fun l => ~ In x0a l) (first :: rest) ->
  bytes.genSplit (length rest) (joinLines first rest) [x0a] = first :: rest.
Proof.
  induction rest as [|l rest IH]; intros first Hls.
  - unfold joinLines. simpl. rewrite app_nil_r. reflexivity.
  - apply Forall_cons in Hls as [Hf Hls].
    rewrite joinLines_cons.
    change (length (l :: rest)) with (S (length rest)). cbn [bytes.genSplit].
    rewrite (Index_byte_first x0a first (joinLines l rest) Hf).
    destruct (Z.ltb_spec (len first) 0) as [Hneg|_];
      [unfold len in Hneg; lia|].
    rewrite skipn_line, firstn_line, (IH l Hls). reflexivity.
Qed.

(** [bytes.Split] on the newline gives back the lines of a text. *)
Lemma Split_joinLines first rest :
  Forall (fun l => ~ In x0a l) (first :: rest) ->
  bytes.Split (joinLines first rest) (bytes_of_string NL) = first :: rest.
Proof.
  intros Hls. unfold bytes.Split, bytes.Count.
  change (bytes_of_string NL) with [x0a].
  rewrite (countLoop_joinLines rest first _ 0 Hls (length_joinLines first rest)).
  apply genSplit_joinLines, Hls.
Qed.

(** Every text is made of lines, in one way. *)
Lemma joinLines_total config :
  exists first rest,
    config = joinLines first rest /\
    Forall (fun l => ~ In x0a l) (first :: rest).
Proof.
  induction config as [|b config (first & rest & -> & Hls)].
  - exists [], []. split; [reflexivity|]. repeat constructor. intros [].
  - destruct (Byte.eqb b x0a) eqn:E.
    + apply Byte.byte_dec_bl in E. subst b.
      exists [], (first :: rest). split; [reflexivity|].
      constructor; [intros []|exact Hls].
    + exists (b :: first), rest. split; [reflexivity|].
      apply Forall_cons in Hls as [Hf Hls]. constructor; [|exact Hls].
      intros [->|Hin]; [|exact (Hf Hin)].
      rewrite (Byte.byte_dec_lb (@eq_refl _ x0a)) in E. discriminate E.
Qed.

(** *** TrimSpace *)

Lemma HasPrefix_prefix s w : bytes.HasPrefix s w = true <-> w `prefix_of` s.
Proof.
  split.
  - intros H. apply HasPrefix_true in H as [l ->]. exists l. reflexivity.
  - intros [l ->]. apply HasPrefix_app.
Qed.

(** No character of the table opens [s]: nothing to drop. *)
Lemma dropSpace_None table s :
  (forall w, w ∈ table -> ~ w `prefix_of` s) ->
  bytes.dropSpace table s = None.
Proof.
  intros Hno. unfold bytes.dropSpace.
  destruct (filter _ table) as [|w ws] eqn:F; [reflexivity|].
  assert (Hin : w ∈ filter (fun w => bytes.HasPrefix s w = true) table)
    by (rewrite F; apply elem_of_cons; auto).
  apply list_elem_of_filter in Hin as [Hp Hin].
  destruct (Hno w Hin). apply HasPrefix_prefix, Hp.
Qed.

Section Table.
Variable table : list (list byte).

(** No character of the table is the beginning of another. *)
Hypothesis prefixFree :
  forall a b, a ∈ table -> b ∈ table -> a `prefix_of` b -> a = b.

(** A character of the table in front is the one that is dropped. *)
Lemma dropSpace_rune w tail :
  w ∈ table -> bytes.dropSpace table (w ++ tail) = Some tail.
Proof.
  intros Hw. unfold bytes.dropSpace.
  destruct (filter _ table) as [|w' ws] eqn:F.
  - exfalso.
    assert (Hin : w ∈ filter (fun x => bytes.HasPrefix (w ++ tail) x = true)
                             table)
      by (apply list_elem_of_filter; split; [apply HasPrefix_app|exact Hw]).
    rewrite F in Hin. apply elem_of_nil in Hin. exact Hin.
  - assert (Hin : w' ∈ filter (fun x => bytes.HasPrefix (w ++ tail) x = true)
                              table)
      by (rewrite F; apply elem_of_cons; auto).
    apply list_elem_of_filter in Hin as [Hp Hin].
    apply HasPrefix_prefix in Hp.
    assert (Heq : w' = w).
    { destruct (prefix_weak_total w' w (w ++ tail) Hp (prefix_app_r w w tail
                  (reflexivity w))) as [H|H].
      - apply prefixFree; assumption.
      - symmetry. apply prefixFree; assumption. }
    subst w'. f_equal. apply drop_app_length.
Qed.

(** The characters in front are dropped one by one, down to where no
    character of the table opens what is left. *)
Lemma trimLeft_runs ws : forall rounds rest,
  Forall (fun w => w ∈ table) ws -> (length ws <= rounds)%nat ->
  bytes.dropSpace table rest = None ->
  bytes.trimLeft rounds table (concat ws ++ rest) = rest.
Proof.
  induction ws as [|w ws IH]; intros rounds rest Hws Hr Hstop.
  - simpl. destruct rounds; simpl; [reflexivity|]. rewrite Hstop. reflexivity.
  - apply Forall_cons in Hws as [Hw Hws].
    destruct rounds as [|rounds]; [simpl in Hr; lia|].
    cbn [concat bytes.trimLeft]. rewrite <- app_assoc.
    rewrite (dropSpace_rune w _ Hw). apply IH; [exact Hws|simpl in Hr; lia|].
    exact Hstop.
Qed.

End Table.

Lemma length_concat_runs (ws : list (list byte)) :
  Forall (fun w => w <> []) ws -> (length ws <= length (concat ws))%nat.
Proof.
  induction 1 as [|w ws Hw _ IH]; simpl; [lia|].
  rewrite length_app. destruct w; [congruence|]. simpl. lia.
Qed.

Lemma rev_concat_runs (ws : list (list byte)) :
  rev (concat ws) = concat (map (@rev byte) (rev ws)).
Proof.
  induction ws as [|w ws IH]; [reflexivity|].
  simpl. rewrite rev_app_distr, IH, map_app, concat_app. simpl.
  rewrite app_nil_r. reflexivity.
Qed.

(** The table of the code holds the encodings of the white space
    characters, and no other. *)
Lemma whiteSpace_runes : bytes.whiteSpace = map utf8 spaceRunes.
Proof. reflexivity. Qed.

Lemma whiteSpace_rune r : In r spaceRunes -> utf8 r ∈ bytes.whiteSpace.
Proof.
  intros Hr. rewrite whiteSpace_runes. apply list_elem_of_In.
  apply in_map, Hr.
Qed.

Lemma whiteSpace_elem w :
  w ∈ bytes.whiteSpace -> exists r, In r spaceRunes /\ w = utf8 r.
Proof.
  rewrite whiteSpace_runes. intros Hw. apply list_elem_of_In in Hw.
  apply in_map_iff in Hw as (r & <- & Hr). eauto.
Qed.

(** The encodings are UTF-8: none is the beginning or the end of
    another, and a byte inside one is never the first byte of one. *)
Lemma whiteSpace_prefixFree a b :
  a ∈ bytes.whiteSpace -> b ∈ bytes.whiteSpace -> a `prefix_of` b -> a = b.
Proof.
  revert a b.
  assert (H : Forall (fun a => Forall (fun b => a `prefix_of` b -> a = b)
                                      bytes.whiteSpace) bytes.whiteSpace)
    by (apply (bool_decide_unpack _); vm_compute; exact I).
  intros a b Ha Hb.
  exact (proj1 (Forall_forall _ _) (proj1 (Forall_forall _ _) H a Ha) b Hb).
Qed.

Lemma whiteSpace_suffixFree a b :
  a ∈ map (@rev byte) bytes.whiteSpace ->
  b ∈ map (@rev byte) bytes.whiteSpace -> a `prefix_of` b -> a = b.
Proof.
  revert a b.
  assert (H : Forall (fun a => Forall (fun b => a `prefix_of` b -> a = b)
                                      (map (@rev byte) bytes.whiteSpace))
                     (map (@rev byte) bytes.whiteSpace))
    by (apply (bool_decide_unpack _); vm_compute; exact I).
  intros a b Ha Hb.
  exact (proj1 (Forall_forall _ _) (proj1 (Forall_forall _ _) H a Ha) b Hb).
Qed.

Lemma whiteSpace_shape :
  Forall (fun w => match w with
                   | [] => False
                   | b :: bs => continues b = false /\
                                Forall (fun x => continues x = true) bs
                   end) bytes.whiteSpace.
Proof.
  repeat (constructor; [split; [reflexivity|repeat constructor]|]).
  constructor.
Qed.

Lemma whiteSpace_nonempty :
  Forall (fun w : list byte => w <> []) bytes.whiteSpace.
Proof.
  eapply Forall_impl; [apply whiteSpace_shape|].
  intros [|b bs] H; [destruct H|discriminate].
Qed.

(** White space after [t] does not make a character begin in [t]: where
    no white space character opens [t], none opens [t] followed by white
    space. *)
Lemma no_straddle t ws w :
  t <> [] -> Forall (fun x => x ∈ bytes.whiteSpace) ws ->
  w ∈ bytes.whiteSpace ->
  w `prefix_of` t ++ concat ws -> w `prefix_of` t.
Proof.
  intros Ht Hws Hw Hp.
  destruct (prefix_weak_total w t (t ++ concat ws) Hp
              (prefix_app_r t t _ (reflexivity t))) as [H|[b Hb]];
    [exact H|].
  destruct b as [|x b];
    [exists []; rewrite Hb, !app_nil_r; reflexivity|]. exfalso.
  (* [w = t ++ x :: b]: [x] goes on [w], and opens what follows [t] *)
  assert (Hx : continues x = true).
  { pose proof (proj1 (Forall_forall _ _) whiteSpace_shape w Hw) as Hshape.
    rewrite Hb in Hshape. destruct t as [|y t]; [congruence|].
    simpl in Hshape. destruct Hshape as [_ Hall].
    apply Forall_app in Hall as [_ Hall].
    apply Forall_cons in Hall as [Hx _]. exact Hx. }
  destruct Hp as [k Hk]. rewrite Hb, <- app_assoc in Hk.
  apply app_inv_head in Hk. simpl in Hk.
  (* the first byte of the white space after [t] is [x] *)
  clear - Hk Hws Hx. revert Hk.
  induction Hws as [|w1 ws Hw1 _ IH]; [discriminate|].
  pose proof (proj1 (Forall_forall _ _) whiteSpace_shape w1 Hw1) as Hshape.
  destruct w1 as [|y w1]; [destruct Hshape|].
  simpl. intros [= -> _]. destruct Hshape as [Hy _]. congruence.
Qed.

Lemma spaces_table l :
  spaces l ->
  exists ws, Forall (fun w => w ∈ bytes.whiteSpace) ws /\ l = concat ws.
Proof.
  intros (rs & Hrs & ->). exists (map utf8 rs). split; [|reflexivity].
  apply Forall_map. eapply Forall_impl; [exact Hrs|].
  intros r Hr. apply whiteSpace_rune, Hr.
Qed.

(** [TrimSpace] finds the line without the white space around it. *)
Lemma TrimSpace_strips raw t : strips raw t -> bytes.TrimSpace raw = t.
Proof.
  intros (l & r & -> & Hl & Hr & Ht).
  apply spaces_table in Hl as (ls & Hls & ->).
  apply spaces_table in Hr as (rs & Hrs & ->).
  pose proof whiteSpace_nonempty as Hne.
  assert (Hne' : forall ws, Forall (fun w => w ∈ bytes.whiteSpace) ws ->
                            Forall (fun w : list byte => w <> []) ws).
  { intros ws Hws. eapply Forall_impl; [exact Hws|].
    intros w Hw. exact (proj1 (Forall_forall _ _) Hne w Hw). }
  unfold bytes.TrimSpace.
  destruct t as [|b t].
  - (* nothing but white space *)
    assert (Hleft : bytes.TrimLeftSpace (concat ls ++ [] ++ concat rs) = []).
    { assert (E : concat ls ++ [] ++ concat rs = concat (ls ++ rs) ++ [])
        by (simpl; rewrite concat_app, app_nil_r; reflexivity).
      unfold bytes.TrimLeftSpace. rewrite E.
      apply (trimLeft_runs _ whiteSpace_prefixFree).
      - apply Forall_app; split; assumption.
      - rewrite app_nil_r. apply length_concat_runs, Hne'.
        apply Forall_app; split; assumption.
      - apply dropSpace_None. intros w Hw [k Hk].
        pose proof (proj1 (Forall_forall _ _) Hne w Hw) as Hw'.
        destruct w; [congruence|discriminate Hk]. }
    rewrite Hleft. reflexivity.
  - assert (Hleft : bytes.TrimLeftSpace (concat ls ++ (b :: t) ++ concat rs)
                    = (b :: t) ++ concat rs).
    { unfold bytes.TrimLeftSpace.
      apply (trimLeft_runs _ whiteSpace_prefixFree).
      - exact Hls.
      - rewrite length_app. pose proof (length_concat_runs ls (Hne' ls Hls)).
        lia.
      - apply dropSpace_None. intros w Hw Hp.
        apply (no_straddle (b :: t) rs w) in Hp;
          [|discriminate|exact Hrs|exact Hw].
        destruct (whiteSpace_elem w Hw) as (x & Hx & ->).
        exact (proj1 (Ht x Hx) Hp). }
    rewrite Hleft. unfold bytes.TrimRightSpace.
    rewrite rev_app_distr, rev_concat_runs.
    rewrite (trimLeft_runs _ whiteSpace_suffixFree).
    + apply rev_involutive.
    + apply Forall_map. apply Forall_rev.
      eapply Forall_impl; [exact Hrs|].
      intros w Hw. apply list_elem_of_In, in_map, list_elem_of_In, Hw.
    + rewrite length_map, length_rev, length_app.
      pose proof (length_concat_runs rs (Hne' rs Hrs)). lia.
    + apply dropSpace_None. intros w Hw [k Hk].
      apply list_elem_of_In, in_map_iff in Hw as (w0 & <- & Hw0).
      apply list_elem_of_In in Hw0.
      destruct (whiteSpace_elem w0 Hw0) as (x & Hx & ->).
      apply (proj2 (Ht x Hx)). exists (rev k).
      rewrite <- (rev_involutive (b :: t)), Hk, rev_app_distr, rev_involutive.
      reflexivity.
Qed.


(** What [trimLeft] drops are characters of the table, and it goes on as
    long as one of them opens what is left. *)
Lemma trimLeft_sound table :
  Forall (fun w : list byte => w <> []) table ->
  forall rounds s,
    (length s <= rounds)%nat ->
    exists ws,
      Forall (fun w => w ∈ table) ws /\
      s = concat ws ++ bytes.trimLeft rounds table s /\
      forall w, w ∈ table -> ~ w `prefix_of` bytes.trimLeft rounds table s.
Proof.
  intros Hne. induction rounds as [|rounds IH]; intros s Hlen.
  - destruct s; [|simpl in Hlen; lia]. exists []. simpl.
    split; [constructor|]. split; [reflexivity|].
    intros w Hw [k Hk]. pose proof (proj1 (Forall_forall _ _) Hne w Hw).
    destruct w; [congruence|discriminate Hk].
  - cbn [bytes.trimLeft]. unfold bytes.dropSpace.
    destruct (filter _ table) as [|w ws] eqn:F.
    + exists []. split; [constructor|]. split; [reflexivity|].
      intros w Hw Hp.
      assert (Hin : w ∈ filter (fun x => bytes.HasPrefix s x = true) table)
        by (apply list_elem_of_filter; split;
            [apply HasPrefix_prefix, Hp|exact Hw]).
      rewrite F in Hin. apply elem_of_nil in Hin. exact Hin.
    + assert (Hin : w ∈ filter (fun x => bytes.HasPrefix s x = true) table)
        by (rewrite F; apply elem_of_cons; auto).
      apply list_elem_of_filter in Hin as [Hp Hin].
      apply HasPrefix_prefix in Hp. destruct Hp as [k ->].
      rewrite drop_app_length.
      pose proof (proj1 (Forall_forall _ _) Hne w Hin) as Hw.
      destruct (IH k) as (ws' & Hws' & Hk & Hstop).
      { rewrite length_app in Hlen. destruct w; [congruence|].
        simpl in Hlen. lia. }
      exists (w :: ws'). split; [constructor; assumption|].
      split; [|exact Hstop]. simpl. rewrite <- app_assoc, <- Hk. reflexivity.
Qed.

Lemma table_spaces ws :
  Forall (fun w => w ∈ bytes.whiteSpace) ws -> spaces (concat ws).
Proof.
  induction 1 as [|w ws Hw _ (rs & Hrs & IH)].
  - exists []. split; [constructor|reflexivity].
  - destruct (whiteSpace_elem w Hw) as (x & Hx & ->).
    exists (x :: rs). split; [constructor; assumption|].
    simpl. rewrite IH. reflexivity.
Qed.

(** Every line has its stripped form, the one [TrimSpace] gives. *)
Lemma strips_total raw : strips raw (bytes.TrimSpace raw).
Proof.
  assert (Hne' : Forall (fun w : list byte => w <> [])
                        (map (@rev byte) bytes.whiteSpace)).
  { apply Forall_map. eapply Forall_impl; [apply whiteSpace_nonempty|].
    intros [|x w] Hw; [congruence|]. simpl. intros E.
    apply app_eq_nil in E as [_ E]. discriminate E. }
  destruct (trimLeft_sound _ whiteSpace_nonempty (length raw) raw
              (Nat.le_refl _)) as (ls & Hls & Hraw & Hleft).
  fold (bytes.TrimLeftSpace raw) in Hraw, Hleft.
  set (t1 := bytes.TrimLeftSpace raw) in *.
  destruct (trimLeft_sound _ Hne' (length t1) (rev t1)
              ltac:(rewrite length_rev; lia)) as (rs & Hrs & Ht1 & Hright).
  assert (Ht : bytes.TrimSpace raw
               = rev (bytes.trimLeft (length t1)
                        (map (@rev byte) bytes.whiteSpace) (rev t1)))
    by reflexivity.
  set (u := bytes.trimLeft (length t1) (map (@rev byte) bytes.whiteSpace)
                           (rev t1)) in *.
  assert (Hsplit : t1 = rev u ++ concat (map (@rev byte) (rev rs))).
  { rewrite <- (rev_involutive t1), Ht1, rev_app_distr, rev_concat_runs.
    reflexivity. }
  assert (Hrs' : Forall (fun w => w ∈ bytes.whiteSpace)
                        (map (@rev byte) (rev rs))).
  { apply Forall_map, Forall_rev. eapply Forall_impl; [exact Hrs|].
    intros w Hw. apply list_elem_of_In, in_map_iff in Hw as (w0 & <- & Hw0).
    rewrite rev_involutive. apply list_elem_of_In, Hw0. }
  rewrite Ht. exists (concat ls), (concat (map (@rev byte) (rev rs))).
  split; [rewrite <- Hsplit; exact Hraw|].
  split; [apply table_spaces, Hls|]. split; [apply table_spaces, Hrs'|].
  intros x Hx. split.
  - intros [k Hk]. apply (Hleft (utf8 x) (whiteSpace_rune x Hx)).
    exists (k ++ concat (map (@rev byte) (rev rs))).
    rewrite Hsplit, Hk, <- app_assoc. reflexivity.
  - intros [k Hk]. apply (Hright (rev (utf8 x))).
    + apply list_elem_of_In, in_map, list_elem_of_In, whiteSpace_rune, Hx.
    + exists (rev k). rewrite <- (rev_involutive u), Hk, rev_app_distr.
      reflexivity.
Qed.

(** Every text has its lines and their stripped forms. *)
Lemma lines_total config :
  exists first rest trims,
    config = joinLines first rest /\
    Forall (fun l => ~ In x0a l) (first :: rest) /\
    Forall2 strips (first :: rest) trims.
Proof.
  destruct (joinLines_total config) as (first & rest & Hc & Hls).
  exists first, rest, (map bytes.TrimSpace (first :: rest)).
  split; [exact Hc|]. split; [exact Hls|].
  generalize (first :: rest). intros ls.
  induction ls as [|l ls IH]; constructor; [apply strips_total|exact IH].
Qed.

(** A way to see that a line is trimmed: character by character. *)
Lemma trimmed_Forall t :
  Forall (fun r => ~ utf8 r `prefix_of` t /\ ~ utf8 r `suffix_of` t)
         spaceRunes ->
  trimmed t.
Proof.
  intros H r Hr. apply (proj1 (Forall_forall _ _) H r).
  apply list_elem_of_In, Hr.
Qed.

(** C5. For every configuration blob: the blob is a sequence of lines with
    a newline between them, each line has its form without the white space
    around it, and for the lines of the blob - however the blob is seen as
    lines without newline in them - and their forms without surrounding
    white space, when [enable], [configure], the forms that are not empty,
    in the order of the blob, [exit] and [disable] all succeed executed in
    this order, [ApplyConfig] returns nil, the connection ends as they
    leave it, and the transport has been written exactly these commands,
    each with its NUL, in this order. No command is empty: a blank line
    is never sent. *)
Theorem ApplyConfig_sequence (ctx : Context) (config : list byte)
  (c c' : Connection) :
  (exists first rest trims,
      config = joinLines first rest /\
      Forall (fun l => ~ In x0a l) (first :: rest) /\
      Forall2 strips (first :: rest) trims) /\
  (forall first rest trims,
      config = joinLines first rest ->
      Forall (fun l => ~ In x0a l) (first :: rest) ->
      Forall2 strips (first :: rest) trims ->
      ExecAll ctx (["enable"; "configure"] ++ commandsOf trims
                   ++ ["exit"; "disable"]) c c' ->
      ApplyConfig ctx config c = (None, c') /\
      sentOn c' = sentOn c ++ map wire (["enable"; "configure"]
                                        ++ commandsOf trims
                                        ++ ["exit"; "disable"]) /\
      Forall (fun cmd => cmd <> "") (commandsOf trims)).
Proof.
  split; [apply lines_total|].
  intros first rest trims -> Hls Hstrips H.
  assert (Htrims : map bytes.TrimSpace (first :: rest) = trims).
  { clear - Hstrips. induction Hstrips as [|raw t raws ts Hs _ IH];
      [reflexivity|].
    cbn [map]. rewrite (TrimSpace_strips raw t Hs), IH. reflexivity. }
  split; [|split].
  - apply ExecAll_split in H as (c1 & H1 & H).
    apply ExecAll_split in H as (c2 & H2 & H3).
    unfold ApplyConfig, andThen.
    rewrite (forRange_modes _ _ _ _ H1).
    rewrite (Split_joinLines first rest Hls).
    rewrite (forRange_lines ctx (first :: rest) c1 c2)
      by (rewrite Htrims; exact H2).
    apply forRange_modes, H3.
  - eapply ExecAll_sent, H.
  - unfold commandsOf. apply Forall_map. apply List.Forall_forall.
    intros t Hin. apply (proj2 (list_elem_of_In _ _)) in Hin.
    apply list_elem_of_filter in Hin as [Hne _]. intros Hs. apply Hne.
    rewrite <- (list_byte_of_string_of_list_byte t).
    unfold string_of_bytes in Hs. rewrite Hs. reflexivity.
Qed.

(** The example of C5: its two lines are the commands, the indentation and
    the blank line are gone. *)
Lemma exampleConfig_commands :
  configCommands exampleConfig =
  ["router bgp 65000"; "neighbor 10.0.0.1 remote-as 65001"].
Proof. vm_compute. reflexivity. Qed.

Lemma ApplyConfig_sequence_witness :
  (exists c',
      ApplyConfig noDeadline exampleConfig
        (bgpd [emptyOK; emptyOK; emptyOK; emptyOK; emptyOK; emptyOK])
      = (None, c') /\
      sentOn c' = map wire ["enable"; "configure"; "router bgp 65000";
                            "neighbor 10.0.0.1 remote-as 65001";
                            "exit"; "disable"]) /\
  (exists c',
      ApplyConfig noDeadline
        (x09 :: bytes_of_string "ip forwarding " ++ [x0d; x0a]
         ++ bytes_of_string "hostname r1" ++ [x0d; x0a])
        (bgpd [emptyOK; emptyOK; emptyOK; emptyOK; emptyOK; emptyOK])
      = (None, c') /\
      sentOn c' = map wire ["enable"; "configure"; "ip forwarding";
                            "hostname r1"; "exit"; "disable"]).
Proof.
  assert (Hnil : spaces []) by (exists []; split; [constructor|reflexivity]).
  assert (Hblank : strips [] []).
  { exists [], []. split; [reflexivity|]. split; [exact Hnil|].
    split; [exact Hnil|].
    apply trimmed_Forall, (bool_decide_unpack _). vm_compute. exact I. }
  split.
  - eexists.
    refine (let H := proj2 (ApplyConfig_sequence noDeadline exampleConfig
                       (bgpd [emptyOK; emptyOK; emptyOK; emptyOK; emptyOK;
                              emptyOK]) _)
                       (bytes_of_string "router bgp 65000")
                       [bytes_of_string " neighbor 10.0.0.1 remote-as 65001";
                        []; []]
                       [bytes_of_string "router bgp 65000";
                        bytes_of_string "neighbor 10.0.0.1 remote-as 65001";
                        []; []] _ _ _ _ in
            conj (proj1 H) (proj1 (proj2 H))).
    + reflexivity.
    + repeat (constructor;
              [simpl; intros H;
               repeat (destruct H as [H|H]; [discriminate H|]); exact H|]).
      constructor.
    + constructor.
      { exists [], []. rewrite app_nil_r.
        split; [reflexivity|]. split; [exact Hnil|]. split; [exact Hnil|].
        apply trimmed_Forall, (bool_decide_unpack _). vm_compute. exact I. }
      constructor.
      { exists [x20], []. rewrite app_nil_r.
        split; [reflexivity|].
        split; [exists [32%N];
                split; [constructor; [simpl; tauto|constructor]|
                        reflexivity]|].
        split; [exact Hnil|].
        apply trimmed_Forall, (bool_decide_unpack _). vm_compute. exact I. }
      repeat (constructor; [exact Hblank|]). constructor.
    + unfold commandsOf. simpl app.
      repeat (eapply ExecAll_cons; [vm_compute; reflexivity|]).
      apply ExecAll_nil.
  - eexists.
    refine (let H := proj2 (ApplyConfig_sequence noDeadline
                       (x09 :: bytes_of_string "ip forwarding " ++ [x0d; x0a]
                        ++ bytes_of_string "hostname r1" ++ [x0d; x0a])
                       (bgpd [emptyOK; emptyOK; emptyOK; emptyOK; emptyOK;
                              emptyOK]) _)
                       (x09 :: bytes_of_string "ip forwarding " ++ [x0d])
                       [bytes_of_string "hostname r1" ++ [x0d]; []]
                       [bytes_of_string "ip forwarding";
                        bytes_of_string "hostname r1"; []] _ _ _ _ in
            conj (proj1 H) (proj1 (proj2 H))).
    + reflexivity.
    + repeat (constructor;
              [simpl; intros H;
               repeat (destruct H as [H|H]; [discriminate H|]); exact H|]).
      constructor.
    + constructor.
      { exists [x09], [x20; x0d].
        split; [reflexivity|].
        split; [exists [9%N];
                split; [constructor; [simpl; tauto|constructor]|
                        reflexivity]|].
        split; [exists [32%N; 13%N];
                split; [repeat (constructor; [simpl; tauto|]); constructor|
                        reflexivity]|].
        apply trimmed_Forall, (bool_decide_unpack _). vm_compute. exact I. }
      constructor.
      { exists [], [x0d].
        split; [reflexivity|]. split; [exact Hnil|].
        split; [exists [13%N];
                split; [constructor; [simpl; tauto|constructor]|
                        reflexivity]|].
        apply trimmed_Forall, (bool_decide_unpack _). vm_compute. exact I. }
      repeat (constructor; [exact Hblank|]). constructor.
    + unfold commandsOf. simpl app.
      repeat (eapply ExecAll_cons; [vm_compute; reflexivity|]).
      apply ExecAll_nil.
Defined.

(** And only then: an [ApplyConfig] that returns nil has executed these
    commands, in this order, each with success. *)
Lemma forRange_modes_inv ctx cmds c c' :
  forRange cmds (runModeCommand ctx) c = (None, c') -> ExecAll ctx cmds c c'.
Proof.
  revert c. induction cmds as [|cmd cmds IH]; simpl; intros c H.
  - injection H as <-. apply ExecAll_nil.
  - unfold andThen, runModeCommand at 1 in H.
    destruct (Execute ctx cmd c) as [[resp [e|]] c1] eqn:Hex; [discriminate H|].
    eauto with gofrr.
Qed.

Lemma forRange_lines_inv ctx raw c c' :
  forRange raw (runConfigLine ctx) c = (None, c') ->
  ExecAll ctx (map string_of_bytes
                 (filter (fun line => line <> []) (map bytes.TrimSpace raw)))
          c c'.
Proof.
  revert c. induction raw as [|line raw IH]; simpl; intros c H.
  - injection H as <-. apply ExecAll_nil.
  - unfold andThen, runConfigLine at 1 in H. rewrite filter_cons.
    destruct (bytes.TrimSpace line) as [|b l] eqn:Ht.
    + rewrite decide_False by (intros Hne; apply Hne; reflexivity).
      apply IH, H.
    + rewrite decide_True by discriminate.
      change (len (b :: l) =? 0)%Z with false in H. cbv iota in H.
      destruct (Execute ctx (string_of_bytes (b :: l)) c)
        as [[resp [e|]] c1] eqn:Hex; [discriminate H|].
      simpl. eauto with gofrr.
Qed.

Lemma ApplyConfig_nil_inv ctx config c c' :
  ApplyConfig ctx config c = (None, c') ->
  ExecAll ctx (["enable"; "configure"] ++ configCommands config
               ++ ["exit"; "disable"]) c c'.
Proof.
  unfold ApplyConfig, andThen. intros H.
  destruct (forRange ["enable"; "configure"] (runModeCommand ctx) c)
    as [[e|] c1] eqn:H1; [discriminate H|].
  destruct (forRange (bytes.Split config (bytes_of_string NL))
              (runConfigLine ctx) c1) as [[e|] c2] eqn:H2; [discriminate H|].
  apply forRange_modes_inv in H1, H. apply forRange_lines_inv in H2.
  eapply ExecAll_app; [exact H1|]. eapply ExecAll_app; [exact H2|exact H].
Qed.

(** C6. When [enable], [configure] and the lines before it have
    succeeded and the [Execute] of a line fails with [e], [ApplyConfig]
    returns the error that names this line and the socket and wraps [e],
    and the connection is as that [Execute] left it: no later line, no
    [exit] and no [disable] has been executed. On the wire there are the
    commands before the failing one and at most one more write, the
    failing command or a part of it. *)
Theorem ApplyConfig_stops (ctx : Context) (config : list byte)
  (pre : list (list byte)) (cmd : list byte) (post : list (list byte))
  (c c1 c2 : Connection) (resp : list byte) (e : error) :
  configLines config = pre ++ cmd :: post ->
  ExecAll ctx (["enable"; "configure"] ++ map string_of_bytes pre) c c1 ->
  Execute ctx (string_of_bytes cmd) c1 = ((resp, Some e), c2) ->
  ApplyConfig ctx config c = (Some (lineFailed cmd c e), c2) /\
  Is (lineFailed cmd c e) e /\
  exists tail,
    sentOn c2 = sentOn c ++ map wire (["enable"; "configure"]
                                      ++ map string_of_bytes pre) ++ tail /\
    (tail = [] \/
     exists out, tail = [out] /\ out `prefix_of` wire (string_of_bytes cmd)).
Proof.
  intros Hlines Hpre Hex.
  pose proof (ExecAll_sent _ _ _ _ Hpre) as [Hpath Hsent].
  split; [|split].
  - apply ExecAll_split in Hpre as (c0 & H1 & H2).
    unfold ApplyConfig, andThen.
    rewrite (forRange_modes _ _ _ _ H1).
    rewrite (forRange_lines_stop _ _ _ _ _ _ _ _ _ _ Hlines H2 Hex).
    unfold lineFailed. rewrite Hpath. reflexivity.
  - wraps.
  - destruct (Execute_frame _ _ _ _ _ Hex) as [_ [Hs|(out & Hs & Hout)]].
    + exists []. split; [|left; reflexivity].
      rewrite Hs, Hsent, app_nil_r. reflexivity.
    + exists [out]. split; [|right; eauto].
      rewrite Hs, Hsent, <- app_assoc. reflexivity.
Qed.

Lemma ApplyConfig_stops_witness :
  exists e c2,
    ApplyConfig noDeadline exampleConfig
      (bgpd [emptyOK; emptyOK; emptyOK; encodeResponse [] ErrNoMatch;
             emptyOK; emptyOK])
    = (Some (lineFailed
               (bytes_of_string "neighbor 10.0.0.1 remote-as 65001")
               (bgpd [emptyOK; emptyOK; emptyOK; encodeResponse [] ErrNoMatch;
                      emptyOK; emptyOK]) e), c2) /\
    Is e ErrNotAcceptableStatusCode /\
    sentOn c2 = map wire ["enable"; "configure"; "router bgp 65000";
                          "neighbor 10.0.0.1 remote-as 65001"].
Proof.
  assert (Hlines : configLines exampleConfig =
                   [bytes_of_string "router bgp 65000"]
                   ++ bytes_of_string "neighbor 10.0.0.1 remote-as 65001" :: [])
    by (vm_compute; reflexivity).
  eassert (Hpre : ExecAll noDeadline
                    (["enable"; "configure"]
                     ++ map string_of_bytes
                          [bytes_of_string "router bgp 65000"])
                    (bgpd [emptyOK; emptyOK; emptyOK;
                           encodeResponse [] ErrNoMatch; emptyOK; emptyOK]) _).
  { simpl app. repeat (eapply ExecAll_cons; [vm_compute; reflexivity|]).
    apply ExecAll_nil. }
  match type of Hpre with
  | ExecAll _ _ _ ?c1 =>
      eassert (Hex : Execute noDeadline
                       (string_of_bytes
                          (bytes_of_string "neighbor 10.0.0.1 remote-as 65001"))
                       c1
                     = ((_, Some _), _))
  end.
  { vm_compute. reflexivity. }
  destruct (ApplyConfig_stops _ _ _ _ _ _ _ _ _ _ Hlines Hpre Hex)
    as (Hrun & _ & _).
  eexists _, _. split; [exact Hrun|]. split; [|reflexivity].
  wraps.
Defined.

(** ** Sockets *)

Section NewSockets_facts.
Variable filepath_Join : string -> string -> string.
(** [NewSockets] allocates four connections without transport and lists
    them in the order bgp, bfd, mgmt, zebra. *)
Lemma NewSockets_wf frrConfigPath frrRunDir w :
  exists s w',
    NewSockets filepath_Join frrConfigPath frrRunDir w = Some (s, w') /\
    Sockets_wf s w' /\
    Forall (unconnected w') (allConnections s) /\
    pathsOf w' (allConnections s) =
      map (filepath_Join frrRunDir)
          [bgpSocketName; bfdSocketName; mgmtSocketName; zebraSocketName].
Proof.
  unfold NewSockets, bind, alloc, ret. simpl.
  eexists _, _. split; [reflexivity|].
  unfold Sockets_wf, unconnected, pathsOf. simpl.
  rewrite !length_app. simpl length.
  rewrite <- !app_assoc. simpl app.
  assert (Hk : forall k (l : list Connection),
             (heap w ++ l) !! (length (heap w) + k)%nat = l !! k)
    by (intros; rewrite lookup_app_r by lia; f_equal; lia).
  pose proof (Hk 0%nat) as H0. rewrite Nat.add_0_r in H0.
  pose proof (Hk 1%nat) as H1.
  pose proof (Hk 2%nat) as H2.
  pose proof (Hk 3%nat) as H3.
  replace (length (heap w) + 1 + 1)%nat with (length (heap w) + 2)%nat by lia.
  replace (length (heap w) + 2 + 1)%nat with (length (heap w) + 3)%nat by lia.
  rewrite H0, H1, H2, H3. simpl.
  repeat split.
  - repeat (apply NoDup_cons_2;
            [rewrite ?not_elem_of_cons; repeat split; try lia; apply not_elem_of_nil|]).
    apply NoDup_nil_2.
  - repeat (apply Forall_cons_2; [rewrite ?H0, ?H1, ?H2, ?H3; eauto|]).
    apply Forall_nil_2.
  - repeat (apply Forall_cons_2;
            [rewrite ?H0, ?H1, ?H2, ?H3; eexists; split; reflexivity|]).
    apply Forall_nil_2.
Qed.
End NewSockets_facts.

(** *** What the methods keep *)

Lemma sameSockets_refl w : sameSockets w w.
Proof. split; reflexivity. Qed.

Lemma sameSockets_trans w1 w2 w3 :
  sameSockets w1 w2 -> sameSockets w2 w3 -> sameSockets w1 w3.
Proof. intros [H1 H2] [H3 H4]. split; congruence. Qed.

Lemma sameSockets_lookup w w' p c :
  sameSockets w w' -> heap w !! p = Some c ->
  exists c', heap w' !! p = Some c' /\ socketPath c' = socketPath c.
Proof.
  intros [Hp _] Hc.
  assert (H : (socketPath <$> heap w') !! p = Some (socketPath c)).
  { change (socketPath <$> heap w') with (map socketPath (heap w')).
    rewrite Hp. change (map socketPath (heap w)) with (socketPath <$> heap w).
    rewrite list_lookup_fmap, Hc. reflexivity. }
  rewrite list_lookup_fmap in H.
  destruct (heap w' !! p) as [c'|]; [|discriminate].
  injection H as H. eauto.
Qed.

Lemma sameSockets_allocated w w' ps :
  sameSockets w w' ->
  Forall (fun p => is_Some (heap w !! p)) ps ->
  Forall (fun p => is_Some (heap w' !! p)) ps.
Proof.
  intros Hs H. eapply Forall_impl; [exact H|]. intros p [c Hc].
  destruct (sameSockets_lookup _ _ _ _ Hs Hc) as (c' & Hc' & _). eauto.
Qed.

Lemma sameSockets_dialFails w w' p e :
  sameSockets w w' -> dialFails w p e -> dialFails w' p e.
Proof.
  intros Hs (c & Hc & He).
  destruct (sameSockets_lookup _ _ _ _ Hs Hc) as (c' & Hc' & Hp).
  exists c'. split; [exact Hc'|]. destruct Hs as [_ ->]. rewrite Hp. exact He.
Qed.

Lemma sameSockets_pathsOf w w' ps :
  sameSockets w w' -> pathsOf w' ps = pathsOf w ps.
Proof.
  intros [Hp _].
  assert (Hlook : forall p, socketPath <$> heap w' !! p
                            = socketPath <$> heap w !! p).
  { intros p. rewrite <- !list_lookup_fmap.
    change (socketPath <$> heap w') with (map socketPath (heap w')).
    rewrite Hp. reflexivity. }
  unfold pathsOf. induction ps as [|p ps IH]; cbn; [reflexivity|].
  rewrite Hlook. cbn in IH. rewrite IH. reflexivity.
Qed.

(** Storing a connection with the same path keeps the sockets. *)
Lemma sameSockets_store w p c c' nw fs' :
  heap w !! p = Some c -> socketPath c' = socketPath c ->
  net.listeners nw = net.listeners (network w) ->
  sameSockets w (mkWorld (<[p := c']> (heap w)) nw fs').
Proof.
  intros Hc Hp Hl. split; [|exact Hl]. simpl.
  change (map socketPath (<[p:=c']> (heap w)))
    with (socketPath <$> <[p:=c']> (heap w)).
  rewrite list_fmap_insert, Hp. apply list_insert_id.
  rewrite list_lookup_fmap, Hc. reflexivity.
Qed.

(** *** Connect and Close

    [errors.Join] keeps what either operand carries. *)
Lemma carries_Join_l err e t :
  carries err t -> carries (errors_Join [err; e]) t.
Proof.
  intros (e0 & -> & His). destruct e as [e|]; simpl.
  - exists (joinError [e0; e]). split; [reflexivity|].
    eapply Is_joined; [|exact His]. simpl; auto.
  - exists (joinError [e0]). split; [reflexivity|].
    eapply Is_joined; [|exact His]. simpl; auto.
Qed.

Lemma carries_Join_r err e t :
  carries e t -> carries (errors_Join [err; e]) t.
Proof.
  intros (e0 & -> & His). destruct err as [e1|]; simpl.
  - exists (joinError [e1; e0]). split; [reflexivity|].
    eapply Is_joined; [|exact His]. simpl; auto.
  - exists (joinError [e0]). split; [reflexivity|].
    eapply Is_joined; [|exact His]. simpl; auto.
Qed.

(** [p.Connect(ctx)] on an allocated connection. *)
Lemma callConnect_spec ctx p w c :
  heap w !! p = Some c ->
  exists e w',
    callConnect ctx p w = Some (e, w') /\
    sameSockets w w' /\
    net.dialed (network w') = net.dialed (network w) ++ [socketPath c] /\
    fs w' = fs w /\
    (forall err, net.listeners (network w) (socketPath c) = inr err ->
                 e = Some err).
Proof.
  intros Hc. unfold callConnect, Connect, net.DialContext. rewrite Hc.
  destruct (net.listeners (network w) (socketPath c)) as [nc|err] eqn:Hl.
  - eexists _, _. split; [reflexivity|]. simpl.
    split; [eapply sameSockets_store; eauto|].
    repeat split. intros err [=].
  - eexists _, _. split; [reflexivity|]. simpl.
    split; [eapply sameSockets_store; eauto|].
    repeat split. intros err' [= ->]. reflexivity.
Qed.

(** The paths, connection by connection. *)
Lemma pathsOf_cons w p c ps :
  heap w !! p = Some c -> pathsOf w (p :: ps) = socketPath c :: pathsOf w ps.
Proof. intros Hc. unfold pathsOf. simpl. rewrite Hc. reflexivity. Qed.

(** The loop of [Sockets.Connect]: every connection is dialled, and the
    error carries what was there and every dial failure. *)
Lemma connectAll_spec ctx ps :
  forall err w,
    Forall (fun p => is_Some (heap w !! p)) ps ->
    exists err' w',
      joinEach ps (callConnect ctx) err w = Some (err', w') /\
      sameSockets w w' /\
      net.dialed (network w') = net.dialed (network w) ++ pathsOf w ps /\
      fs w' = fs w /\
      (forall t, carries err t -> carries err' t) /\
      (forall p e, p ∈ ps -> dialFails w p e -> carries err' e).
Proof.
  induction ps as [|p ps IH]; intros err w Halloc.
  - exists err, w. simpl. unfold ret.
    split; [reflexivity|]. split; [apply sameSockets_refl|].
    split; [symmetry; apply app_nil_r|]. split; [reflexivity|].
    split; [auto|]. intros p e Hin. apply elem_of_nil in Hin. destruct Hin.
  - apply Forall_cons in Halloc as [[c Hc] Halloc].
    destruct (callConnect_spec ctx p w c Hc)
      as (e & w1 & Hcall & Hs1 & Hd1 & Hf1 & He).
    destruct (IH (errors_Join [err; e]) w1
                (sameSockets_allocated _ _ _ Hs1 Halloc))
      as (err' & w' & Hloop & Hs & Hd & Hf & Hkeep & Hfail).
    exists err', w'. cbn [joinEach]. unfold bind. rewrite Hcall.
    split; [exact Hloop|]. split; [eapply sameSockets_trans; eassumption|].
    split; [rewrite Hd, Hd1, (sameSockets_pathsOf _ _ _ Hs1),
              (pathsOf_cons _ _ _ _ Hc), <- app_assoc; reflexivity|].
    split; [congruence|].
    split; [intros t Ht; apply Hkeep, carries_Join_l, Ht|].
    intros q e0 Hin Hq. apply elem_of_cons in Hin as [->|Hin].
    + destruct Hq as (c0 & Hc0 & Hl). rewrite Hc in Hc0. injection Hc0 as <-.
      apply Hkeep, carries_Join_r. rewrite (He _ Hl).
      exists e0. split; [reflexivity|apply Is_here].
    + apply (Hfail q e0 Hin). eapply sameSockets_dialFails; eassumption.
Qed.

(** A call of a method that keeps the socket path. *)
Lemma call_spec {A} p (method : Connection -> A * Connection) w c :
  heap w !! p = Some c ->
  socketPath (snd (method c)) = socketPath c ->
  call p method w =
    Some (fst (method c),
          mkWorld (<[p := snd (method c)]> (heap w)) (network w) (fs w)) /\
  sameSockets w (mkWorld (<[p := snd (method c)]> (heap w)) (network w) (fs w)).
Proof.
  intros Hc Hp. unfold call. rewrite Hc. destruct (method c) as [a c'].
  split; [reflexivity|]. eapply sameSockets_store; eauto.
Qed.

(** A connection stored without transport is unconnected, and the others
    stay as they are. *)
Lemma unconnected_store w p c' q :
  p < length (heap w) -> conn c' = None ->
  (q = p \/ unconnected w q) ->
  unconnected (mkWorld (<[p := c']> (heap w)) (network w) (fs w)) q.
Proof.
  intros Hlt Hc' Hq. unfold unconnected. simpl.
  destruct (decide (p = q)) as [<-|Hne].
  - exists c'. rewrite list_lookup_insert_eq by exact Hlt. auto.
  - rewrite list_lookup_insert_ne by exact Hne.
    destruct Hq as [->|Hq]; [congruence|exact Hq].
Qed.

(** The loop of [Sockets.Close]: every connection of the list ends
    without transport, and so does every one that had none. *)
Lemma closeAll_spec ps :
  forall err w,
    Forall (fun p => is_Some (heap w !! p)) ps ->
    exists err' w',
      joinEach ps (fun c => call c Close) err w = Some (err', w') /\
      sameSockets w w' /\
      network w' = network w /\
      fs w' = fs w /\
      (forall t, carries err t -> carries err' t) /\
      (forall p, p ∈ ps \/ unconnected w p -> unconnected w' p).
Proof.
  induction ps as [|p ps IH]; intros err w Halloc.
  - exists err, w. simpl. unfold ret.
    split; [reflexivity|]. split; [apply sameSockets_refl|].
    repeat split; auto.
    intros p [Hin|Hp]; [apply elem_of_nil in Hin; destruct Hin|exact Hp].
  - apply Forall_cons in Halloc as [[c Hc] Halloc].
    destruct (call_spec p Close w c Hc (Close_socketPath c)) as [Hcall Hs1].
    set (w1 := mkWorld (<[p := snd (Close c)]> (heap w)) (network w) (fs w))
      in *.
    destruct (IH (errors_Join [err; fst (Close c)]) w1
                (sameSockets_allocated _ _ _ Hs1 Halloc))
      as (err' & w' & Hloop & Hs & Hn & Hf & Hkeep & Hun).
    exists err', w'. cbn [joinEach]. unfold bind. rewrite Hcall.
    split; [exact Hloop|]. split; [eapply sameSockets_trans; eassumption|].
    split; [rewrite Hn; reflexivity|]. split; [rewrite Hf; reflexivity|].
    split; [intros t Ht; apply Hkeep, carries_Join_l, Ht|].
    intros q Hq. apply Hun.
    assert (Hlt : p < length (heap w)) by (eapply lookup_lt_Some; eassumption).
    destruct Hq as [Hin|Hq].
    + apply elem_of_cons in Hin as [->|Hin]; [|left; exact Hin].
      right. apply unconnected_store;
        [exact Hlt|apply Close_conn|left; reflexivity].
    + right. apply unconnected_store;
        [exact Hlt|apply Close_conn|right; exact Hq].
Qed.

(** The container of the examples is well formed in both worlds. *)
Lemma exampleSockets_wf_down : Sockets_wf exampleSockets downWorld.
Proof.
  split; [reflexivity|]. split.
  - repeat (apply NoDup_cons_2;
            [rewrite ?not_elem_of_cons; repeat split;
             try discriminate; apply not_elem_of_nil|]).
    apply NoDup_nil_2.
  - repeat (apply Forall_cons_2; [eexists; reflexivity|]). apply Forall_nil_2.
Defined.

Lemma exampleSockets_wf_up : Sockets_wf exampleSockets upWorld.
Proof.
  split; [reflexivity|]. split.
  - repeat (apply NoDup_cons_2;
            [rewrite ?not_elem_of_cons; repeat split;
             try discriminate; apply not_elem_of_nil|]).
    apply NoDup_nil_2.
  - repeat (apply Forall_cons_2; [eexists; reflexivity|]). apply Forall_nil_2.
Defined.

(** C3. When the dial of one of the four sockets fails, [Sockets.Connect]
    has dialled all four, in the order of the list, returns an error, has
    closed all four - each of them ends without transport - and the error
    carries every dial failure, not only the first. *)
Theorem Sockets_Connect_failure (s : Sockets) (ctx : Context) (w : World) :
  Sockets_wf s w ->
  (exists p e, p ∈ allConnections s /\ dialFails w p e) ->
  exists err w',
    Sockets_Connect s ctx w = Some (Some err, w') /\
    net.dialed (network w') =
      net.dialed (network w)
      ++ pathsOf w [bgpConn s; bfdConn s; mgmtConn s; zebraConn s] /\
    length (pathsOf w [bgpConn s; bfdConn s; mgmtConn s; zebraConn s]) = 4 /\
    unconnected w' (bgpConn s) /\ unconnected w' (bfdConn s) /\
    unconnected w' (mgmtConn s) /\ unconnected w' (zebraConn s) /\
    (forall p e, p ∈ allConnections s -> dialFails w p e -> Is err e).
Proof.
  intros (Hall & _ & Halloc) (p0 & e0 & Hin0 & Hfail0).
  destruct (connectAll_spec ctx (allConnections s) None w Halloc)
    as (err1 & w1 & Hloop1 & Hs1 & Hd1 & Hf1 & _ & Hfail).
  destruct (Hfail p0 e0 Hin0 Hfail0) as (e1 & -> & His1).
  destruct (closeAll_spec (allConnections s) None w1
              (sameSockets_allocated _ _ _ Hs1 Halloc))
    as (err2 & w2 & Hloop2 & Hs2 & Hn2 & Hf2 & _ & Hun).
  assert (Hcar : forall t, carries (Some e1) t ->
                           carries (errors_Join [Some e1; err2]) t)
    by (intros t; apply carries_Join_l).
  destruct (Hcar e0 (ex_intro _ e1 (conj eq_refl His1))) as (err & Herr & _).
  exists err, w2.
  split.
  { unfold Sockets_Connect, bind. rewrite Hloop1. unfold Sockets_Close.
    rewrite Hloop2. unfold ret. rewrite Herr. reflexivity. }
  split; [rewrite Hn2, Hd1, Hall; reflexivity|].
  split.
  { rewrite Hall in Halloc. unfold pathsOf.
    repeat (apply Forall_cons in Halloc as [[? ?H] Halloc]).
    cbn. rewrite H, H0, H1, H2. reflexivity. }
  assert (Hfour : forall p, p ∈ allConnections s -> unconnected w2 p)
    by (intros p Hp; apply Hun; left; exact Hp).
  rewrite Hall in Hfour.
  repeat (split; [apply Hfour; rewrite !elem_of_cons; auto|]).
  intros p e Hp Hpe.
  destruct (Hcar e (Hfail p e Hp Hpe)) as (err' & Herr' & His).
  rewrite Herr in Herr'. injection Herr' as <-. exact His.
Qed.

Lemma Sockets_Connect_failure_witness :
  exists err w',
    Sockets_Connect exampleSockets noDeadline downWorld = Some (Some err, w') /\
    net.dialed (network w') = examplePaths /\
    unconnected w' 0 /\ unconnected w' 1 /\
    unconnected w' 2 /\ unconnected w' 3 /\
    Is err refused /\ Is err missing.
Proof.
  destruct (Sockets_Connect_failure exampleSockets noDeadline downWorld
              exampleSockets_wf_down)
    as (err & w' & Hrun & Hdialed & _ & H0 & H1 & H2 & H3 & Hfail).
  - exists 1, refused. split.
    + apply elem_of_cons. right. apply elem_of_cons. left. reflexivity.
    + eexists. split; reflexivity.
  - exists err, w'. repeat (split; [assumption|]). split.
    + apply (Hfail 1).
      * apply elem_of_cons. right. apply elem_of_cons. left. reflexivity.
      * eexists. split; reflexivity.
    + apply (Hfail 3).
      * do 3 (apply elem_of_cons; right). apply elem_of_cons. left. reflexivity.
      * eexists. split; reflexivity.
Defined.


(** C4. [ExecuteBFD] runs the command on the connection of the management
    daemon: it is the same computation as [ExecuteMgmt], the [Execute] of
    the connection at [mgmtConn], whose result it returns; the connection
    at [bfdConn], a different object, is left as it was. *)
Theorem ExecuteBFD_uses_mgmt (s : Sockets) (ctx : Context) (cmd : string)
  (w : World) (cm : Connection) :
  Sockets_wf s w ->
  heap w !! mgmtConn s = Some cm ->
  ExecuteBFD s ctx cmd w = ExecuteMgmt s ctx cmd w /\
  ExecuteBFD s ctx cmd w =
    Some (fst (Execute ctx cmd cm),
          mkWorld (<[mgmtConn s := snd (Execute ctx cmd cm)]> (heap w))
                  (network w) (fs w)) /\
  mgmtConn s <> bfdConn s /\
  (<[mgmtConn s := snd (Execute ctx cmd cm)]> (heap w)) !! bfdConn s
    = heap w !! bfdConn s.
Proof.
  intros (Hall & Hnd & _) Hcm.
  assert (Hne : mgmtConn s <> bfdConn s).
  { rewrite Hall in Hnd. intros Heq.
    apply NoDup_cons in Hnd as [_ Hnd]. apply NoDup_cons in Hnd as [Hnot _].
    apply Hnot. rewrite Heq. apply elem_of_cons. left. reflexivity. }
  split; [reflexivity|]. split; [|split; [exact Hne|]].
  - unfold ExecuteBFD, execute, call. rewrite Hcm.
    destruct (Execute ctx cmd cm) as [r c']. reflexivity.
  - apply list_lookup_insert_ne, Hne.
Qed.

Lemma ExecuteBFD_uses_mgmt_witness :
  ExecuteBFD exampleSockets noDeadline "show bfd peers" upWorld =
  ExecuteMgmt exampleSockets noDeadline "show bfd peers" upWorld /\
  exists w',
    snd <$> ExecuteBFD exampleSockets noDeadline "show bfd peers" upWorld
    = Some w' /\
             (sentOn <$> heap w' !! 2) = Some [wire "show bfd peers"] /\
             (sentOn <$> heap w' !! 1) = Some [].
Proof.
  destruct (ExecuteBFD_uses_mgmt exampleSockets noDeadline "show bfd peers"
              upWorld (answering "/run/frr/mgmtd.vty" ("hostname r1" ++ NL))
              exampleSockets_wf_up eq_refl) as (Hsame & Hrun & _ & _).
  split; [exact Hsame|].
  rewrite Hrun. eexists. split; [reflexivity|]. split; reflexivity.
Defined.


(** *** DumpRunningConfig *)

Lemma ShowRunningConfig_socketPath ctx c :
  socketPath (snd (ShowRunningConfig ctx c)) = socketPath c.
Proof.
  unfold ShowRunningConfig.
  destruct (Execute ctx "enable" c) as [[r1 e1] c1] eqn:H1.
  apply Execute_frame in H1 as [H1 _].
  destruct e1; [exact H1|].
  destruct (Execute ctx "do write terminal" c1) as [[r2 e2] c2] eqn:H2.
  apply Execute_frame in H2 as [H2 _].
  destruct e2; [simpl; congruence|].
  destruct (Execute ctx "disable" c2) as [[r3 e3] c3] eqn:H3.
  apply Execute_frame in H3 as [H3 _].
  destruct e3; simpl; congruence.
Qed.

(** Storing at [p] leaves the connections at other pointers. *)
Lemma Forall2_lookup_store (h : list Connection) p x ps cs :
  Forall2 (fun q c => h !! q = Some c) ps cs ->
  p ∉ ps ->
  Forall2 (fun q c => <[p := x]> h !! q = Some c) ps cs.
Proof.
  induction 1 as [|q c ps cs Hq _ IH]; intros Hnot; constructor.
  - rewrite list_lookup_insert_ne; [exact Hq|].
    intros ->. apply Hnot. apply elem_of_cons. left. reflexivity.
  - apply IH. intros Hin. apply Hnot. apply elem_of_cons. right. exact Hin.
Qed.

(** The loop of [DumpRunningConfig] over different connections: it never
    touches the files; when every [ShowRunningConfig] succeeds it gives
    the buffer with the merged configuration appended, and when one fails
    it gives an error. *)
Lemma dumpLoop_spec ctx ps :
  forall cs buf w,
    NoDup ps ->
    Forall2 (fun p c => heap w !! p = Some c) ps cs ->
    exists r w',
      dumpLoop ctx ps buf w = Some (r, w') /\
      fs w' = fs w /\
      (Forall (fun c => ~ showFails ctx c) cs ->
       r = inl (buf ++ mergedConfig ctx cs)) /\
      (Exists (showFails ctx) cs -> exists e, r = inr e).
Proof.
  induction ps as [|p ps IH]; intros cs buf w Hnd Hcs.
  - apply Forall2_nil_inv_l in Hcs as ->. exists (inl buf), w.
    split; [reflexivity|]. split; [reflexivity|]. split.
    + intros _. unfold mergedConfig. simpl. rewrite app_nil_r. reflexivity.
    + intros Hex. apply Exists_nil in Hex. destruct Hex.
  - apply Forall2_cons_inv_l in Hcs as (c & cs' & Hc & Hcs & ->).
    apply NoDup_cons in Hnd as [Hnot Hnd].
    destruct (call_spec p (ShowRunningConfig ctx) w c Hc
                (ShowRunningConfig_socketPath ctx c)) as [Hcall _].
    pose proof (ShowRunningConfig_socketPath ctx c) as Hpath.
    cbn [dumpLoop]. unfold bind at 1. rewrite Hcall.
    destruct (ShowRunningConfig ctx c) as [[resp [e|]] c1] eqn:Hshow;
      cbn [fst snd] in *.
    + eexists _, _. split; [reflexivity|]. split; [reflexivity|]. split.
      * intros Hall. apply Forall_cons in Hall as [Hok _].
        exfalso. apply Hok. unfold showFails. rewrite Hshow. discriminate.
      * intros _. eauto.
    + assert (Hlt : p < length (heap w))
        by (eapply lookup_lt_Some; eassumption).
      unfold bind, deref. cbn [heap].
      rewrite list_lookup_insert_eq by exact Hlt.
      unfold Buffer_Write.
      destruct (IH cs'
                  ((buf ++ bytes_of_string ("! " ++ socketPath c1 ++ NL))
                   ++ resp)
                  (mkWorld (<[p := c1]> (heap w)) (network w) (fs w)) Hnd
                  (Forall2_lookup_store _ _ _ _ _ Hcs Hnot))
        as (r & w' & Hloop & Hf & Hok & Hfail).
      exists r, w'. split; [exact Hloop|]. split; [exact Hf|]. split.
      * intros Hall. apply Forall_cons in Hall as [_ Hall].
        rewrite (Hok Hall). unfold mergedConfig. cbn [map concat].
        unfold dumpEntry at 2, shown at 2. rewrite Hshow, Hpath. cbn [fst].
        rewrite <- !app_assoc. reflexivity.
      * intros Hex. apply Exists_cons in Hex as [Hex|Hex]; [|auto].
        exfalso. unfold showFails in Hex. rewrite Hshow in Hex.
        apply Hex. reflexivity.
Qed.

Lemma string_app_ne (s t : string) : t <> "" -> (s ++ t)%string <> s.
Proof.
  intros Ht. induction s as [|a s IH]; simpl; [exact Ht|].
  intros [= H]. exact (IH H).
Qed.

(** [atomicWrite] when the write of the temporary file and the rename
    work: the destination holds the data, the temporary file is gone, no
    other file has changed. *)
Lemma atomicWrite_ok path data perm fs0 :
  filesWork 2 fs0 ->
  exists fs1 f,
    atomicWrite path data perm fs0 = (None, fs1) /\
    os.files fs1 !! path = Some f /\ os.content f = data /\
    os.files fs1 !! (path ++ ".tmp")%string = None /\
    (forall other, other <> path -> other <> (path ++ ".tmp")%string ->
                   os.files fs1 !! other = os.files fs0 !! other).
Proof.
  intros Hwork. unfold filesWork in Hwork.
  assert (Hne : (path ++ ".tmp")%string <> path)
    by (apply string_app_ne; discriminate).
  set (tmp := (path ++ ".tmp")%string) in *.
  set (f := match os.files fs0 !! tmp with
            | Some f0 => os.mkFile data (os.perm f0)
            | None => os.mkFile data (N.ldiff perm (os.umask fs0))
            end).
  assert (Hw : os.written tmp data perm (os.umask fs0) (os.files fs0)
               = <[tmp := f]> (os.files fs0)).
  { unfold os.written, f. destruct (os.files fs0 !! tmp); reflexivity. }
  set (final := os.moved tmp path f (<[tmp := f]> (os.files fs0))).
  assert (Hfinal : forall rest,
             os.files (os.withUmask final rest (os.umask fs0)) !! path = Some f /\
             os.content f = data /\
             os.files (os.withUmask final rest (os.umask fs0)) !! tmp = None /\
             (forall other, other <> path -> other <> tmp ->
                os.files (os.withUmask final rest (os.umask fs0)) !! other
                = os.files fs0 !! other)).
  { intros rest. unfold final, os.moved. simpl.
    split; [apply lookup_insert_eq|].
    split; [unfold f; destruct (os.files fs0 !! tmp); reflexivity|].
    split.
    - rewrite lookup_insert_ne by congruence. apply lookup_delete_eq.
    - intros other H1 H2. rewrite lookup_insert_ne by congruence.
      rewrite lookup_delete_ne by congruence.
      apply lookup_insert_ne. congruence. }
  unfold atomicWrite, os.WriteFile, os.Rename. fold tmp.
  destruct (os.faults fs0) as [|f1 rest1] eqn:Hfaults; simpl.
  - rewrite Hw, lookup_insert_eq. eexists _, f.
    split; [reflexivity|]. apply Hfinal.
  - simpl in Hwork. apply Forall_cons in Hwork as [-> Hwork]. simpl.
    destruct rest1 as [|f2 rest2]; simpl.
    + rewrite Hw, lookup_insert_eq. eexists _, f.
      split; [reflexivity|]. apply Hfinal.
    + simpl in Hwork. apply Forall_cons in Hwork as [-> _].
      rewrite Hw, lookup_insert_eq. eexists _, f.
      split; [reflexivity|]. apply Hfinal.
Qed.

(** [atomicWrite] never leaves the destination half written: when it
    fails the destination is what it was. *)
Lemma atomicWrite_failed path data perm fs0 e fs1 :
  atomicWrite path data perm fs0 = (Some e, fs1) ->
  os.files fs1 !! path = os.files fs0 !! path.
Proof.
  assert (Hne : (path ++ ".tmp")%string <> path)
    by (apply string_app_ne; discriminate).
  set (tmp := (path ++ ".tmp")%string) in *.
  assert (Hw : forall d, os.written tmp d perm (os.umask fs0) (os.files fs0) !! path
                         = os.files fs0 !! path).
  { intros d. unfold os.written.
    destruct (os.files fs0 !! tmp); apply lookup_insert_ne; exact Hne. }
  unfold atomicWrite, os.WriteFile, os.Rename. fold tmp.
  destruct (os.faults fs0) as [|[[[k|] e1]|] rest1]; simpl.
  - destruct (os.written tmp data perm (os.umask fs0) (os.files fs0) !! tmp);
      intros [= <- <-]. simpl. apply Hw.
  - intros [= <- <-]. simpl. apply Hw.
  - intros [= <- <-]. reflexivity.
  - destruct rest1 as [|[[k e2]|] rest2]; simpl.
    + destruct (os.written tmp data perm (os.umask fs0) (os.files fs0) !! tmp);
        intros [= <- <-]. simpl. apply Hw.
    + intros [= <- <-]. simpl. apply Hw.
    + destruct (os.written tmp data perm (os.umask fs0) (os.files fs0) !! tmp);
        intros [= <- <-]. simpl. apply Hw.
Qed.

(** C2. With every [ShowRunningConfig] succeeding and the two calls on
    the files working, [DumpRunningConfig] leaves at the destination the
    file whose content is, in the order bgp, bfd, mgmt, zebra, the comment
    line ["! <socketPath>\n"] of each connection followed by its running
    configuration, written as [dstFile.tmp] and renamed, so that no
    temporary file stays. With a [ShowRunningConfig] that fails it returns
    an error and has not touched the files at all. And whenever it returns
    an error the destination is what it was: it is never left partly
    written. *)
Theorem DumpRunningConfig_all_or_nothing (s : Sockets) (ctx : Context)
  (dstFile : string) (mode : os.FileMode) (w : World)
  (cb cf cm cz : Connection) :
  Sockets_wf s w ->
  heap w !! bgpConn s = Some cb -> heap w !! bfdConn s = Some cf ->
  heap w !! mgmtConn s = Some cm -> heap w !! zebraConn s = Some cz ->
  (Forall (fun c => ~ showFails ctx c) [cb; cf; cm; cz] ->
   filesWork 2 (fs w) ->
   exists w' f,
     DumpRunningConfig s ctx dstFile mode w = Some (None, w') /\
     os.files (fs w') !! dstFile = Some f /\
     os.content f = dumpEntry cb (shown ctx cb) ++ dumpEntry cf (shown ctx cf)
                    ++ dumpEntry cm (shown ctx cm)
                    ++ dumpEntry cz (shown ctx cz) /\
     os.files (fs w') !! (dstFile ++ ".tmp")%string = None) /\
  (Exists (showFails ctx) [cb; cf; cm; cz] ->
   exists e w',
     DumpRunningConfig s ctx dstFile mode w = Some (Some e, w') /\
     fs w' = fs w) /\
  (forall e w',
      DumpRunningConfig s ctx dstFile mode w = Some (Some e, w') ->
      os.files (fs w') !! dstFile = os.files (fs w) !! dstFile).
Proof.
  intros (Hall & Hnd & _) Hb Hf Hm Hz.
  assert (Hcs : Forall2 (fun p c => heap w !! p = Some c)
                        (allConnections s) [cb; cf; cm; cz])
    by (rewrite Hall; repeat constructor; assumption).
  destruct (dumpLoop_spec ctx (allConnections s) _ [] w Hnd Hcs)
    as (r & w1 & Hloop & Hfs & Hok & Hfail).
  unfold DumpRunningConfig, bind. rewrite Hloop.
  split; [|split].
  - intros Hshow Hwork. rewrite (Hok Hshow). cbn [app].
    rewrite <- Hfs in Hwork.
    destruct (atomicWrite_ok dstFile (mergedConfig ctx [cb; cf; cm; cz]) mode
                (fs w1) Hwork)
      as (fs1 & f & Hwrite & Hdst & Hcontent & Htmp & _).
    unfold onFiles. rewrite Hwrite. unfold ret.
    eexists _, f. split; [reflexivity|]. cbn [fs].
    split; [exact Hdst|]. split; [|exact Htmp].
    rewrite Hcontent. unfold mergedConfig. cbn [map concat].
    rewrite app_nil_r. reflexivity.
  - intros Hex. destruct (Hfail Hex) as [e ->]. unfold ret.
    eexists _, _. split; [reflexivity|]. exact Hfs.
  - intros e w'. destruct r as [buf|e1]; unfold ret.
    + unfold onFiles.
      destruct (atomicWrite dstFile buf mode (fs w1)) as [[e2|] fs1] eqn:Hwrite;
        intros [= <- <-]. cbn [fs].
      rewrite (atomicWrite_failed _ _ _ _ _ _ Hwrite), Hfs. reflexivity.
    + intros [= <- <-]. rewrite Hfs. reflexivity.
Qed.

Lemma DumpRunningConfig_all_or_nothing_witness :
  exists w' f,
    DumpRunningConfig exampleSockets noDeadline "/etc/frr/frr.conf"
                      DefaultFRRConfigPerm upWorld = Some (None, w') /\
    os.files (fs w') !! "/etc/frr/frr.conf" = Some f /\
    os.content f =
      bytes_of_string
        ("! /run/frr/bgpd.vty" ++ NL ++ "router bgp 65000" ++ NL ++
         "! /run/frr/bfdd.vty" ++ NL ++ "bfd" ++ NL ++
         "! /run/frr/mgmtd.vty" ++ NL ++ "hostname r1" ++ NL ++
         "! /run/frr/zebra.vty" ++ NL ++ "ip forwarding" ++ NL) /\
    os.files (fs w') !! "/etc/frr/frr.conf.tmp" = None.
Proof.
  refine (proj1 (DumpRunningConfig_all_or_nothing exampleSockets noDeadline
                   "/etc/frr/frr.conf" DefaultFRRConfigPerm upWorld
                   _ _ _ _ exampleSockets_wf_up eq_refl eq_refl eq_refl eq_refl)
                _ _).
  - repeat (apply Forall_cons_2; [intros H; apply H; reflexivity|]).
    apply Forall_nil_2.
  - apply Forall_nil_2.
Defined.


(** ** More on the read cycle *)

(** One round of the loop on a buffer that is not complete goes on. *)
Lemma readLoop_goes_on nc response chunk nc' :
  net.Read bufSize nc = ((chunk, None), nc') ->
  ~ complete (response ++ chunk) ->
  readLoop nc response = readLoop nc' (response ++ chunk).
Proof.
  intros Hread Hinc. rewrite readLoop_round, Hread. cbv zeta.
  destruct (Z.ltb_spec (bytes.Index (response ++ chunk) terminationMarker) 0)
    as [Hneg|Hpos]; [reflexivity|].
  destruct (Z.eqb_spec (len (response ++ chunk)
                        - bytes.Index (response ++ chunk) terminationMarker)
                       techDataTotalLen) as [Hfull|Hpart]; [|reflexivity].
  destruct Hinc. split; assumption.
Qed.

(** What a read takes from the deliveries. *)
Lemma Read_stream n nc data nc' :
  net.Read n nc = ((data, None), nc') ->
  stream (net.incoming nc) = data ++ stream (net.incoming nc') /\
  failure (net.incoming nc) = failure (net.incoming nc').
Proof.
  unfold net.Read. destruct (net.incoming nc) as [|[d|e] rest]; try discriminate.
  destruct (length d <=? n)%nat; intros [= <- <-]; simpl; [auto|].
  rewrite app_assoc, firstn_skipn. auto.
Qed.

Lemma Read_failure n nc data e nc' :
  net.Read n nc = ((data, Some e), nc') ->
  stream (net.incoming nc) = [] /\ failure (net.incoming nc) = e.
Proof.
  unfold net.Read. destruct (net.incoming nc) as [|[d|e0] rest].
  - intros [= <- <- <-]. auto.
  - destruct (length d <=? n)%nat; discriminate.
  - intros [= <- <- <-]. auto.
Qed.

(** A payload in which [bytes.Index] finds no marker has no run of three
    zero bytes. *)
Lemma Index_noMarkerRun P :
  bytes.Index P terminationMarker = (-1)%Z -> noMarkerRun P.
Proof.
  intros H l1 l2 ->. pose proof (Index_first l1 terminationMarker l2). lia.
Qed.

(** A buffer that is complete is a response: the bytes before the marker
    have no marker of their own and do not end in a zero byte. *)
Lemma complete_frame B :
  complete B ->
  exists P status,
    B = encodeResponse P status /\ framable P /\
    firstn (Z.to_nat (len B - techDataTotalLen)) B = P /\
    nth (Z.to_nat (len B - 1)) B x00 = status.
Proof.
  intros [Hpos Hfull].
  destruct (Index_found B terminationMarker Hpos) as (l1 & l2 & HB & Hlen).
  assert (Hl2 : length l2 = 1%nat).
  { apply (f_equal (@length byte)) in HB. rewrite !length_app in HB.
    simpl in HB. unfold len, techDataTotalLen in *. lia. }
  destruct l2 as [|status [|? ?]]; try discriminate Hl2.
  exists l1, status. split; [exact HB|].
  assert (Hidx : bytes.Index (encodeResponse l1 status) terminationMarker
                 = len l1) by (rewrite Hlen, HB; reflexivity).
  unfold encodeResponse, StatusCode in Hidx.
  split; [split|split].
  - intros a b ->. rewrite <- !app_assoc in Hidx.
    pose proof (Index_first a terminationMarker
                  (b ++ terminationMarker ++ [status])) as Hfirst.
    rewrite Hidx in Hfirst. unfold len in Hfirst.
    rewrite !length_app in Hfirst. simpl in Hfirst. lia.
  - intros Hlast. apply last_Some in Hlast as [P' ->].
    rewrite <- app_assoc in Hidx.
    pose proof (Index_first P' terminationMarker [x00; status]) as Hfirst.
    change ([x00] ++ terminationMarker ++ [status])
      with (terminationMarker ++ [x00; status]) in Hidx.
    rewrite Hidx in Hfirst. unfold len in Hfirst.
    rewrite length_app in Hfirst. simpl in Hfirst. lia.
  - rewrite HB. unfold len, techDataTotalLen. rewrite !length_app. simpl.
    replace (Z.to_nat (Z.of_nat (length l1 + 4) - 4))
      with (length l1 + 0)%nat by lia.
    rewrite firstn_app_2. simpl. apply app_nil_r.
  - rewrite HB. unfold len. rewrite !length_app. simpl.
    replace (Z.to_nat (Z.of_nat (length l1 + 4) - 1))
      with (length l1 + 3)%nat by lia.
    rewrite app_nth2_plus. reflexivity.
Qed.

(** Where the loop ends without error it has taken from the transport
    the bytes that complete its buffer, and no more. *)
Lemma readLoop_done :
  forall n nc response pt st nc',
    (net.pending nc <= n)%nat ->
    readLoop nc response = (mkResponse pt st None, nc') ->
    exists B,
      response ++ stream (net.incoming nc) = B ++ stream (net.incoming nc') /\
      failure (net.incoming nc') = failure (net.incoming nc) /\
      complete B /\
      pt = firstn (Z.to_nat (len B - techDataTotalLen)) B /\
      st = nth (Z.to_nat (len B - 1)) B x00.
Proof.
  induction n as [n IH] using lt_wf_ind. intros nc response pt st nc' Hn Hres.
  rewrite readLoop_round in Hres.
  destruct (net.Read bufSize nc) as [[chunk [e|]] nc1] eqn:Hread;
    [discriminate Hres|].
  assert (Hdec : (net.pending nc1 < net.pending nc)%nat)
    by (eapply Read_pending; [|exact Hread]; unfold bufSize; lia).
  destruct (Read_stream _ _ _ _ Hread) as [Hs Hf].
  cbv zeta in Hres.
  assert (Hrec : readLoop nc1 (response ++ chunk) = (mkResponse pt st None, nc')
                 -> exists B,
                   response ++ stream (net.incoming nc)
                   = B ++ stream (net.incoming nc') /\
                   failure (net.incoming nc') = failure (net.incoming nc) /\
                   complete B /\
                   pt = firstn (Z.to_nat (len B - techDataTotalLen)) B /\
                   st = nth (Z.to_nat (len B - 1)) B x00).
  { intros H. rewrite Hs, Hf, app_assoc.
    apply (IH (net.pending nc1) ltac:(lia) nc1 _ pt st nc' (Nat.le_refl _) H). }
  destruct (Z.ltb_spec (bytes.Index (response ++ chunk) terminationMarker) 0)
    as [Hneg|Hpos]; [exact (Hrec Hres)|].
  destruct (Z.eqb_spec (len (response ++ chunk)
                        - bytes.Index (response ++ chunk) terminationMarker)
                       techDataTotalLen) as [Hfull|Hpart]; [|exact (Hrec Hres)].
  injection Hres as <- <- <-.
  exists (response ++ chunk). rewrite Hs, Hf, app_assoc.
  repeat split; assumption.
Qed.

(** X1. Whatever the transport delivers: when [readResponse] returns
    without error, with the plaintext [pt] and the status [sc], the bytes
    it has taken from the transport are those of the response of [pt] and
    [sc] - the plaintext, three zero bytes, the status byte - and nothing
    after them; what the transport had to deliver after these bytes, and
    the failure it ends with, are still to come. Such a plaintext has no
    run of three zero bytes and does not end in a zero byte. *)
Theorem readResponse_sound (c : Connection) (nc : net.Conn)
  (pt : list byte) (sc : StatusCode) (c' : Connection) :
  conn c = Some nc ->
  readResponse c = (mkResponse pt sc None, c') ->
  exists nc',
    conn c' = Some nc' /\
    stream (net.incoming nc)
    = encodeResponse pt sc ++ stream (net.incoming nc') /\
    failure (net.incoming nc') = failure (net.incoming nc) /\
    noMarkerRun pt /\ last pt <> Some x00.
Proof.
  intros Hc Hres. unfold readResponse in Hres. rewrite Hc in Hres.
  destruct (readLoop nc []) as [response nc'] eqn:Hloop.
  injection Hres as -> <-.
  destruct (readLoop_done _ nc [] pt sc nc' (Nat.le_refl _) Hloop)
    as (B & Hs & Hf & Hcomp & Hpt & Hst).
  destruct (complete_frame B Hcomp) as (P & status & HB & [Hrun Hlast] & HP & HS).
  exists nc'. split; [reflexivity|].
  rewrite Hpt, Hst, HP, HS. simpl in Hs. rewrite Hs, HB. auto.
Qed.

Lemma readResponse_sound_witness :
  exists nc',
    conn (snd (readResponse (bgpd [[x6f; x6b; x00]; [x00; x00; x01];
                                   [x6e; x65; x78; x74]]))) = Some nc' /\
    [x6f; x6b; x00; x00; x00; x01; x6e; x65; x78; x74]
    = encodeResponse [x6f; x6b] Warning ++ stream (net.incoming nc') /\
    failure (net.incoming nc') = io_EOF /\
    noMarkerRun [x6f; x6b] /\ last [x6f; x6b] <> Some x00.
Proof.
  apply (readResponse_sound
           (bgpd [[x6f; x6b; x00]; [x00; x00; x01]; [x6e; x65; x78; x74]])
           (peer [[x6f; x6b; x00]; [x00; x00; x01]; [x6e; x65; x78; x74]])
           [x6f; x6b] Warning
           (snd (readResponse (bgpd [[x6f; x6b; x00]; [x00; x00; x01];
                                     [x6e; x65; x78; x74]])))).
  - reflexivity.
  - reflexivity.
Defined.

(** While no buffer on the way is complete the loop reads on, up to the
    failure of the transport: it ends with all the bytes and that
    failure. *)
Lemma readLoop_swallows :
  forall n nc response,
    (net.pending nc <= n)%nat ->
    (forall B R, B ++ R = stream (net.incoming nc) ->
                 ~ complete (response ++ B)) ->
    fst (readLoop nc response) =
    mkResponse (response ++ stream (net.incoming nc)) x00
               (Some (failure (net.incoming nc))).
Proof.
  induction n as [n IH] using lt_wf_ind. intros nc response Hn Hinc.
  destruct (net.Read bufSize nc) as [[chunk [e|]] nc1] eqn:Hread.
  - rewrite readLoop_round, Hread.
    destruct (Read_failure _ _ _ _ _ Hread) as [-> ->].
    rewrite app_nil_r. reflexivity.
  - assert (Hdec : (net.pending nc1 < net.pending nc)%nat)
      by (eapply Read_pending; [|exact Hread]; unfold bufSize; lia).
    destruct (Read_stream _ _ _ _ Hread) as [Hs Hf].
    rewrite (readLoop_goes_on _ _ _ _ Hread) by (eapply Hinc; symmetry; exact Hs).
    rewrite Hs, Hf, app_assoc.
    apply (IH (net.pending nc1) ltac:(lia) nc1 _ (Nat.le_refl _)).
    intros B R HBR. rewrite <- app_assoc. apply (Hinc (chunk ++ B) R).
    rewrite Hs, <- HBR, app_assoc. reflexivity.
Qed.

(** A part of a response that lacks some of its last four bytes is not
    complete. *)
Lemma part_incomplete P status B R :
  noMarkerRun P -> last P <> Some x00 ->
  B ++ R = encodeResponse P status -> R <> [] -> ~ complete B.
Proof.
  intros Hrun Hlast HB HR [Hpos Hfull].
  rewrite (Index_received P status B R Hrun Hlast HB) in Hpos, Hfull.
  assert (Hlen : (length B < length P + 4)%nat).
  { apply (f_equal (@length byte)) in HB. unfold encodeResponse in HB.
    rewrite !length_app in HB. simpl in HB.
    destruct R; [congruence|]. simpl in HB. lia. }
  destruct (Nat.ltb_spec (length B) (length P + 3)); [lia|].
  unfold len, techDataTotalLen in *. lia.
Qed.

(** X2. For a response whose plaintext has no run of three zero bytes
    in it and no zero byte at its end: when the transport cuts the
    response short - a read fails, or the daemon closes the socket,
    before the last of the four trailer bytes has come - [readResponse]
    returns the error of the transport as it is, unwrapped, together with
    every byte received so far as the plaintext, whatever the chunks; the
    status is left at its zero value, which reads [Success]. The two
    conditions on the plaintext are needed: cut short, a plaintext with
    zero bytes at its end can read as a complete response of a shorter
    plaintext. *)
Theorem readResponse_truncated (P : list byte) (status : StatusCode)
  (R : list byte) (c : Connection) (nc : net.Conn) :
  noMarkerRun P -> last P <> Some x00 ->
  conn c = Some nc ->
  stream (net.incoming nc) ++ R = encodeResponse P status -> R <> [] ->
  fst (readResponse c) =
  mkResponse (stream (net.incoming nc)) Success
             (Some (failure (net.incoming nc))).
Proof.
  intros Hrun Hlast Hc HS HR. unfold readResponse. rewrite Hc.
  pose proof (readLoop_swallows _ nc [] (Nat.le_refl _)) as H.
  destruct (readLoop nc []) as [response nc']. simpl in *. apply H.
  intros B R' HB. apply (part_incomplete P status B (R' ++ R) Hrun Hlast).
  - rewrite app_assoc, HB. exact HS.
  - destruct R'; [exact HR|discriminate].
Qed.

Lemma readResponse_truncated_witness :
  fst (readResponse
         (mkConnection "/run/frr/bgpd.vty"
            (Some (net.mkConn 0 None [] [] []
                     [net.Delivers [x6f; x6b]; net.Delivers [x00; x00];
                      net.ReadFails (errors_New "i/o timeout");
                      net.Delivers [x00; x00]] None))))
  = mkResponse [x6f; x6b; x00; x00] Success
               (Some (errors_New "i/o timeout")).
Proof.
  apply (readResponse_truncated [x6f; x6b] Success [x00; x00]
           (mkConnection "/run/frr/bgpd.vty"
              (Some (net.mkConn 0 None [] [] []
                       [net.Delivers [x6f; x6b]; net.Delivers [x00; x00];
                        net.ReadFails (errors_New "i/o timeout");
                        net.Delivers [x00; x00]] None)))
           (net.mkConn 0 None [] [] []
              [net.Delivers [x6f; x6b]; net.Delivers [x00; x00];
               net.ReadFails (errors_New "i/o timeout");
               net.Delivers [x00; x00]] None)).
  - apply noMarkerRun_short. simpl. lia.
  - discriminate.
  - reflexivity.
  - reflexivity.
  - discriminate.
Defined.

(** *** Bytes after the response *)

Lemma HasPrefix_longer s sep X :
  bytes.HasPrefix s sep = true -> bytes.HasPrefix (s ++ X) sep = true.
Proof.
  intros H. apply HasPrefix_true in H as [l ->].
  rewrite <- app_assoc. apply HasPrefix_app.
Qed.

Lemma HasPrefix_false_longer sep : forall s X,
  bytes.HasPrefix s sep = false -> (length sep <= length s)%nat ->
  bytes.HasPrefix (s ++ X) sep = false.
Proof.
  induction sep as [|p sep IH]; intros s X H Hlen.
  - destruct s; discriminate H.
  - destruct s as [|a s]; [simpl in Hlen; lia|].
    simpl in *. destruct (Byte.eqb a p); [|reflexivity].
    simpl in *. apply IH; [exact H|lia].
Qed.

(** The first instance of [sep] stays the first when bytes are added at
    the end. *)
Lemma Index_app_stable sep X : forall B,
  (0 <= bytes.Index B sep)%Z ->
  bytes.Index (B ++ X) sep = bytes.Index B sep.
Proof.
  induction B as [|a B IH]; intros Hpos.
  - cbn [bytes.Index] in Hpos.
    destruct (bytes.HasPrefix [] sep) eqn:Hp; [|lia].
    destruct sep; [|discriminate Hp]. destruct X; reflexivity.
  - change ((a :: B) ++ X) with (a :: (B ++ X)).
    cbn [bytes.Index] in *.
    destruct (bytes.HasPrefix (a :: B) sep) eqn:Hp.
    + change (a :: (B ++ X)) with ((a :: B) ++ X).
      rewrite (HasPrefix_longer _ _ X Hp). reflexivity.
    + destruct (Z.ltb_spec (bytes.Index B sep) 0) as [Hneg|Hge]; [lia|].
      rewrite (IH Hge).
      destruct (Index_found B sep Hge) as (l1 & l2 & HB & _).
      assert (Hlen : (length sep <= length (a :: B))%nat).
      { rewrite HB. simpl. rewrite !length_app. lia. }
      change (a :: (B ++ X)) with ((a :: B) ++ X).
      rewrite (HasPrefix_false_longer _ _ X Hp Hlen).
      destruct (Z.ltb_spec (bytes.Index B sep) 0); [lia|reflexivity].
Qed.

(** A buffer with more than four bytes from the marker on is never going
    to be complete. *)
Lemma overrun_incomplete B X :
  (0 <= bytes.Index B terminationMarker)%Z ->
  (techDataTotalLen < len B - bytes.Index B terminationMarker)%Z ->
  ~ complete (B ++ X).
Proof.
  intros Hpos Hover [_ Hfull].
  rewrite (Index_app_stable _ X B Hpos) in Hfull.
  unfold len in *. rewrite length_app in Hfull. lia.
Qed.

(** The loop reads through deliveries that do not complete its buffer. *)
Lemma readLoop_skip :
  forall n nc response chunks evs,
    (net.pending nc <= n)%nat ->
    net.incoming nc = map net.Delivers chunks ++ evs ->
    (forall B R, B ++ R = concat chunks -> ~ complete (response ++ B)) ->
    readLoop nc response
    = readLoop (net.set_incoming evs nc) (response ++ concat chunks).
Proof.
  induction n as [n IH] using lt_wf_ind.
  intros nc response chunks evs Hn Hin Hinc.
  destruct chunks as [|d chunks].
  - simpl in *. rewrite app_nil_r. f_equal. rewrite <- Hin.
    destruct nc; reflexivity.
  - destruct (Read_delivery bufSize nc d chunks evs Hin)
      as (data & chunks' & nc' & Hread & Hin' & Hcat).
    assert (Hdec : (net.pending nc' < net.pending nc)%nat)
      by (eapply Read_pending; [|exact Hread]; unfold bufSize; lia).
    destruct (Read_frame _ _ _ _ Hread) as [evs' ->].
    rewrite (readLoop_goes_on _ _ _ _ Hread)
      by (apply (Hinc data (concat chunks')); exact Hcat).
    rewrite (IH (net.pending (net.set_incoming evs' nc)) ltac:(lia) _
               (response ++ data) chunks' evs
               (Nat.le_refl _) Hin').
    + rewrite <- Hcat, app_assoc. reflexivity.
    + intros B R HBR. rewrite <- app_assoc. apply (Hinc (data ++ B) R).
      rewrite <- Hcat, <- HBR, app_assoc. reflexivity.
Qed.

(** X3. For a response whose plaintext has no run of three zero bytes
    in it and no zero byte at its end, and a last read of at most
    [bufSize] bytes: bytes that come after the response in the read that
    brings its end are not left for the next command. With them in the
    buffer more than four bytes follow the marker, the response is never
    seen as complete, and [readResponse] reads on to the failure of the
    transport - the deadline, at the latest - and returns everything it
    has read, with that error and the status at its zero value. *)
Theorem readResponse_overrun (P : list byte) (status : StatusCode)
  (X : list byte) (chunks : list (list byte)) (d : list byte)
  (evs : list net.ReadEvent) (c : Connection) (nc : net.Conn) :
  noMarkerRun P -> last P <> Some x00 ->
  conn c = Some nc ->
  net.incoming nc = map net.Delivers chunks ++ net.Delivers d :: evs ->
  (length d <= bufSize)%nat ->
  (length (concat chunks) < length P + 4)%nat ->
  concat chunks ++ d = encodeResponse P status ++ X -> X <> [] ->
  fst (readResponse c) =
  mkResponse (encodeResponse P status ++ X ++ stream evs) Success
             (Some (failure evs)).
Proof.
  intros Hrun Hlast Hc Hin Hd Hshort Hcat HX. unfold readResponse. rewrite Hc.
  assert (Hloop : fst (readLoop nc []) =
                  mkResponse (encodeResponse P status ++ X ++ stream evs)
                             Success (Some (failure evs))).
  { rewrite (readLoop_skip _ nc [] chunks (net.Delivers d :: evs)
               (Nat.le_refl _) Hin).
    2: { intros B R HBR.
         apply (part_incomplete P status B
                  (skipn (length B) (encodeResponse P status)) Hrun Hlast).
         - assert (HB : B = firstn (length B) (encodeResponse P status)).
           { assert (H : firstn (length B) ((B ++ R) ++ d)
                         = firstn (length B) (encodeResponse P status ++ X))
               by (rewrite HBR, Hcat; reflexivity).
             rewrite <- app_assoc, firstn_app, Nat.sub_diag, firstn_all in H.
             simpl in H. rewrite app_nil_r in H. rewrite H at 1.
             rewrite firstn_app.
             replace (length B - length (encodeResponse P status))%nat
               with 0%nat; [simpl; apply app_nil_r|].
             apply (f_equal (@length byte)) in HBR.
             rewrite length_app in HBR. unfold encodeResponse.
             rewrite !length_app. simpl. lia. }
           rewrite HB at 1. apply firstn_skipn.
         - intros Hnil. apply (f_equal (@length byte)) in Hnil.
           rewrite length_skipn in Hnil. unfold encodeResponse in Hnil.
           rewrite !length_app in Hnil. simpl in Hnil.
           apply (f_equal (@length byte)) in HBR.
           rewrite length_app in HBR. lia. }
    simpl app.
    assert (Hread : net.Read bufSize (net.set_incoming (net.Delivers d :: evs) nc)
                    = ((d, None), net.set_incoming evs nc)).
    { unfold net.Read. simpl. rewrite (proj2 (Nat.leb_le _ _) Hd). reflexivity. }
    assert (Hidx : bytes.Index (encodeResponse P status) terminationMarker
                   = len P).
    { rewrite (Index_received P status (encodeResponse P status) []
                 Hrun Hlast (app_nil_r _)).
      unfold encodeResponse. rewrite !length_app. simpl.
      destruct (Nat.ltb_spec (length P + 4) (length P + 3)); [lia|reflexivity]. }
    assert (Hover : forall Y, ~ complete ((encodeResponse P status ++ X) ++ Y)).
    { intros Y. apply overrun_incomplete.
      - rewrite Index_app_stable; rewrite Hidx; unfold len; lia.
      - rewrite Index_app_stable by (rewrite Hidx; unfold len; lia).
        rewrite Hidx. unfold len, techDataTotalLen, encodeResponse.
        rewrite !length_app. simpl. destruct X; [congruence|]. simpl. lia. }
    rewrite (readLoop_goes_on _ _ _ _ Hread)
      by (rewrite Hcat, <- (app_nil_r (_ ++ X)); apply Hover).
    rewrite Hcat.
    rewrite (readLoop_swallows _ (net.set_incoming evs nc) _ (Nat.le_refl _))
      by (intros B R _; apply Hover).
    simpl. rewrite <- app_assoc. reflexivity. }
  destruct (readLoop nc []) as [response nc']. exact Hloop.
Qed.

Lemma readResponse_overrun_witness :
  fst (readResponse
         (bgpd [[x6f; x6b; x00]; [x00; x00; x00; x6e]; [x65; x78; x74]]))
  = mkResponse [x6f; x6b; x00; x00; x00; x00; x6e; x65; x78; x74] Success
               (Some io_EOF).
Proof.
  apply (readResponse_overrun [x6f; x6b] Success [x6e] [[x6f; x6b; x00]]
           [x00; x00; x00; x6e] (map net.Delivers [[x65; x78; x74]])
           (bgpd [[x6f; x6b; x00]; [x00; x00; x00; x6e]; [x65; x78; x74]])
           (peer [[x6f; x6b; x00]; [x00; x00; x00; x6e]; [x65; x78; x74]])).
  - apply noMarkerRun_short. simpl. lia.
  - discriminate.
  - reflexivity.
  - reflexivity.
  - unfold bufSize. simpl. lia.
  - simpl. lia.
  - reflexivity.
  - discriminate.
Defined.

(** ** More on Execute *)

(** The response of a payload that can be framed is complete, and its
    parts are the payload and the status. *)
Lemma encodeResponse_parts P status :
  firstn (Z.to_nat (len (encodeResponse P status) - techDataTotalLen))
         (encodeResponse P status) = P /\
  nth (Z.to_nat (len (encodeResponse P status) - 1))
      (encodeResponse P status) x00 = status.
Proof.
  unfold len, techDataTotalLen, encodeResponse. rewrite !length_app. simpl.
  split.
  - replace (Z.to_nat (Z.of_nat (length P + 4) - 4))
      with (length P + 0)%nat by lia.
    rewrite firstn_app_2. simpl. apply app_nil_r.
  - replace (Z.to_nat (Z.of_nat (length P + 4) - 1))
      with (length P + 3)%nat by lia.
    rewrite app_nth2_plus. reflexivity.
Qed.

Lemma encodeResponse_complete P status :
  framable P -> complete (encodeResponse P status).
Proof.
  intros [Hrun Hlast]. unfold complete.
  rewrite (Index_received P status (encodeResponse P status) []
             Hrun Hlast (app_nil_r _)).
  unfold len, techDataTotalLen, encodeResponse. rewrite !length_app. simpl.
  destruct (Nat.ltb_spec (length P + 4) (length P + 3)); lia.
Qed.

(** One round that completes the buffer. *)
Lemma readLoop_ends nc response chunk nc' :
  net.Read bufSize nc = ((chunk, None), nc') ->
  complete (response ++ chunk) ->
  readLoop nc response =
  ({| plainText := firstn (Z.to_nat (len (response ++ chunk) - techDataTotalLen))
                          (response ++ chunk);
      statusCode := nth (Z.to_nat (len (response ++ chunk) - 1))
                        (response ++ chunk) x00;
      err := None |}, nc').
Proof.
  intros Hread [Hpos Hfull]. rewrite readLoop_round, Hread. cbv zeta.
  destruct (Z.ltb_spec (bytes.Index (response ++ chunk) terminationMarker) 0)
    as [Hneg|_]; [lia|].
  rewrite (proj2 (Z.eqb_eq _ _) Hfull). reflexivity.
Qed.

(** The loop on a response that comes in chunks: the payload, the status,
    and a transport that has nothing left of these chunks but, at most,
    empty deliveries. *)
Lemma readLoop_served P status :
  framable P ->
  forall n nc response chunks evs,
    (net.pending nc <= n)%nat ->
    net.incoming nc = map net.Delivers chunks ++ evs ->
    response ++ concat chunks = encodeResponse P status ->
    (length response < length P + 4)%nat ->
    exists blanks,
      readLoop nc response
      = (mkResponse P status None,
         net.set_incoming (map net.Delivers blanks ++ evs) nc) /\
      concat blanks = [].
Proof.
  intros HP.
  induction n as [n IH] using lt_wf_ind.
  intros nc response chunks evs Hn Hin Henc Hlt.
  assert (Hlen : (length response + length (concat chunks)
                  = length P + 4)%nat).
  { apply (f_equal (@length byte)) in Henc. unfold encodeResponse in Henc.
    rewrite !length_app in Henc. simpl in Henc. lia. }
  destruct chunks as [|d chunks]; [simpl in Hlen; lia|].
  destruct (Read_delivery bufSize nc d chunks evs Hin)
    as (data & chunks' & nc' & Hread & Hin' & Hcat).
  assert (Hdec : (net.pending nc' < net.pending nc)%nat)
    by (eapply Read_pending; [|exact Hread]; unfold bufSize; lia).
  destruct (Read_frame _ _ _ _ Hread) as [evs' ->].
  assert (Henc' : (response ++ data) ++ concat chunks'
                  = encodeResponse P status)
    by (rewrite <- app_assoc, Hcat; exact Henc).
  destruct (concat chunks') as [|x xs] eqn:Hrest.
  - rewrite app_nil_r in Henc'.
    rewrite (readLoop_ends _ _ _ _ Hread)
      by (rewrite Henc'; apply encodeResponse_complete, HP).
    rewrite Henc'. destruct (encodeResponse_parts P status) as [-> ->].
    exists chunks'. simpl in Hin'. rewrite Hin'.
    split; [reflexivity|exact Hrest].
  - destruct HP as [Hrun Hlast].
    rewrite (readLoop_goes_on _ _ _ _ Hread)
      by (apply (part_incomplete P status _ (x :: xs) Hrun Hlast Henc');
          discriminate).
    destruct (IH (net.pending (net.set_incoming evs' nc)) ltac:(lia)
                (net.set_incoming evs' nc) (response ++ data) chunks' evs
                (Nat.le_refl _) Hin')
      as (blanks & Hloop & Hblank).
    + rewrite Hrest. exact Henc'.
    + apply (f_equal (@length byte)) in Henc'. unfold encodeResponse in Henc'.
      rewrite !length_app in Henc'. simpl in Henc'. rewrite length_app. lia.
    + exists blanks. split; [|exact Hblank]. rewrite Hloop. reflexivity.
Qed.

(** On a healthy transport the deadline is set and the command goes out
    whole. *)
Lemma setDeadline_healthy ctx nc :
  healthy nc ->
  exists nc1,
    setDeadline ctx nc = (None, nc1) /\ healthy nc1 /\
    net.sent nc1 = net.sent nc /\ net.incoming nc1 = net.incoming nc.
Proof.
  intros [Hd Hw]. unfold setDeadline, net.SetDeadline.
  destruct (net.deadlineFaults nc) as [|[e|] rest] eqn:Hf.
  - eexists. split; [reflexivity|]. simpl. repeat split; auto.
  - apply Forall_cons in Hd as [[=] _].
  - apply Forall_cons in Hd as [_ Hd].
    eexists. split; [reflexivity|]. repeat split; auto.
Qed.

Lemma writeCommand_healthy cmd nc :
  healthy nc ->
  exists nc2,
    writeCommand cmd nc = ((len (wire cmd), None), nc2) /\ healthy nc2 /\
    net.sent nc2 = net.sent nc ++ [wire cmd] /\
    net.incoming nc2 = net.incoming nc.
Proof.
  intros [Hd Hw]. unfold writeCommand, net.Write. fold (wire cmd).
  destruct (net.writeFaults nc) as [|[[k e]|] rest] eqn:Hf.
  - eexists. split; [reflexivity|]. repeat split; auto.
  - apply Forall_cons in Hw as [[=] _].
  - apply Forall_cons in Hw as [_ Hw].
    eexists. split; [reflexivity|]. repeat split; auto.
Qed.

(** [Execute] on a connection whose daemon serves the response, of a
    payload that the framing can carry: the payload comes back, with no
    error when the status is one of the accepted ones, the command is on
    the wire, and the daemon goes on serving the responses that follow. *)
Lemma Execute_serves ctx cmd c nc P status rs :
  conn c = Some nc -> serves nc ((P, status) :: rs) -> framable P ->
  exists c' nc',
    fst (fst (Execute ctx cmd c)) = P /\
    (In status acceptedCodes -> Execute ctx cmd c = ((P, None), c')) /\
    snd (Execute ctx cmd c) = c' /\
    conn c' = Some nc' /\ socketPath c' = socketPath c /\
    net.sent nc' = net.sent nc ++ [wire cmd] /\ serves nc' rs.
Proof.
  intros Hc (Hh & chunkss & evs & Hin & Hall) HP.
  apply Forall2_cons_inv_r in Hall as (chunks & chunkss' & Henc & Hall & ->).
  simpl in Henc.
  destruct (setDeadline_healthy ctx nc Hh) as (nc1 & Hd & Hh1 & Hs1 & Hi1).
  destruct (writeCommand_healthy cmd nc1 Hh1) as (nc2 & Hw & Hh2 & Hs2 & Hi2).
  assert (Hin2 : net.incoming nc2
                 = map net.Delivers chunks
                   ++ (map net.Delivers (concat chunkss') ++ evs)).
  { rewrite Hi2, Hi1, Hin. simpl. rewrite map_app, <- app_assoc. reflexivity. }
  destruct (readLoop_served P status HP _ nc2 [] chunks _
              (Nat.le_refl _) Hin2 Henc ltac:(simpl; lia))
    as (blanks & Hloop & Hblank).
  set (nc' := net.set_incoming
                (map net.Delivers blanks
                 ++ map net.Delivers (concat chunkss') ++ evs) nc2) in *.
  assert (Hex : Execute ctx cmd c =
                ((P, if negb (Byte.eqb status Success)
                        && negb (Byte.eqb status Warning)
                        && negb (Byte.eqb status SuccessDaemon)
                     then Some (statusRejected cmd c status) else None),
                 with_conn c (Some nc'))).
  { unfold Execute, readResponse. rewrite Hc, Hd, Hw. simpl. rewrite Hloop.
    simpl. destruct (_ && _); reflexivity. }
  exists (with_conn c (Some nc')), nc'. rewrite Hex. simpl.
  split; [reflexivity|]. split.
  { intros [<-|[<-|[<-|[]]]]; reflexivity. }
  split; [reflexivity|]. split; [reflexivity|]. split; [reflexivity|].
  split; [congruence|].
  split; [exact Hh2|].
  destruct Hall as [|chunks2 r2 chunkss2 rs2 Hr2 Hall].
  - exists [], (map net.Delivers blanks ++ evs). split; [reflexivity|constructor].
  - exists ((blanks ++ chunks2) :: chunkss2), evs. split.
    + simpl. rewrite !map_app, <- !app_assoc. reflexivity.
    + constructor; [|exact Hall].
      rewrite concat_app, Hblank. exact Hr2.
Qed.

(** X4. When the transport refuses the deadline, [Execute] returns no
    response and an error that wraps the refusal and names the socket,
    and has written and read nothing; when the deadline is set and the
    write fails after [k] bytes, [Execute] returns no response and an
    error that wraps the failure and names the command and the socket,
    the [k] bytes have gone out, and nothing has been read: the answer
    the daemon may give stays in the transport. *)
Theorem Execute_transport_failure (ctx : Context) (cmd : string)
  (c : Connection) (nc : net.Conn) :
  conn c = Some nc ->
  (forall e rest,
      net.deadlineFaults nc = Some e :: rest ->
      exists err nc',
        Execute ctx cmd c = (([], Some err), with_conn c (Some nc')) /\
        Is err e /\ mentions err (socketPath c) /\
        net.sent nc' = net.sent nc /\
        net.incoming nc' = net.incoming nc /\
        net.deadline nc' = net.deadline nc) /\
  (forall k e rest,
      (forall e' rest', net.deadlineFaults nc <> Some e' :: rest') ->
      net.writeFaults nc = Some (k, e) :: rest ->
      exists err nc',
        Execute ctx cmd c = (([], Some err), with_conn c (Some nc')) /\
        Is err e /\ mentions err cmd /\ mentions err (socketPath c) /\
        net.sent nc' = net.sent nc ++ [firstn k (wire cmd)] /\
        net.incoming nc' = net.incoming nc).
Proof.
  intros Hc. split.
  - intros e rest Hf. unfold Execute, setDeadline, net.SetDeadline.
    rewrite Hc, Hf. eexists _, _. split; [reflexivity|].
    split; [wraps|]. split; [simpl; auto|]. repeat split.
  - intros k e rest Hd Hw.
    unfold Execute, setDeadline, net.SetDeadline, writeCommand, net.Write.
    rewrite Hc. fold (wire cmd).
    destruct (net.deadlineFaults nc) as [|[e'|] rest'] eqn:Hf;
      [|destruct (Hd e' rest' eq_refl)|]; simpl; rewrite Hw;
      (eexists _, _; split; [reflexivity|];
       split; [wraps|]; split; [simpl; auto|]; split; [simpl; auto|];
       split; reflexivity).
Qed.

Lemma Execute_transport_failure_witness :
  exists err nc',
    Execute noDeadline "show version"
      (mkConnection "/run/frr/bgpd.vty"
         (Some (net.mkConn 0 None [] [Some (4%nat, errors_New "broken pipe")]
                           [] [net.Delivers emptyOK] None)))
    = (([], Some err),
       with_conn (mkConnection "/run/frr/bgpd.vty"
                    (Some (net.mkConn 0 None []
                             [Some (4%nat, errors_New "broken pipe")]
                             [] [net.Delivers emptyOK] None)))
                 (Some nc')) /\
    Is err (errors_New "broken pipe") /\
    net.sent nc' = [[x73; x68; x6f; x77]] /\
    net.incoming nc' = [net.Delivers emptyOK].
Proof.
  destruct (proj2 (Execute_transport_failure noDeadline "show version"
              (mkConnection "/run/frr/bgpd.vty"
                 (Some (net.mkConn 0 None []
                          [Some (4%nat, errors_New "broken pipe")]
                          [] [net.Delivers emptyOK] None)))
              (net.mkConn 0 None [] [Some (4%nat, errors_New "broken pipe")]
                          [] [net.Delivers emptyOK] None) eq_refl)
              4%nat (errors_New "broken pipe") [])
    as (err & nc' & Hex & His & _ & _ & Hsent & Hin).
  - intros e' rest'. discriminate.
  - reflexivity.
  - exists err, nc'. repeat split; assumption.
Defined.

(** What [Execute] does to the transport besides reading and writing:
    the deadline. *)
Lemma SetDeadline_frame t nc e nc' :
  net.SetDeadline t nc = (e, nc') ->
  net.now nc' = net.now nc /\ net.closeFault nc' = net.closeFault nc /\
  net.incoming nc' = net.incoming nc /\
  (e = None -> net.deadline nc' = Some t).
Proof.
  unfold net.SetDeadline.
  destruct (net.deadlineFaults nc) as [|[f|] rest]; intros [= <- <-];
    repeat split; discriminate.
Qed.

Lemma Write_frame b nc r nc' :
  net.Write b nc = (r, nc') ->
  net.now nc' = net.now nc /\ net.closeFault nc' = net.closeFault nc /\
  net.incoming nc' = net.incoming nc /\ net.deadline nc' = net.deadline nc.
Proof.
  unfold net.Write.
  destruct (net.writeFaults nc) as [|[[k f]|] rest]; intros [= <- <-];
    repeat split.
Qed.

(** X5. With a transport that takes the deadline, after [Execute] -
    whatever its outcome - the deadline of the transport is the one of the
    context when the context has one, and otherwise one second
    ([DefaultTimeout]) after the present time. *)
Theorem Execute_deadline (ctx : Context) (cmd : string) (c : Connection)
  (nc : net.Conn) :
  conn c = Some nc ->
  (forall e rest, net.deadlineFaults nc <> Some e :: rest) ->
  exists nc',
    conn (snd (Execute ctx cmd c)) = Some nc' /\
    (forall d, Deadline ctx = Some d -> net.deadline nc' = Some d) /\
    (Deadline ctx = None ->
     net.deadline nc' = Some (net.now nc + 1000000000)%Z).
Proof.
  intros Hc Hd.
  set (t := match Deadline ctx with
            | Some d => d
            | None => (net.now nc + DefaultTimeout)%Z
            end).
  assert (Hgoal : exists nc', conn (snd (Execute ctx cmd c)) = Some nc' /\
                              net.deadline nc' = Some t).
  { unfold Execute, setDeadline. rewrite Hc. fold t.
    destruct (net.SetDeadline t nc) as [[e|] nc1] eqn:Hset.
    { exfalso. revert Hset. unfold net.SetDeadline.
      destruct (net.deadlineFaults nc) as [|[f|] rest] eqn:Hf;
        [discriminate|destruct (Hd f rest eq_refl)|discriminate]. }
    destruct (SetDeadline_frame _ _ _ _ Hset) as (_ & _ & _ & Ht).
    specialize (Ht eq_refl).
    unfold writeCommand.
    destruct (net.Write _ nc1) as [[n [e|]] nc2] eqn:Hw;
      destruct (Write_frame _ _ _ _ Hw) as (_ & _ & _ & Hd2).
    { eexists. split; [reflexivity|]. congruence. }
    unfold readResponse. cbn [conn with_conn].
    destruct (readLoop_frame nc2 []) as [evs Hevs].
    destruct (readLoop nc2 []) as [response nc3]. simpl in Hevs. subst nc3.
    exists (net.set_incoming evs nc2).
    split; [|simpl; congruence].
    destruct (err response); [reflexivity|].
    destruct (_ && _); reflexivity. }
  destruct Hgoal as (nc' & Hc' & Ht). exists nc'. split; [exact Hc'|].
  subst t. split.
  - intros d Hctx. rewrite Hctx in Ht. exact Ht.
  - intros Hctx. rewrite Hctx in Ht. exact Ht.
Qed.

Lemma Execute_deadline_witness :
  exists nc',
    conn (snd (Execute (mkContext (Some 42%Z)) "show version"
                 (bgpd [emptyOK]))) = Some nc' /\
    net.deadline nc' = Some 42%Z.
Proof.
  destruct (Execute_deadline (mkContext (Some 42%Z)) "show version"
              (bgpd [emptyOK]) (peer [emptyOK]) eq_refl)
    as (nc' & Hc & Hd & _).
  - intros e rest. discriminate.
  - exists nc'. split; [exact Hc|]. apply Hd. reflexivity.
Defined.

(** *** The transport stays *)

Lemma sameSocket_refl c : sameSocket c c.
Proof. split; reflexivity. Qed.

Lemma sameSocket_trans c1 c2 c3 :
  sameSocket c1 c2 -> sameSocket c2 c3 -> sameSocket c1 c3.
Proof. intros [H1 H2] [H3 H4]. split; [congruence|]. tauto. Qed.

Lemma Execute_keeps ctx cmd c : sameSocket c (snd (Execute ctx cmd c)).
Proof.
  unfold Execute. destruct (conn c) as [nc|] eqn:Hc.
  2: { simpl. split; [reflexivity|]. tauto. }
  assert (Hwith : forall nc', sameSocket c (with_conn c (Some nc'))).
  { intros nc'. split; [reflexivity|]. simpl. rewrite Hc.
    split; discriminate. }
  destruct (setDeadline ctx nc) as [[e|] nc1]; [apply Hwith|].
  destruct (writeCommand cmd nc1) as [[n [e|]] nc2]; [apply Hwith|].
  assert (Hread : sameSocket c (snd (readResponse (with_conn c (Some nc2))))).
  { unfold readResponse. cbn [conn with_conn].
    destruct (readLoop nc2 []) as [response nc3]. apply Hwith. }
  destruct (readResponse (with_conn c (Some nc2))) as [response c'].
  destruct (err response); [exact Hread|].
  destruct (_ && _); exact Hread.
Qed.

Lemma forRange_keeps {A} (body : A -> Stmt Connection) xs :
  (forall x c, sameSocket c (snd (body x c))) ->
  forall c, sameSocket c (snd (forRange xs body c)).
Proof.
  intros Hbody. induction xs as [|x xs IH]; intros c; simpl.
  - apply sameSocket_refl.
  - unfold andThen. pose proof (Hbody x c) as Hx.
    destruct (body x c) as [[e|] c1]; [exact Hx|].
    eapply sameSocket_trans; [exact Hx|apply IH].
Qed.

Lemma runModeCommand_keeps ctx cmd c :
  sameSocket c (snd (runModeCommand ctx cmd c)).
Proof.
  unfold runModeCommand. pose proof (Execute_keeps ctx cmd c) as H.
  destruct (Execute ctx cmd c) as [[r [e|]] c']; exact H.
Qed.

Lemma runConfigLine_keeps ctx line c :
  sameSocket c (snd (runConfigLine ctx line c)).
Proof.
  unfold runConfigLine. destruct (_ =? _)%Z; [apply sameSocket_refl|].
  pose proof (Execute_keeps ctx (string_of_bytes (bytes.TrimSpace line)) c) as H.
  destruct (Execute ctx _ c) as [[r [e|]] c']; exact H.
Qed.

Lemma ApplyConfig_keeps ctx config c :
  sameSocket c (snd (ApplyConfig ctx config c)).
Proof.
  unfold ApplyConfig, andThen.
  pose proof (forRange_keeps (runModeCommand ctx) ["enable"; "configure"]
                (runModeCommand_keeps ctx) c) as H1.
  destruct (forRange ["enable"; "configure"] _ c) as [[e|] c1]; [exact H1|].
  pose proof (forRange_keeps (runConfigLine ctx)
                (bytes.Split config (bytes_of_string NL))
                (runConfigLine_keeps ctx) c1) as H2.
  destruct (forRange (bytes.Split _ _) _ c1) as [[e|] c2];
    [eapply sameSocket_trans; eassumption|].
  pose proof (forRange_keeps (runModeCommand ctx) ["exit"; "disable"]
                (runModeCommand_keeps ctx) c2) as H3.
  eapply sameSocket_trans; [exact H1|].
  eapply sameSocket_trans; [exact H2|exact H3].
Qed.

Lemma ShowRunningConfig_keeps ctx c :
  sameSocket c (snd (ShowRunningConfig ctx c)).
Proof.
  unfold ShowRunningConfig.
  pose proof (Execute_keeps ctx "enable" c) as H1.
  destruct (Execute ctx "enable" c) as [[r1 [e1|]] c1]; [exact H1|].
  pose proof (Execute_keeps ctx "do write terminal" c1) as H2.
  destruct (Execute ctx "do write terminal" c1) as [[r2 [e2|]] c2];
    [eapply sameSocket_trans; eassumption|].
  pose proof (Execute_keeps ctx "disable" c2) as H3.
  destruct (Execute ctx "disable" c2) as [[r3 [e3|]] c3];
    (eapply sameSocket_trans; [exact H1|];
     eapply sameSocket_trans; [exact H2|exact H3]).
Qed.

(** X6. [Execute], [ApplyConfig] and [ShowRunningConfig] neither make
    nor drop the connection, whatever their outcome: the socket path is
    kept, a connection with a transport still has one after an error -
    closing it is left to the caller - and a connection without transport
    stays without. *)
Theorem connection_kept (ctx : Context) (c : Connection) :
  (forall cmd, sameSocket c (snd (Execute ctx cmd c))) /\
  (forall config, sameSocket c (snd (ApplyConfig ctx config c))) /\
  sameSocket c (snd (ShowRunningConfig ctx c)).
Proof.
  split; [intros cmd; apply Execute_keeps|].
  split; [intros config; apply ApplyConfig_keeps|apply ShowRunningConfig_keeps].
Qed.

(** ** More on ApplyConfig and ShowRunningConfig *)

(** A daemon that serves accepted responses, of payloads that the
    framing can carry, makes a run of commands succeed. *)
Lemma ExecAll_serves ctx rest :
  forall cmds rs c nc,
    conn c = Some nc -> serves nc (rs ++ rest) ->
    length rs = length cmds ->
    Forall (fun r => framable (fst r)) rs ->
    Forall (fun r => In (snd r) acceptedCodes) rs ->
    exists c' nc',
      ExecAll ctx cmds c c' /\ conn c' = Some nc' /\ serves nc' rest.
Proof.
  induction cmds as [|cmd cmds IH]; intros rs c nc Hc Hs Hlen Hfr Hacc.
  - destruct rs; [|discriminate Hlen]. exists c, nc.
    split; [apply ExecAll_nil|]. auto.
  - destruct rs as [|[P status] rs]; [discriminate Hlen|].
    apply Forall_cons in Hacc as [Hok Hacc]. simpl in Hok.
    apply Forall_cons in Hfr as [HP Hfr]. simpl in HP.
    destruct (Execute_serves ctx cmd c nc P status (rs ++ rest) Hc Hs HP)
      as (c1 & nc1 & _ & Hex & _ & Hc1 & _ & _ & Hs1).
    destruct (IH rs c1 nc1 Hc1 Hs1 ltac:(simpl in Hlen; lia) Hfr Hacc)
      as (c' & nc' & Hall & Hc' & Hs').
    exists c', nc'. split; [|auto].
    eapply ExecAll_cons; [apply Hex, Hok|exact Hall].
Qed.

(** X7. End to end: on a connection with a healthy transport whose
    daemon answers each of the commands - [enable], [configure], the
    lines of the configuration that are not blank, [exit], [disable] -
    with a response of an accepted status, in whatever chunks, the
    plaintext of each of these responses being one that the framing can
    carry - no run of three zero bytes in it and no zero byte at its end
    - [ApplyConfig] returns nil, these commands are on the wire in this
    order, and the responses that follow are still to be read. *)
Theorem ApplyConfig_served (ctx : Context) (config : list byte)
  (c : Connection) (nc : net.Conn)
  (rs rest : list (list byte * StatusCode)) :
  conn c = Some nc ->
  serves nc (rs ++ rest) ->
  length rs = (4 + length (configCommands config))%nat ->
  Forall (fun r => framable (fst r)) rs ->
  Forall (fun r => In (snd r) acceptedCodes) rs ->
  exists c' nc',
    ApplyConfig ctx config c = (None, c') /\
    conn c' = Some nc' /\ serves nc' rest /\
    net.sent nc' = net.sent nc
                   ++ map wire (["enable"; "configure"]
                                ++ configCommands config
                                ++ ["exit"; "disable"]).
Proof.
  intros Hc Hs Hlen Hfr Hacc.
  destruct (ExecAll_serves ctx rest
              (["enable"; "configure"] ++ configCommands config
               ++ ["exit"; "disable"]) rs c nc Hc Hs)
    as (c' & nc' & Hall & Hc' & Hs'); [|exact Hfr|exact Hacc|].
  { rewrite Hlen. simpl. rewrite length_app. simpl. lia. }
  exists c', nc'.
  pose proof (ExecAll_sent _ _ _ _ Hall) as [_ Hsent].
  unfold sentOn in Hsent. rewrite Hc, Hc' in Hsent.
  split; [|auto].
  apply ExecAll_split in Hall as (c1 & H1 & Hall).
  apply ExecAll_split in Hall as (c2 & H2 & H3).
  unfold ApplyConfig, andThen.
  rewrite (forRange_modes _ _ _ _ H1).
  rewrite (forRange_lines _ _ _ _ H2).
  apply forRange_modes, H3.
Qed.

Lemma ApplyConfig_served_witness :
  exists c' nc',
    ApplyConfig noDeadline exampleConfig
      (bgpd ([[x00]; [x00; x00; x00]] ++ bytewise emptyOK
             ++ [emptyOK; emptyOK; emptyOK; emptyOK]))
    = (None, c') /\
    conn c' = Some nc' /\
    net.sent nc' = map wire ["enable"; "configure"; "router bgp 65000";
                             "neighbor 10.0.0.1 remote-as 65001";
                             "exit"; "disable"].
Proof.
  destruct (ApplyConfig_served noDeadline exampleConfig
              (bgpd ([[x00]; [x00; x00; x00]] ++ bytewise emptyOK
                     ++ [emptyOK; emptyOK; emptyOK; emptyOK]))
              (peer ([[x00]; [x00; x00; x00]] ++ bytewise emptyOK
                     ++ [emptyOK; emptyOK; emptyOK; emptyOK]))
              [([], Success); ([], Success); ([], Success); ([], Success);
               ([], Success); ([], Success)] [] eq_refl)
    as (c' & nc' & Hrun & Hc' & _ & Hsent).
  - split; [split; constructor|].
    exists [[[x00]; [x00; x00; x00]]; bytewise emptyOK; [emptyOK]; [emptyOK];
            [emptyOK]; [emptyOK]], [].
    split; [reflexivity|].
    repeat (constructor; [reflexivity|]). constructor.
  - rewrite exampleConfig_commands. reflexivity.
  - repeat (constructor;
            [split; [apply noMarkerRun_short; simpl; lia|discriminate]|]).
    constructor.
  - repeat (constructor; [simpl; auto|]). constructor.
  - exists c', nc'. split; [exact Hrun|]. split; [exact Hc'|].
    rewrite Hsent, exampleConfig_commands. reflexivity.
Defined.

(** Where a loop over commands fails: at the first command that fails,
    with an error that wraps the failure; the commands before it have
    succeeded. *)
Lemma forRange_modes_fail ctx cmds c err c' :
  forRange cmds (runModeCommand ctx) c = (Some err, c') ->
  exists pre cmd post c0 r e,
    cmds = pre ++ cmd :: post /\ ExecAll ctx pre c c0 /\
    Execute ctx cmd c0 = ((r, Some e), c') /\ Is err e.
Proof.
  revert c. induction cmds as [|cmd cmds IH]; simpl; intros c H;
    [discriminate H|].
  unfold andThen, runModeCommand at 1 in H.
  destruct (Execute ctx cmd c) as [[r [e|]] c1] eqn:Hex.
  - injection H as <- <-. exists [], cmd, cmds, c, r, e.
    split; [reflexivity|]. split; [apply ExecAll_nil|]. split; [exact Hex|].
    wraps.
  - destruct (IH _ H) as (pre & cmd' & post & c0 & r' & e & -> & Hpre & Hfail).
    exists (cmd :: pre), cmd', post, c0, r', e.
    split; [reflexivity|]. split; [|exact Hfail].
    eapply ExecAll_cons; eassumption.
Qed.

Lemma forRange_lines_fail ctx raw c err c' :
  forRange raw (runConfigLine ctx) c = (Some err, c') ->
  exists pre cmd post c0 r e,
    map string_of_bytes
        (filter (fun line => line <> []) (map bytes.TrimSpace raw))
    = pre ++ cmd :: post /\
    ExecAll ctx pre c c0 /\
    Execute ctx cmd c0 = ((r, Some e), c') /\ Is err e.
Proof.
  revert c. induction raw as [|line raw IH]; simpl; intros c H;
    [discriminate H|].
  unfold andThen, runConfigLine at 1 in H. rewrite filter_cons.
  destruct (bytes.TrimSpace line) as [|b l] eqn:Ht.
  - rewrite decide_False by (intros Hne; apply Hne; reflexivity).
    apply IH, H.
  - rewrite decide_True by discriminate.
    change (len (b :: l) =? 0)%Z with false in H. cbv iota in H.
    destruct (Execute ctx (string_of_bytes (b :: l)) c)
      as [[r [e|]] c1] eqn:Hex.
    + injection H as <- <-.
      eexists [], (string_of_bytes (b :: l)), _, c, r, e.
      split; [reflexivity|]. split; [apply ExecAll_nil|]. split; [exact Hex|].
      wraps.
    + destruct (IH _ H) as (pre & cmd' & post & c0 & r' & e & Heq & Hpre & Hfail).
      exists (string_of_bytes (b :: l) :: pre), cmd', post, c0, r', e.
      split; [simpl; rewrite Heq; reflexivity|]. split; [|exact Hfail].
      eapply ExecAll_cons; eassumption.
Qed.

(** X8. Whenever [ApplyConfig] returns an error, one of its commands -
    [enable], [configure], a line of the configuration, [exit] or
    [disable] - has failed in [Execute]; the commands before it have
    succeeded, in their order; the error wraps the error of that
    [Execute], so [errors.Is] finds [ErrNotAcceptableStatusCode],
    [ErrConnNotEstab] or the failure of the transport through it; and the
    connection is as the failing [Execute] left it: no command after it
    is run, the modes entered are not left. *)
Theorem ApplyConfig_failure (ctx : Context) (config : list byte)
  (c : Connection) (err : error) (c' : Connection) :
  ApplyConfig ctx config c = (Some err, c') ->
  exists pre cmd post c0 r e,
    ["enable"; "configure"] ++ configCommands config ++ ["exit"; "disable"]
    = pre ++ cmd :: post /\
    ExecAll ctx pre c c0 /\
    Execute ctx cmd c0 = ((r, Some e), c') /\
    Is err e.
Proof.
  unfold ApplyConfig, andThen. intros H.
  destruct (forRange ["enable"; "configure"] (runModeCommand ctx) c)
    as [[e1|] c1] eqn:H1.
  { injection H as <- <-.
    destruct (forRange_modes_fail _ _ _ _ _ H1)
      as (pre & cmd & post & c0 & r & e & Heq & Hpre & Hfail).
    exists pre, cmd, (post ++ configCommands config ++ ["exit"; "disable"]),
      c0, r, e.
    split; [|auto]. rewrite Heq, <- app_assoc. reflexivity. }
  apply forRange_modes_inv in H1.
  destruct (forRange (bytes.Split config (bytes_of_string NL))
              (runConfigLine ctx) c1) as [[e2|] c2] eqn:H2.
  { injection H as <- <-.
    destruct (forRange_lines_fail _ _ _ _ _ H2)
      as (pre & cmd & post & c0 & r & e & Heq & Hpre & Hfail).
    exists (["enable"; "configure"] ++ pre), cmd, (post ++ ["exit"; "disable"]),
      c0, r, e.
    split; [|split; [eapply ExecAll_app; eassumption|exact Hfail]].
    unfold configCommands, configLines. rewrite Heq, <- !app_assoc.
    reflexivity. }
  apply forRange_lines_inv in H2.
  destruct (forRange_modes_fail _ _ _ _ _ H)
    as (pre & cmd & post & c0 & r & e & Heq & Hpre & Hfail).
  exists (["enable"; "configure"] ++ configCommands config ++ pre), cmd, post,
    c0, r, e.
  split; [|split; [|exact Hfail]].
  - rewrite Heq, <- !app_assoc. reflexivity.
  - eapply ExecAll_app; [exact H1|]. eapply ExecAll_app; [exact H2|exact Hpre].
Qed.

Lemma ApplyConfig_failure_witness :
  exists pre cmd post c0 r e,
    ["enable"; "configure"] ++ configCommands exampleConfig
    ++ ["exit"; "disable"] = pre ++ cmd :: post /\
    ExecAll noDeadline pre
      (bgpd [emptyOK; encodeResponse [] ErrAmbiguous]) c0 /\
    Execute noDeadline cmd c0
    = ((r, Some e),
       snd (ApplyConfig noDeadline exampleConfig
              (bgpd [emptyOK; encodeResponse [] ErrAmbiguous]))) /\
    Is (fmt_Errorf "could not run %s command: %w"
          [opString "configure";
           opError (statusRejected "configure"
                      (bgpd [emptyOK; encodeResponse [] ErrAmbiguous])
                      ErrAmbiguous)]) e.
Proof.
  apply (ApplyConfig_failure noDeadline exampleConfig
           (bgpd [emptyOK; encodeResponse [] ErrAmbiguous])).
  vm_compute. reflexivity.
Defined.

(** *** Lines *)

(** The text of [ls] holds one newline for each line. *)
Lemma countLoop_unlines ls : forall rounds n,
  Forall (fun l => ~ In x0a l) ls -> (length ls <= rounds)%nat ->
  bytes.countLoop rounds (unlines ls) [x0a] n = (n + length ls)%nat.
Proof.
  induction ls as [|l ls IH]; intros rounds n Hls Hr.
  - destruct rounds; simpl; lia.
  - apply Forall_cons in Hls as [Hl Hls].
    destruct rounds as [|rounds]; [simpl in Hr; lia|].
    unfold unlines. cbn [map concat]. fold (unlines ls).
    rewrite <- app_assoc. cbn [app bytes.countLoop].
    rewrite (Index_byte_first x0a l (unlines ls) Hl).
    destruct (Z.ltb_spec (len l) 0) as [Hneg|_]; [unfold len in Hneg; lia|].
    rewrite skipn_line, IH by (auto; simpl in Hr; lia). simpl. lia.
Qed.

Lemma length_unlines ls : (length ls <= length (unlines ls))%nat.
Proof.
  induction ls as [|l ls IH]; [simpl; lia|].
  unfold unlines in *. cbn [map concat]. rewrite !length_app. simpl. lia.
Qed.

Lemma genSplit_unlines ls :
  Forall (fun l => ~ In x0a l) ls ->
  bytes.genSplit (length ls) (unlines ls) [x0a] = ls ++ [[]].
Proof.
  induction ls as [|l ls IH]; intros Hls; [reflexivity|].
  apply Forall_cons in Hls as [Hl Hls].
  unfold unlines. cbn [map concat length]. fold (unlines ls).
  rewrite <- app_assoc. cbn [app bytes.genSplit].
  rewrite (Index_byte_first x0a l (unlines ls) Hl).
  destruct (Z.ltb_spec (len l) 0) as [Hneg|_]; [unfold len in Hneg; lia|].
  rewrite skipn_line, firstn_line, (IH Hls). reflexivity.
Qed.

(** [bytes.Split] gives back the lines of a text, and the empty rest
    after the last newline. *)
Lemma Split_unlines ls :
  Forall (fun l => ~ In x0a l) ls ->
  bytes.Split (unlines ls) (bytes_of_string NL) = ls ++ [[]].
Proof.
  intros Hls. unfold bytes.Split, bytes.Count.
  change (bytes_of_string NL) with [x0a].
  rewrite (countLoop_unlines ls _ 0 Hls (length_unlines ls)).
  apply genSplit_unlines, Hls.
Qed.

(** The commands of a text of command lines are these lines. *)
Lemma configLines_unlines ls :
  Forall commandLine ls -> configLines (unlines ls) = ls.
Proof.
  intros Hls. unfold configLines. rewrite Split_unlines.
  2: { eapply Forall_impl; [exact Hls|]. intros l H. apply H. }
  rewrite map_app. cbn [map].
  change (bytes.TrimSpace []) with (@nil byte).
  rewrite filter_app. cbn. rewrite app_nil_r.
  induction Hls as [|l ls (Hne & _ & Htrim) _ IH]; [reflexivity|].
  cbn [map]. rewrite filter_cons, Htrim, decide_True by exact Hne.
  f_equal. exact IH.
Qed.

(** X9. The lines of a configuration text come back as the commands: for
    a text made of command lines (not empty, without a newline, with no
    white space at either end), each followed by a newline,
    [ApplyConfig] returns nil exactly when [enable], [configure], these
    lines, [exit] and [disable] all succeed executed in this order; then
    it has written these commands, one per line, and nothing for the
    empty rest after the last newline. *)
Theorem ApplyConfig_unlines (ctx : Context) (ls : list (list byte))
  (c c' : Connection) :
  Forall commandLine ls ->
  (ApplyConfig ctx (unlines ls) c = (None, c') <->
   ExecAll ctx (["enable"; "configure"] ++ map string_of_bytes ls
                ++ ["exit"; "disable"]) c c') /\
  (ApplyConfig ctx (unlines ls) c = (None, c') ->
   sentOn c' = sentOn c ++ map wire (["enable"; "configure"]
                                     ++ map string_of_bytes ls
                                     ++ ["exit"; "disable"])).
Proof.
  intros Hls.
  assert (Hcmds : configCommands (unlines ls) = map string_of_bytes ls)
    by (unfold configCommands; rewrite (configLines_unlines ls Hls);
        reflexivity).
  assert (Hinv : ApplyConfig ctx (unlines ls) c = (None, c') ->
                 ExecAll ctx (["enable"; "configure"] ++ map string_of_bytes ls
                              ++ ["exit"; "disable"]) c c').
  { intros H. rewrite <- Hcmds. apply ApplyConfig_nil_inv, H. }
  split; [split; [exact Hinv|]|].
  - intros H. rewrite <- Hcmds in H.
    apply ExecAll_split in H as (c1 & H1 & H).
    apply ExecAll_split in H as (c2 & H2 & H3).
    unfold ApplyConfig, andThen.
    rewrite (forRange_modes _ _ _ _ H1).
    rewrite (forRange_lines _ _ _ _ H2).
    apply forRange_modes, H3.
  - intros H. eapply ExecAll_sent, Hinv, H.
Qed.

Lemma ApplyConfig_unlines_witness :
  sentOn (snd (ApplyConfig noDeadline
                 (unlines [bytes_of_string "router bgp 65000";
                           bytes_of_string "no bgp default ipv4-unicast"])
                 (bgpd [emptyOK; emptyOK; emptyOK; emptyOK; emptyOK; emptyOK])))
  = map wire ["enable"; "configure"; "router bgp 65000";
              "no bgp default ipv4-unicast"; "exit"; "disable"].
Proof.
  refine (proj2 (ApplyConfig_unlines noDeadline
                   [bytes_of_string "router bgp 65000";
                    bytes_of_string "no bgp default ipv4-unicast"]
                   (bgpd [emptyOK; emptyOK; emptyOK; emptyOK; emptyOK; emptyOK])
                   _ _) _).
  - repeat (constructor;
            [split; [discriminate|]; split; [|vm_compute; reflexivity];
             simpl; intros H; repeat (destruct H as [H|H]; [discriminate H|]);
             exact H|]).
    constructor.
  - vm_compute. reflexivity.
Defined.

(** *** ShowRunningConfig *)

(** X10. End to end: on a connection with a healthy transport whose
    daemon answers [enable], [do write terminal] and [disable] with
    responses of accepted status, in whatever chunks, the plaintext of
    each of the three being one that the framing can carry - no run of
    three zero bytes in it and no zero byte at its end -
    [ShowRunningConfig] returns the plaintext of the second response -
    the answer to [do write terminal] - and no error; the three commands
    are on the wire in this order, and what the daemon sends after the
    third response is still to be read. *)
Theorem ShowRunningConfig_served (ctx : Context) (c : Connection)
  (nc : net.Conn) (r1 r2 r3 : list byte * StatusCode)
  (rest : list (list byte * StatusCode)) :
  conn c = Some nc ->
  serves nc (r1 :: r2 :: r3 :: rest) ->
  framable (fst r1) -> framable (fst r2) -> framable (fst r3) ->
  In (snd r1) acceptedCodes -> In (snd r2) acceptedCodes ->
  In (snd r3) acceptedCodes ->
  exists c' nc',
    ShowRunningConfig ctx c = ((fst r2, None), c') /\
    conn c' = Some nc' /\ socketPath c' = socketPath c /\ serves nc' rest /\
    net.sent nc' = net.sent nc
                   ++ map wire ["enable"; "do write terminal"; "disable"].
Proof.
  destruct r1 as [P1 s1], r2 as [P2 s2], r3 as [P3 s3]. simpl.
  intros Hc Hs F1 F2 F3 H1 H2 H3.
  destruct (Execute_serves ctx "enable" c nc P1 s1 _ Hc Hs F1)
    as (c1 & nc1 & _ & Hex1 & _ & Hc1 & Hp1 & Hsent1 & Hs1).
  destruct (Execute_serves ctx "do write terminal" c1 nc1 P2 s2 _ Hc1 Hs1 F2)
    as (c2 & nc2 & _ & Hex2 & _ & Hc2 & Hp2 & Hsent2 & Hs2).
  destruct (Execute_serves ctx "disable" c2 nc2 P3 s3 _ Hc2 Hs2 F3)
    as (c3 & nc3 & _ & Hex3 & _ & Hc3 & Hp3 & Hsent3 & Hs3).
  exists c3, nc3. unfold ShowRunningConfig.
  rewrite (Hex1 H1), (Hex2 H2), (Hex3 H3).
  split; [reflexivity|]. split; [exact Hc3|]. split; [congruence|].
  split; [exact Hs3|].
  rewrite Hsent3, Hsent2, Hsent1, <- !app_assoc. reflexivity.
Qed.

Lemma ShowRunningConfig_served_witness :
  exists c' nc',
    ShowRunningConfig noDeadline
      (answering "/run/frr/zebra.vty" ("ip forwarding" ++ NL))
    = ((bytes_of_string ("ip forwarding" ++ NL), None), c') /\
    conn c' = Some nc' /\
    net.sent nc' = map wire ["enable"; "do write terminal"; "disable"].
Proof.
  destruct (ShowRunningConfig_served noDeadline
              (answering "/run/frr/zebra.vty" ("ip forwarding" ++ NL))
              (peer [emptyOK;
                     encodeResponse (bytes_of_string ("ip forwarding" ++ NL))
                                    Success;
                     emptyOK])
              ([], Success)
              (bytes_of_string ("ip forwarding" ++ NL), Success)
              ([], Success) [] eq_refl)
    as (c' & nc' & Hrun & Hc' & _ & _ & Hsent).
  - split; [split; constructor|].
    exists [[emptyOK];
            [encodeResponse (bytes_of_string ("ip forwarding" ++ NL)) Success];
            [emptyOK]], [].
    split; [reflexivity|].
    repeat (constructor; [reflexivity|]). constructor.
  - split; [apply noMarkerRun_short; simpl; lia|discriminate].
  - split; [apply Index_noMarkerRun; reflexivity|discriminate].
  - split; [apply noMarkerRun_short; simpl; lia|discriminate].
  - simpl. auto.
  - simpl. auto.
  - simpl. auto.
  - exists c', nc'. auto.
Defined.

(** X11. Whenever [ShowRunningConfig] returns an error it returns no
    configuration with it, not even a part; one of [enable],
    [do write terminal], [disable] has failed in [Execute] after the
    commands before it had succeeded; the error wraps the error of that
    [Execute]; and the connection is as the failing [Execute] left it -
    after a failure of [do write terminal] no [disable] is sent. *)
Theorem ShowRunningConfig_failure (ctx : Context) (c : Connection)
  (resp : list byte) (err : error) (c' : Connection) :
  ShowRunningConfig ctx c = ((resp, Some err), c') ->
  resp = [] /\
  exists pre cmd post c0 r e,
    ["enable"; "do write terminal"; "disable"] = pre ++ cmd :: post /\
    ExecAll ctx pre c c0 /\
    Execute ctx cmd c0 = ((r, Some e), c') /\
    Is err e.
Proof.
  unfold ShowRunningConfig.
  destruct (Execute ctx "enable" c) as [[r1 [e1|]] c1] eqn:H1.
  { intros [= <- <- <-]. split; [reflexivity|].
    exists [], "enable", ["do write terminal"; "disable"], c, r1, e1.
    split; [reflexivity|]. split; [apply ExecAll_nil|]. split; [exact H1|].
    wraps. }
  destruct (Execute ctx "do write terminal" c1) as [[r2 [e2|]] c2] eqn:H2.
  { intros [= <- <- <-]. split; [reflexivity|].
    exists ["enable"], "do write terminal", ["disable"], c1, r2, e2.
    split; [reflexivity|]. split; [eauto with gofrr|]. split; [exact H2|].
    wraps. }
  destruct (Execute ctx "disable" c2) as [[r3 [e3|]] c3] eqn:H3;
    [|discriminate].
  intros [= <- <- <-]. split; [reflexivity|].
  exists ["enable"; "do write terminal"], "disable", [], c2, r3, e3.
  split; [reflexivity|]. split; [eauto with gofrr|]. split; [exact H3|].
  wraps.
Qed.

Lemma ShowRunningConfig_failure_witness :
  fst (fst (ShowRunningConfig noDeadline
              (bgpd [emptyOK; encodeResponse [x3f] ErrNoMatch]))) = [] /\
  exists pre cmd post c0 r e,
    ["enable"; "do write terminal"; "disable"] = pre ++ cmd :: post /\
    ExecAll noDeadline pre
      (bgpd [emptyOK; encodeResponse [x3f] ErrNoMatch]) c0 /\
    Execute noDeadline cmd c0
    = ((r, Some e),
       snd (ShowRunningConfig noDeadline
              (bgpd [emptyOK; encodeResponse [x3f] ErrNoMatch]))) /\
    Is (fmt_Errorf
          "show running config `do write terminal` command, resp: %s, err: %w"
          [opBytes [x3f];
           opError (statusRejected "do write terminal"
                      (bgpd [emptyOK; encodeResponse [x3f] ErrNoMatch])
                      ErrNoMatch)]) e.
Proof.
  apply (ShowRunningConfig_failure noDeadline
           (bgpd [emptyOK; encodeResponse [x3f] ErrNoMatch])).
  vm_compute. reflexivity.
Defined.

(** *** Without a transport *)

(** X12. On a connection without transport [readResponse],
    [ApplyConfig] and [ShowRunningConfig] return an error through which
    [errors.Is] finds [ErrConnNotEstab], however it is wrapped, and leave
    the connection as it is; [ShowRunningConfig] returns no bytes. *)
Theorem helpers_unconnected (ctx : Context) (c : Connection) :
  conn c = None ->
  (exists err, readResponse c = (mkResponse [] Success (Some err), c) /\
               Is err ErrConnNotEstab) /\
  (forall config,
      exists err, ApplyConfig ctx config c = (Some err, c) /\
                  Is err ErrConnNotEstab) /\
  (exists err, ShowRunningConfig ctx c = (([], Some err), c) /\
               Is err ErrConnNotEstab).
Proof.
  intros Hc.
  assert (Hex : forall cmd,
             Execute ctx cmd c =
             (([], Some (fmt_Errorf "%w %s" [opError ErrConnNotEstab;
                                             opString (socketPath c)])), c))
    by (intros cmd; unfold Execute; rewrite Hc; reflexivity).
  split; [|split].
  - unfold readResponse. rewrite Hc. eexists. split; [reflexivity|]. wraps.
  - intros config. unfold ApplyConfig, andThen. simpl.
    unfold andThen, runModeCommand at 1. rewrite Hex.
    eexists. split; [reflexivity|].
    eapply Is_wrapped; [simpl; auto|]. wraps.
  - unfold ShowRunningConfig. rewrite Hex.
    eexists. split; [reflexivity|].
    eapply Is_wrapped; [simpl; auto|]. wraps.
Qed.

Lemma helpers_unconnected_witness :
  exists err,
    ApplyConfig noDeadline exampleConfig (NewConnection "/run/frr/bgpd.vty")
    = (Some err, NewConnection "/run/frr/bgpd.vty") /\
    Is err ErrConnNotEstab.
Proof.
  apply (proj1 (proj2 (helpers_unconnected noDeadline
                         (NewConnection "/run/frr/bgpd.vty") eq_refl))).
Defined.

(** ** More on Connect and Close *)

(** X13. The life of a connection. [Connect] on a connection without
    transport dials its socket path: when the dial fails, the error of the
    dialer comes back as it is and the connection is unchanged; when it
    succeeds, the connection holds the transport of the listener, under
    the same path, and a [Close] after it - whether the close of the
    transport fails or not - gives back the connection as it was before
    [Connect], on which [Execute] fails with [ErrConnNotEstab]. *)
Theorem Connect_Close_lifecycle (ctx : Context) (c : Connection)
  (nw : net.Network) :
  conn c = None ->
  net.dialed (snd (Connect ctx c nw)) = net.dialed nw ++ [socketPath c] /\
  (forall e, net.listeners nw (socketPath c) = inr e ->
             fst (Connect ctx c nw) = (Some e, c)) /\
  (forall nc, net.listeners nw (socketPath c) = inl nc ->
     exists c1,
       fst (Connect ctx c nw) = (None, c1) /\
       conn c1 = Some nc /\ socketPath c1 = socketPath c /\
       snd (Close c1) = c /\
       (forall cmd, exists err,
           Execute ctx cmd (snd (Close c1)) = (([], Some err), c) /\
           Is err ErrConnNotEstab)).
Proof.
  intros Hc. unfold Connect, net.DialContext.
  assert (Heta : with_conn c None = c)
    by (destruct c; simpl in *; subst; reflexivity).
  split; [destruct (net.listeners nw (socketPath c)); reflexivity|].
  split.
  - intros e ->. reflexivity.
  - intros nc ->. exists (with_conn c (Some nc)).
    split; [reflexivity|]. split; [reflexivity|]. split; [reflexivity|].
    assert (Hclose : snd (Close (with_conn c (Some nc))) = c).
    { rewrite (Close_connected (with_conn c (Some nc)) nc eq_refl).
      exact Heta. }
    split; [exact Hclose|].
    intros cmd. rewrite Hclose. unfold Execute. rewrite Hc.
    eexists. split; [reflexivity|]. wraps.
Qed.

Lemma Connect_Close_lifecycle_witness :
  exists c1,
    fst (Connect noDeadline (NewConnection "/run/frr/bgpd.vty")
           (net.mkNetwork exampleListeners [])) = (None, c1) /\
    conn c1 = Some (peer []) /\
    snd (Close c1) = NewConnection "/run/frr/bgpd.vty".
Proof.
  destruct (proj2 (proj2 (Connect_Close_lifecycle noDeadline
                            (NewConnection "/run/frr/bgpd.vty")
                            (net.mkNetwork exampleListeners []) eq_refl))
              (peer []) eq_refl)
    as (c1 & Hrun & Hc1 & _ & Hclose & _).
  exists c1. auto.
Defined.

(** ** More on the sockets *)

(** X14. [NewSockets] makes four new connection objects, for
    [bgpd.vty], [bfdd.vty], [mgmtd.vty] and [zebra.vty] under the run
    directory, none with a transport, and lists them in this order; the
    objects that were there are as they were, no socket is dialled and no
    file is touched; the container keeps the path of the configuration
    file it was given. It cannot fail. *)
Theorem NewSockets_fresh (filepath_Join : string -> string -> string)
  (frrConfigPath0 frrRunDir : string) (w : World) :
  exists s w',
    NewSockets filepath_Join frrConfigPath0 frrRunDir w = Some (s, w') /\
    Sockets_wf s w' /\
    heap w' = heap w
              ++ map (fun name => NewConnection (filepath_Join frrRunDir name))
                     [bgpSocketName; bfdSocketName; mgmtSocketName;
                      zebraSocketName] /\
    map (fun p => heap w' !! p) (allConnections s)
    = map (fun name => Some (NewConnection (filepath_Join frrRunDir name)))
          [bgpSocketName; bfdSocketName; mgmtSocketName; zebraSocketName] /\
    network w' = network w /\ fs w' = fs w /\
    frrConfigPath s = frrConfigPath0.
Proof.
  unfold NewSockets, bind, alloc, ret. simpl.
  eexists _, _. split; [reflexivity|].
  unfold Sockets_wf. simpl.
  rewrite !length_app. simpl length.
  rewrite <- !app_assoc. simpl app.
  assert (Hk : forall k (l : list Connection),
             (heap w ++ l) !! (length (heap w) + k)%nat = l !! k)
    by (intros; rewrite lookup_app_r by lia; f_equal; lia).
  pose proof (Hk 0%nat) as H0. rewrite Nat.add_0_r in H0.
  pose proof (Hk 1%nat) as H1.
  pose proof (Hk 2%nat) as H2.
  pose proof (Hk 3%nat) as H3.
  replace (length (heap w) + 1 + 1)%nat with (length (heap w) + 2)%nat by lia.
  replace (length (heap w) + 2 + 1)%nat with (length (heap w) + 3)%nat by lia.
  rewrite H0, H1, H2, H3. simpl.
  repeat split.
  - repeat (apply NoDup_cons_2;
            [rewrite ?not_elem_of_cons; repeat split; try lia; apply not_elem_of_nil|]).
    apply NoDup_nil_2.
  - repeat (apply Forall_cons_2; [rewrite ?H0, ?H1, ?H2, ?H3; eauto|]).
    apply Forall_nil_2.
Qed.

(** The pointers of a well-formed container are four different ones. *)
Lemma Sockets_wf_in s w :
  Sockets_wf s w ->
  bgpConn s ∈ allConnections s /\ bfdConn s ∈ allConnections s /\
  mgmtConn s ∈ allConnections s /\ zebraConn s ∈ allConnections s.
Proof.
  intros (-> & _ & _). rewrite !elem_of_cons. auto 10.
Qed.

Lemma Sockets_wf_same s w w' :
  Sockets_wf s w -> sameSockets w w' -> Sockets_wf s w'.
Proof.
  intros (Hall & Hnd & Halloc) Hs. split; [exact Hall|]. split; [exact Hnd|].
  eapply sameSockets_allocated; eassumption.
Qed.

Lemma Sockets_wf_lookup s w p :
  Sockets_wf s w -> p ∈ allConnections s -> is_Some (heap w !! p).
Proof.
  intros (_ & _ & Halloc) Hin.
  apply (proj1 (Forall_forall _ _) Halloc p Hin).
Qed.

(** A call on an allocated connection runs the method on it alone. *)
Lemma call_runsOn {A} p (method : Connection -> A * Connection) w :
  is_Some (heap w !! p) -> runsOn (call p method) p method w.
Proof.
  intros [c Hc]. unfold runsOn, call. rewrite Hc.
  exists c, (mkWorld (<[p := snd (method c)]> (heap w)) (network w) (fs w)).
  split; [reflexivity|]. split; [destruct (method c); reflexivity|]. simpl.
  split; [apply list_lookup_insert_eq; eapply lookup_lt_Some; eassumption|].
  split; [reflexivity|]. split; [reflexivity|].
  intros q Hq. apply list_lookup_insert_ne. congruence.
Qed.

(** X15. Each method of the container that stands for one daemon runs
    the method of [Connection] on the connection of that daemon and
    returns its result: [ExecuteBGP], [ApplyBGPConfig] and
    [ShowRunningConfigBGP] on the bgp connection, [ExecuteMgmt],
    [ApplyMgmtConfig] and [ShowRunningConfigMgmt] on the mgmt connection,
    [ExecuteZebra] on the zebra connection. The three other connections,
    the network and the files are as they were. *)
Theorem Sockets_methods_route (s : Sockets) (ctx : Context) (w : World) :
  Sockets_wf s w ->
  (forall cmd, runsOn (ExecuteBGP s ctx cmd) (bgpConn s) (Execute ctx cmd) w) /\
  (forall cmd, runsOn (ExecuteMgmt s ctx cmd) (mgmtConn s) (Execute ctx cmd) w) /\
  (forall cmd,
      runsOn (ExecuteZebra s ctx cmd) (zebraConn s) (Execute ctx cmd) w) /\
  (forall config,
      runsOn (ApplyBGPConfig s ctx config) (bgpConn s)
             (ApplyConfig ctx config) w) /\
  (forall config,
      runsOn (ApplyMgmtConfig s ctx config) (mgmtConn s)
             (ApplyConfig ctx config) w) /\
  runsOn (ShowRunningConfigBGP s ctx) (bgpConn s) (ShowRunningConfig ctx) w /\
  runsOn (ShowRunningConfigMgmt s ctx) (mgmtConn s) (ShowRunningConfig ctx) w /\
  NoDup [bgpConn s; bfdConn s; mgmtConn s; zebraConn s].
Proof.
  intros Hwf. destruct (Sockets_wf_in s w Hwf) as (Hb & _ & Hm & Hz).
  pose proof (Sockets_wf_lookup s w _ Hwf Hb) as Hbgp.
  pose proof (Sockets_wf_lookup s w _ Hwf Hm) as Hmgmt.
  pose proof (Sockets_wf_lookup s w _ Hwf Hz) as Hzebra.
  repeat split; try (intros x); try (apply call_runsOn; assumption).
  destruct Hwf as (Hall & Hnd & _). rewrite <- Hall. exact Hnd.
Qed.

Lemma Sockets_methods_route_witness :
  runsOn (ExecuteZebra exampleSockets noDeadline "show interface")
         3 (Execute noDeadline "show interface") upWorld.
Proof.
  apply (proj1 (proj2 (proj2 (Sockets_methods_route exampleSockets noDeadline
                                upWorld exampleSockets_wf_up)))).
Defined.

(** *** Close and Connect of the container *)

(** Storing at [p] changes no close failure and no listener of the
    connections at other pointers. *)
Lemma closeFails_store w p c' q e :
  q <> p -> closeFails w q e ->
  closeFails (mkWorld (<[p := c']> (heap w)) (network w) (fs w)) q e.
Proof.
  intros Hne (c & nc & Hc & Hconn & Hf). exists c, nc. simpl.
  rewrite list_lookup_insert_ne by congruence. auto.
Qed.

(** The errors of the loop of [Sockets.Close]: it carries every close
    failure of the connections of the list, and there is none when
    nothing fails. *)
Lemma closeAll_errors ps :
  NoDup ps ->
  forall err w,
    Forall (fun p => is_Some (heap w !! p)) ps ->
    exists err' w',
      joinEach ps (fun c => call c Close) err w = Some (err', w') /\
      (forall t, carries err t -> carries err' t) /\
      (forall p e, p ∈ ps -> closeFails w p e -> carries err' e) /\
      (err = None -> (forall p e, p ∈ ps -> ~ closeFails w p e) ->
       err' = None).
Proof.
  induction 1 as [|p ps Hnot Hnd IH]; intros err w Halloc.
  - exists err, w. split; [reflexivity|]. split; [auto|]. split; [|auto].
    intros p e Hin. apply elem_of_nil in Hin. destruct Hin.
  - apply Forall_cons in Halloc as [[c Hc] Halloc].
    destruct (call_spec p Close w c Hc (Close_socketPath c)) as [Hcall Hs1].
    set (w1 := mkWorld (<[p := snd (Close c)]> (heap w)) (network w) (fs w))
      in *.
    destruct (IH (errors_Join [err; fst (Close c)]) w1
                (sameSockets_allocated _ _ _ Hs1 Halloc))
      as (err' & w' & Hloop & Hkeep & Hfail & Hnone).
    exists err', w'. cbn [joinEach]. unfold bind. rewrite Hcall.
    split; [exact Hloop|].
    split; [intros t Ht; apply Hkeep, carries_Join_l, Ht|].
    split.
    + intros q e Hin Hq. apply elem_of_cons in Hin as [->|Hin].
      * destruct Hq as (c0 & nc & Hc0 & Hconn & Hf).
        rewrite Hc in Hc0. injection Hc0 as <-.
        apply Hkeep, carries_Join_r.
        rewrite (Close_connected c nc Hconn), Hf. simpl.
        eexists. split; [reflexivity|]. wraps.
      * apply (Hfail q e Hin). apply closeFails_store; [|exact Hq].
        intros ->. exact (Hnot Hin).
    + intros -> Hok. apply Hnone.
      * destruct (conn c) as [nc|] eqn:Hconn.
        -- rewrite (Close_connected c nc Hconn).
           destruct (net.closeFault nc) as [e|] eqn:Hf; [|reflexivity].
           exfalso. apply (Hok p e); [apply elem_of_cons; auto|].
           exists c, nc. auto.
        -- rewrite (Close_unconnected c Hconn). reflexivity.
      * intros q e Hin (c0 & nc & Hc0 & Hconn & Hf).
        apply (Hok q e); [apply elem_of_cons; auto|].
        exists c0, nc. simpl in Hc0.
        rewrite list_lookup_insert_ne in Hc0
          by (intros ->; exact (Hnot Hin)).
        auto.
Qed.

(** X16. [Sockets.Close] closes all four connections, whatever fails on
    the way: each of them ends without transport; the error it returns
    carries the failure of every close that failed, and is nil when none
    did. It dials nothing and touches no file. *)
Theorem Sockets_Close_all (s : Sockets) (w : World) :
  Sockets_wf s w ->
  exists err w',
    Sockets_Close s w = Some (err, w') /\
    unconnected w' (bgpConn s) /\ unconnected w' (bfdConn s) /\
    unconnected w' (mgmtConn s) /\ unconnected w' (zebraConn s) /\
    (forall p e, p ∈ allConnections s -> closeFails w p e -> carries err e) /\
    ((forall p e, p ∈ allConnections s -> ~ closeFails w p e) -> err = None) /\
    network w' = network w /\ fs w' = fs w.
Proof.
  intros Hwf. pose proof Hwf as (Hall & Hnd & Halloc).
  destruct (closeAll_errors (allConnections s) Hnd None w Halloc)
    as (err & w' & Hloop & _ & Hfail & Hnone).
  destruct (closeAll_spec (allConnections s) None w Halloc)
    as (err2 & w2 & Hloop2 & _ & Hn & Hf & _ & Hun).
  rewrite Hloop in Hloop2. injection Hloop2 as <- <-.
  exists err, w'. split; [exact Hloop|].
  destruct (Sockets_wf_in s w Hwf) as (Hb & Hf' & Hm & Hz).
  repeat (split; [apply Hun; left; assumption|]).
  split; [exact Hfail|]. split; [apply Hnone; reflexivity|]. auto.
Qed.

Lemma Sockets_Close_all_witness :
  exists err w',
    Sockets_Close exampleSockets
      (mkWorld [bgpd []; NewConnection "/run/frr/bfdd.vty";
                bgpd [emptyOK]; brokenZebra]
               (net.mkNetwork exampleListeners []) (os.mkFS ∅ []))
    = Some (err, w') /\
    unconnected w' 0 /\ unconnected w' 1 /\ unconnected w' 2 /\
    unconnected w' 3 /\
    carries err (errors_New "bad file descriptor").
Proof.
  destruct (Sockets_Close_all exampleSockets
              (mkWorld [bgpd []; NewConnection "/run/frr/bfdd.vty";
                        bgpd [emptyOK]; brokenZebra]
                       (net.mkNetwork exampleListeners []) (os.mkFS ∅ [])))
    as (err & w' & Hrun & H0 & H1 & H2 & H3 & Hfail & _).
  - split; [reflexivity|]. split.
    + repeat (apply NoDup_cons_2;
              [rewrite ?not_elem_of_cons; repeat split;
               try discriminate; apply not_elem_of_nil|]).
      apply NoDup_nil_2.
    + repeat (apply Forall_cons_2; [eexists; reflexivity|]).
      apply Forall_nil_2.
  - exists err, w'. repeat (split; [assumption|]).
    apply (Hfail 3).
    + do 3 (apply elem_of_cons; right). apply elem_of_cons. left. reflexivity.
    + eexists _, _. repeat split.
Defined.

Lemma dialYields_store w p c' nw q nc :
  q <> p -> net.listeners nw = net.listeners (network w) ->
  dialYields w q nc ->
  dialYields (mkWorld (<[p := c']> (heap w)) nw (fs w)) q nc.
Proof.
  intros Hne Hl (c0 & Hc0 & Hy). exists c0. simpl.
  rewrite list_lookup_insert_ne by congruence. rewrite Hl. auto.
Qed.

(** The loop of [Sockets.Connect] when every dial succeeds: no error,
    and each connection holds the transport of its listener. *)
Lemma connectAll_ok ctx ps :
  NoDup ps ->
  forall w,
    (forall p, p ∈ ps -> exists nc, dialYields w p nc) ->
    exists w',
      joinEach ps (callConnect ctx) None w = Some (None, w') /\
      sameSockets w w' /\ fs w' = fs w /\
      net.dialed (network w') = net.dialed (network w) ++ pathsOf w ps /\
      (forall p c nc, p ∈ ps -> heap w !! p = Some c -> dialYields w p nc ->
                      heap w' !! p = Some (with_conn c (Some nc))) /\
      (forall q, q ∉ ps -> heap w' !! q = heap w !! q).
Proof.
  induction 1 as [|p ps Hnot Hnd IH]; intros w Hdial.
  - exists w. split; [reflexivity|]. split; [apply sameSockets_refl|].
    split; [reflexivity|]. split; [symmetry; apply app_nil_r|].
    split; [|auto]. intros p c nc Hin. apply elem_of_nil in Hin. destruct Hin.
  - destruct (Hdial p ltac:(apply elem_of_cons; auto)) as (nc & c & Hc & Hy).
    assert (Hcall : callConnect ctx p w
                    = Some (None,
                            mkWorld (<[p := with_conn c (Some nc)]> (heap w))
                                    (net.mkNetwork
                                       (net.listeners (network w))
                                       (net.dialed (network w)
                                        ++ [socketPath c]))
                                    (fs w))).
    { unfold callConnect, Connect, net.DialContext. rewrite Hc, Hy.
      reflexivity. }
    set (w1 := mkWorld _ _ _) in Hcall.
    assert (Hs1 : sameSockets w w1)
      by (eapply sameSockets_store; [exact Hc|reflexivity|reflexivity]).
    destruct (IH w1) as (w' & Hloop & Hs & Hf & Hd & Hconn & Hother).
    { intros q Hq. destruct (Hdial q ltac:(apply elem_of_cons; auto))
        as (ncq & Hyq).
      exists ncq. apply dialYields_store; [|reflexivity|exact Hyq].
      intros ->. exact (Hnot Hq). }
    exists w'. cbn [joinEach]. unfold bind. rewrite Hcall.
    split; [exact Hloop|]. split; [eapply sameSockets_trans; eassumption|].
    split; [rewrite Hf; reflexivity|].
    split.
    { rewrite Hd, (sameSockets_pathsOf _ _ _ Hs1), (pathsOf_cons _ _ _ _ Hc).
      simpl. rewrite <- app_assoc. reflexivity. }
    split.
    + intros q cq ncq Hin Hcq Hyq. apply elem_of_cons in Hin as [->|Hin].
      * rewrite Hother by exact Hnot. simpl.
        rewrite Hc in Hcq. injection Hcq as <-.
        destruct Hyq as (c0 & Hc0 & Hy0). rewrite Hc in Hc0.
        injection Hc0 as <-. rewrite Hy in Hy0. injection Hy0 as <-.
        apply list_lookup_insert_eq. eapply lookup_lt_Some; eassumption.
      * assert (Hne : q <> p) by (intros ->; exact (Hnot Hin)).
        apply (Hconn q cq ncq Hin).
        -- simpl. rewrite list_lookup_insert_ne by congruence. exact Hcq.
        -- apply dialYields_store; [exact Hne|reflexivity|exact Hyq].
    + intros q Hq. apply not_elem_of_cons in Hq as [Hne Hq].
      rewrite (Hother q Hq). simpl.
      apply list_lookup_insert_ne. congruence.
Qed.

(** X17. When a daemon listens on each of the four sockets,
    [Sockets.Connect] returns nil; it has dialled the four socket paths
    in the order bgp, bfd, mgmt, zebra; each connection holds the
    transport its dial yielded, and none has been closed; no file is
    touched. *)
Theorem Sockets_Connect_ok (s : Sockets) (ctx : Context) (w : World) :
  Sockets_wf s w ->
  (forall p, p ∈ allConnections s -> exists nc, dialYields w p nc) ->
  exists w',
    Sockets_Connect s ctx w = Some (None, w') /\
    net.dialed (network w')
    = net.dialed (network w)
      ++ pathsOf w [bgpConn s; bfdConn s; mgmtConn s; zebraConn s] /\
    (forall p c nc,
        p ∈ allConnections s -> heap w !! p = Some c -> dialYields w p nc ->
        heap w' !! p = Some (with_conn c (Some nc))) /\
    fs w' = fs w /\ Sockets_wf s w'.
Proof.
  intros Hwf Hdial. pose proof Hwf as (Hall & Hnd & _).
  destruct (connectAll_ok ctx (allConnections s) Hnd w Hdial)
    as (w' & Hloop & Hs & Hf & Hd & Hconn & _).
  exists w'. unfold Sockets_Connect, bind. rewrite Hloop.
  split; [reflexivity|]. split; [rewrite Hd, Hall; reflexivity|].
  split; [exact Hconn|]. split; [exact Hf|].
  eapply Sockets_wf_same; eassumption.
Qed.

Lemma Sockets_Connect_ok_witness :
  exists w',
    Sockets_Connect exampleSockets noDeadline
      (mkWorld (map NewConnection examplePaths)
               (net.mkNetwork (fun path => inl (peer [bytes_of_string path]))
                              [])
               (os.mkFS ∅ []))
    = Some (None, w') /\
    net.dialed (network w') = examplePaths /\
    heap w' !! 3
    = Some (mkConnection "/run/frr/zebra.vty"
              (Some (peer [bytes_of_string "/run/frr/zebra.vty"]))).
Proof.
  destruct (Sockets_Connect_ok exampleSockets noDeadline
              (mkWorld (map NewConnection examplePaths)
                 (net.mkNetwork (fun path => inl (peer [bytes_of_string path]))
                                [])
                 (os.mkFS ∅ [])))
    as (w' & Hrun & Hd & Hconn & _).
  - split; [reflexivity|]. split.
    + repeat (apply NoDup_cons_2;
              [rewrite ?not_elem_of_cons; repeat split;
               try discriminate; apply not_elem_of_nil|]).
      apply NoDup_nil_2.
    + repeat (apply Forall_cons_2; [eexists; reflexivity|]).
      apply Forall_nil_2.
  - intros p Hp. simpl in Hp. rewrite !elem_of_cons in Hp.
    destruct Hp as [->|[->|[->|[->|Hp]]]];
      [| | | |apply elem_of_nil in Hp; destruct Hp];
      eexists; eexists; split; reflexivity.
  - exists w'. split; [exact Hrun|]. split; [exact Hd|].
    apply (Hconn 3 (NewConnection "/run/frr/zebra.vty")).
    + do 3 (apply elem_of_cons; right). apply elem_of_cons. left. reflexivity.
    + reflexivity.
    + eexists. split; reflexivity.
Defined.

(** *** No panic *)

Lemma call_safe {A} s p (method : Connection -> A * Connection) w :
  Sockets_wf s w -> p ∈ allConnections s ->
  (forall c, socketPath (snd (method c)) = socketPath c) ->
  safe s (call p method) w.
Proof.
  intros Hwf Hin Hpath.
  destruct (Sockets_wf_lookup s w p Hwf Hin) as [c Hc].
  destruct (call_spec p method w c Hc (Hpath c)) as [Hcall Hs].
  eexists _, _. split; [exact Hcall|].
  split; [eapply Sockets_wf_same; eassumption|exact Hs].
Qed.

Lemma Execute_socketPath ctx cmd c :
  socketPath (snd (Execute ctx cmd c)) = socketPath c.
Proof. apply Execute_keeps. Qed.

Lemma ApplyConfig_socketPath ctx config c :
  socketPath (snd (ApplyConfig ctx config c)) = socketPath c.
Proof. apply ApplyConfig_keeps. Qed.

(** The loop of [DumpRunningConfig] on allocated connections. *)
Lemma dumpLoop_safe ctx ps :
  forall buf w,
    Forall (fun p => is_Some (heap w !! p)) ps ->
    exists r w', dumpLoop ctx ps buf w = Some (r, w') /\ sameSockets w w' /\
                 network w' = network w /\ fs w' = fs w.
Proof.
  induction ps as [|p ps IH]; intros buf w Halloc.
  - exists (inl buf), w. split; [reflexivity|].
    split; [apply sameSockets_refl|]. auto.
  - apply Forall_cons in Halloc as [[c Hc] Halloc].
    destruct (call_spec p (ShowRunningConfig ctx) w c Hc
                (ShowRunningConfig_socketPath ctx c)) as [Hcall Hs1].
    cbn [dumpLoop]. unfold bind at 1. rewrite Hcall.
    destruct (ShowRunningConfig ctx c) as [[resp [e|]] c1] eqn:Hshow;
      cbn [fst snd] in *.
    + eexists _, _. split; [reflexivity|]. split; [exact Hs1|]. auto.
    + assert (Hlt : p < length (heap w))
        by (eapply lookup_lt_Some; eassumption).
      unfold bind, deref. cbn [heap].
      rewrite list_lookup_insert_eq by exact Hlt.
      unfold Buffer_Write.
      destruct (IH ((buf ++ bytes_of_string ("! " ++ socketPath c1 ++ NL))
                    ++ resp)
                  (mkWorld (<[p := c1]> (heap w)) (network w) (fs w))
                  (sameSockets_allocated _ _ _ Hs1 Halloc))
        as (r & w' & Hloop & Hs & Hn & Hf).
      exists r, w'. split; [exact Hloop|].
      split; [eapply sameSockets_trans; eassumption|]. auto.
Qed.

(** X18. No method of a container as [NewSockets] makes it meets a nil
    or dangling pointer: each of them returns, keeps the container well
    formed - the same four connection objects, listed in the same order -
    and leaves every connection its socket path. *)
Theorem Sockets_safe (s : Sockets) (ctx : Context) (w : World) :
  Sockets_wf s w ->
  (forall cmd, safe s (ExecuteBFD s ctx cmd) w) /\
  (forall cmd, safe s (ExecuteBGP s ctx cmd) w) /\
  (forall cmd, safe s (ExecuteMgmt s ctx cmd) w) /\
  (forall cmd, safe s (ExecuteZebra s ctx cmd) w) /\
  (forall config, safe s (ApplyBGPConfig s ctx config) w) /\
  (forall config, safe s (ApplyMgmtConfig s ctx config) w) /\
  safe s (ShowRunningConfigBGP s ctx) w /\
  safe s (ShowRunningConfigMgmt s ctx) w /\
  safe s (Sockets_Connect s ctx) w /\
  safe s (Sockets_Close s) w /\
  (forall dstFile mode, safe s (DumpRunningConfig s ctx dstFile mode) w).
Proof.
  intros Hwf. destruct (Sockets_wf_in s w Hwf) as (Hb & _ & Hm & Hz).
  pose proof Hwf as (_ & _ & Halloc).
  repeat split;
    try (intros x; apply call_safe; auto using Execute_socketPath,
           ApplyConfig_socketPath);
    try (apply call_safe; auto using ShowRunningConfig_socketPath).
  - destruct (connectAll_spec ctx (allConnections s) None w Halloc)
      as (err1 & w1 & Hloop1 & Hs1 & _).
    unfold safe, Sockets_Connect, bind. rewrite Hloop1.
    destruct err1 as [e1|].
    + destruct (closeAll_spec (allConnections s) None w1
                  (sameSockets_allocated _ _ _ Hs1 Halloc))
        as (err2 & w2 & Hloop2 & Hs2 & _).
      unfold Sockets_Close. rewrite Hloop2. unfold ret.
      eexists _, _. split; [reflexivity|].
      pose proof (sameSockets_trans _ _ _ Hs1 Hs2) as Hs.
      split; [eapply Sockets_wf_same; eassumption|exact Hs].
    + eexists _, _. split; [reflexivity|].
      split; [eapply Sockets_wf_same; eassumption|exact Hs1].
  - destruct (closeAll_spec (allConnections s) None w Halloc)
      as (err & w' & Hloop & Hs & _).
    exists err, w'. split; [exact Hloop|].
    split; [eapply Sockets_wf_same; eassumption|exact Hs].
  - intros dstFile mode.
    destruct (dumpLoop_safe ctx (allConnections s) [] w Halloc)
      as (r & w1 & Hloop & Hs1 & _).
    unfold safe, DumpRunningConfig, bind. rewrite Hloop.
    destruct r as [buf|e]; unfold ret.
    + unfold onFiles.
      destruct (atomicWrite dstFile buf mode (fs w1)) as [[e|] fs1];
        (eexists _, _; split; [reflexivity|];
         assert (Hs : sameSockets w (mkWorld (heap w1) (network w1) fs1))
           by (destruct Hs1 as [H1 H2]; split; assumption);
         split; [eapply Sockets_wf_same; eassumption|exact Hs]).
    + eexists _, _. split; [reflexivity|].
      split; [eapply Sockets_wf_same; eassumption|exact Hs1].
Qed.

Lemma Sockets_safe_witness :
  safe exampleSockets
       (DumpRunningConfig exampleSockets noDeadline "/etc/frr/frr.conf"
                          DefaultFRRConfigPerm) downWorld.
Proof.
  apply (proj2 (proj2 (proj2 (proj2 (proj2 (proj2 (proj2 (proj2 (proj2 (proj2
           (Sockets_safe exampleSockets noDeadline downWorld
              exampleSockets_wf_down))))))))))).
Defined.

(** *** Where DumpRunningConfig stops *)

(** [errors.Is] looks through the whole chain. *)
Lemma Is_trans a b t : Is a b -> Is b t -> Is a t.
Proof.
  induction 1; intros Ht; [exact Ht| |]; eauto with gofrr.
Qed.

(** With an error [ShowRunningConfig] returns no bytes. *)
Lemma ShowRunningConfig_nil ctx c e :
  snd (fst (ShowRunningConfig ctx c)) = Some e ->
  fst (fst (ShowRunningConfig ctx c)) = [].
Proof.
  unfold ShowRunningConfig.
  destruct (Execute ctx "enable" c) as [[r1 [e1|]] c1]; [reflexivity|].
  destruct (Execute ctx "do write terminal" c1) as [[r2 [e2|]] c2];
    [reflexivity|].
  destruct (Execute ctx "disable" c2) as [[r3 [e3|]] c3];
    [reflexivity|discriminate].
Qed.

(** The loop of [DumpRunningConfig] at the first connection whose
    [ShowRunningConfig] fails. *)
Lemma dumpLoop_stops ctx post : forall pre cs buf w p c e0,
  NoDup (pre ++ p :: post) ->
  Forall2 (fun q c => heap w !! q = Some c) pre cs ->
  Forall (fun c => ~ showFails ctx c) cs ->
  heap w !! p = Some c ->
  snd (fst (ShowRunningConfig ctx c)) = Some e0 ->
  exists e w',
    dumpLoop ctx (pre ++ p :: post) buf w = Some (inr e, w') /\
    e = fmt_Errorf "show running config, resp: %s, err: %w"
                   [opBytes []; opError e0] /\
    heap w' !! p = Some (snd (ShowRunningConfig ctx c)) /\
    (forall q, q ∈ post -> heap w' !! q = heap w !! q) /\
    network w' = network w /\ fs w' = fs w.
Proof.
  induction pre as [|q pre IH]; intros cs buf w p c e0 Hnd Hcs Hok Hc He0.
  - simpl in *.
    apply NoDup_cons in Hnd as [Hnot _].
    destruct (call_spec p (ShowRunningConfig ctx) w c Hc
                (ShowRunningConfig_socketPath ctx c)) as [Hcall _].
    unfold bind. rewrite Hcall.
    pose proof (ShowRunningConfig_nil ctx c e0 He0) as Hnil.
    destruct (ShowRunningConfig ctx c) as [[resp e] c1]. simpl in He0, Hnil.
    subst e resp. simpl.
    eexists _, _. split; [reflexivity|]. split; [reflexivity|]. simpl.
    split; [apply list_lookup_insert_eq; eapply lookup_lt_Some; eassumption|].
    split; [|auto].
    intros q Hq. apply list_lookup_insert_ne. intros ->. exact (Hnot Hq).
  - apply Forall2_cons_inv_l in Hcs as (cq & cs' & Hcq & Hcs & ->).
    apply Forall_cons in Hok as [Hokq Hok].
    simpl in Hnd. apply NoDup_cons in Hnd as [Hnot Hnd].
    destruct (call_spec q (ShowRunningConfig ctx) w cq Hcq
                (ShowRunningConfig_socketPath ctx cq)) as [Hcall _].
    cbn [app dumpLoop]. unfold bind at 1. rewrite Hcall.
    destruct (ShowRunningConfig ctx cq) as [[resp [e|]] c1] eqn:Hshow;
      cbn [fst snd] in *.
    { exfalso. apply Hokq. unfold showFails. rewrite Hshow. discriminate. }
    assert (Hlt : q < length (heap w))
      by (eapply lookup_lt_Some; eassumption).
    unfold bind, deref. cbn [heap].
    rewrite list_lookup_insert_eq by exact Hlt.
    unfold Buffer_Write.
    assert (Hother : forall x, x ∈ pre ++ p :: post ->
                               <[q := c1]> (heap w) !! x = heap w !! x).
    { intros x Hx. apply list_lookup_insert_ne. intros ->. exact (Hnot Hx). }
    destruct (IH cs'
                ((buf ++ bytes_of_string ("! " ++ socketPath c1 ++ NL)) ++ resp)
                (mkWorld (<[q := c1]> (heap w)) (network w) (fs w)) p c e0 Hnd)
      as (e & w' & Hloop & His & Hp & Hpost & Hn & Hf).
    + apply Forall2_lookup_store; [exact Hcs|].
      intros Hin. apply Hnot. apply elem_of_app. left. exact Hin.
    + exact Hok.
    + simpl. rewrite Hother; [exact Hc|].
      apply elem_of_app. right. apply elem_of_cons. left. reflexivity.
    + exact He0.
    + exists e, w'. split; [exact Hloop|]. split; [exact His|].
      split; [exact Hp|]. split; [|auto].
      intros x Hx. rewrite (Hpost x Hx). simpl. apply Hother.
      apply elem_of_app. right. apply elem_of_cons. right. exact Hx.
Qed.

(** X19. [DumpRunningConfig] stops at the first daemon whose
    [ShowRunningConfig] fails: it returns an error that wraps the error
    of that [ShowRunningConfig] - the response it puts into the message
    beside it is always empty, [ShowRunningConfig] returning no bytes with
    an error; the connections that come after it in the order bgp, bfd,
    mgmt, zebra are not used - nothing is written to them, nothing read;
    and no file is written. *)
Theorem DumpRunningConfig_stops (s : Sockets) (ctx : Context)
  (dstFile : string) (mode : os.FileMode) (w : World)
  (pre : list ptr) (p : ptr) (post : list ptr)
  (cs : list Connection) (c : Connection) (e0 : error) :
  Sockets_wf s w ->
  allConnections s = pre ++ p :: post ->
  Forall2 (fun q c => heap w !! q = Some c) pre cs ->
  Forall (fun c => ~ showFails ctx c) cs ->
  heap w !! p = Some c ->
  snd (fst (ShowRunningConfig ctx c)) = Some e0 ->
  exists err w',
    DumpRunningConfig s ctx dstFile mode w = Some (Some err, w') /\
    Is err e0 /\
    (exists format, err = fmt_Errorf format [opBytes []; opError e0]) /\
    heap w' !! p = Some (snd (ShowRunningConfig ctx c)) /\
    (forall q, q ∈ post -> heap w' !! q = heap w !! q) /\
    network w' = network w /\ fs w' = fs w.
Proof.
  intros (_ & Hnd & _) Hall Hcs Hok Hc He0. rewrite Hall in Hnd.
  destruct (dumpLoop_stops ctx post pre cs [] w p c e0 Hnd Hcs Hok Hc He0)
    as (e & w' & Hloop & -> & Hp & Hpost & Hn & Hf).
  eexists _, w'. unfold DumpRunningConfig, bind. rewrite Hall, Hloop.
  split; [reflexivity|]. split; [wraps|]. split; [eauto|]. auto.
Qed.

Lemma DumpRunningConfig_stops_witness :
  exists err w',
    DumpRunningConfig exampleSockets noDeadline "/etc/frr/frr.conf"
      DefaultFRRConfigPerm
      (mkWorld [answering "/run/frr/bgpd.vty" "router bgp 65000";
                NewConnection "/run/frr/bfdd.vty";
                answering "/run/frr/mgmtd.vty" "hostname r1";
                answering "/run/frr/zebra.vty" "ip forwarding"]
               (net.mkNetwork exampleListeners []) (os.mkFS ∅ []))
    = Some (Some err, w') /\
    Is err ErrConnNotEstab /\
    heap w' !! 2 = Some (answering "/run/frr/mgmtd.vty" "hostname r1") /\
    heap w' !! 3 = Some (answering "/run/frr/zebra.vty" "ip forwarding") /\
    fs w' = os.mkFS ∅ [].
Proof.
  destruct (DumpRunningConfig_stops exampleSockets noDeadline
              "/etc/frr/frr.conf" DefaultFRRConfigPerm
              (mkWorld [answering "/run/frr/bgpd.vty" "router bgp 65000";
                        NewConnection "/run/frr/bfdd.vty";
                        answering "/run/frr/mgmtd.vty" "hostname r1";
                        answering "/run/frr/zebra.vty" "ip forwarding"]
                       (net.mkNetwork exampleListeners []) (os.mkFS ∅ []))
              [0] 1 [2; 3]
              [answering "/run/frr/bgpd.vty" "router bgp 65000"]
              (NewConnection "/run/frr/bfdd.vty")
              (fmt_Errorf
                 "show running config `enable` command, resp: %s, err: %w"
                 [opBytes [];
                  opError (fmt_Errorf "%w %s"
                             [opError ErrConnNotEstab;
                              opString "/run/frr/bfdd.vty"])]))
    as (err & w' & Hrun & His & _ & _ & Hpost & _ & Hf).
  - split; [reflexivity|]. split.
    + repeat (apply NoDup_cons_2;
              [rewrite ?not_elem_of_cons; repeat split;
               try discriminate; apply not_elem_of_nil|]).
      apply NoDup_nil_2.
    + repeat (apply Forall_cons_2; [eexists; reflexivity|]).
      apply Forall_nil_2.
  - reflexivity.
  - repeat constructor.
  - repeat constructor. intros H. apply H. reflexivity.
  - reflexivity.
  - reflexivity.
  - exists err, w'. split; [exact Hrun|]. split.
    + eapply Is_trans; [exact His|].
      eapply Is_wrapped; [simpl; auto|]. wraps.
    + split; [apply (Hpost 2); rewrite !elem_of_cons; auto|].
      split; [apply (Hpost 3); rewrite !elem_of_cons; auto|exact Hf].
Defined.

(** *** atomicWrite *)

(** The file [WriteFile] leaves at [name]: the data, under the mode of the
    file that was there, or under [perm] less the umask when it makes the
    file. *)
Lemma written_lookup name data perm mask (files : gmap string os.File) :
  os.written name data perm mask files !! name
  = Some (os.mkFile data match files !! name with
                         | Some f => os.perm f
                         | None => N.ldiff perm mask
                         end) /\
  forall other, other <> name ->
                os.written name data perm mask files !! other
                = files !! other.
Proof.
  unfold os.written. destruct (files !! name) as [f|].
  - split; [apply lookup_insert_eq|].
    intros other Hne. apply lookup_insert_ne. congruence.
  - split; [apply lookup_insert_eq|].
    intros other Hne. apply lookup_insert_ne. congruence.
Qed.



(** X21. [atomicWrite] does not clear up after a failure. When the write
    of the temporary file fails after [k] bytes, the temporary file stays
    with these bytes and no rename is tried; when the write works and the
    rename fails, the temporary file stays with all the data. Either way
    the error wraps the failure and names the temporary file, and every
    other file - the destination too - is as it was. *)
Theorem atomicWrite_leftover (path : string) (data : list byte)
  (perm : os.FileMode) (fs0 : os.FS) :
  (forall k e rest,
      os.faults fs0 = Some (Some k, e) :: rest ->
      exists err fs1 f,
        atomicWrite path data perm fs0 = (Some err, fs1) /\
        Is err e /\ mentions err (path ++ ".tmp")%string /\
        os.files fs1 !! (path ++ ".tmp")%string = Some f /\
        os.content f = firstn k data /\
        os.faults fs1 = rest /\
        (forall other, other <> (path ++ ".tmp")%string ->
                       os.files fs1 !! other = os.files fs0 !! other)) /\
  (forall k e rest,
      os.faults fs0 = None :: Some (k, e) :: rest ->
      exists err fs1 f,
        atomicWrite path data perm fs0 = (Some err, fs1) /\
        Is err e /\ mentions err (path ++ ".tmp")%string /\
        mentions err path /\
        os.files fs1 !! (path ++ ".tmp")%string = Some f /\
        os.content f = data /\
        (forall other, other <> (path ++ ".tmp")%string ->
                       os.files fs1 !! other = os.files fs0 !! other)).
Proof.
  set (tmp := (path ++ ".tmp")%string).
  split; intros k e rest Hfaults;
    unfold atomicWrite, os.WriteFile, os.Rename; fold tmp;
    rewrite Hfaults; simpl.
  - destruct (written_lookup tmp (firstn k data) perm (os.umask fs0)
                (os.files fs0))
      as [Htmp Hother].
    eexists _, _, _. split; [reflexivity|]. split; [wraps|].
    split; [simpl; auto|]. simpl. split; [exact Htmp|].
    split; [reflexivity|]. split; [reflexivity|exact Hother].
  - destruct (written_lookup tmp data perm (os.umask fs0) (os.files fs0))
      as [Htmp Hother].
    eexists _, _, _. split; [reflexivity|]. split; [wraps|].
    split; [simpl; auto|]. split; [simpl; auto|]. simpl.
    split; [exact Htmp|]. split; [reflexivity|exact Hother].
Qed.

Lemma atomicWrite_leftover_witness :
  exists err fs1 f,
    atomicWrite "/etc/frr/frr.conf" (bytes_of_string "new") DefaultFRRConfigPerm
      (os.mkFS {[ "/etc/frr/frr.conf" := os.mkFile (bytes_of_string "old")
                                                   420%N ]}
               [None; Some (None, errors_New "permission denied")])
    = (Some err, fs1) /\
    Is err (errors_New "permission denied") /\
    os.files fs1 !! "/etc/frr/frr.conf.tmp" = Some f /\
    os.content f = bytes_of_string "new" /\
    os.files fs1 !! "/etc/frr/frr.conf"
    = Some (os.mkFile (bytes_of_string "old") 420%N).
Proof.
  destruct (proj2 (atomicWrite_leftover "/etc/frr/frr.conf"
                     (bytes_of_string "new") DefaultFRRConfigPerm
                     (os.mkFS {[ "/etc/frr/frr.conf" :=
                                   os.mkFile (bytes_of_string "old") 420%N ]}
                        [None; Some (None, errors_New "permission denied")]))
              None (errors_New "permission denied") [] eq_refl)
    as (err & fs1 & f & Hrun & His & _ & _ & Htmp & Hdata & Hother).
  exists err, fs1, f. repeat (split; [assumption|]).
  rewrite Hother by discriminate. reflexivity.
Defined.

(** ** More on the status codes *)

(** [String] reads the table of the mnemonics at the value of the code,
    and beyond the table gives the fallback. *)
Lemma String_nth (sc : StatusCode) :
  StatusCode_String sc = nth (Byte.to_nat sc) mnemonics unknownStatus.
Proof. destruct sc; reflexivity. Qed.

(** The mnemonics differ from each other and from the fallback. *)
Lemma mnemonics_NoDup : List.NoDup (unknownStatus :: mnemonics).
Proof.
  apply NoDup_ListNoDup. apply (bool_decide_unpack _). vm_compute. exact I.
Qed.

Lemma String_unknown (sc : StatusCode) :
  StatusCode_String sc = unknownStatus -> (16 < Byte.to_nat sc)%nat.
Proof.
  rewrite String_nth. intros H.
  destruct (Nat.le_gt_cases (Byte.to_nat sc) 16) as [Hsc|Hsc]; [|exact Hsc].
  exfalso. pose proof mnemonics_NoDup as Hnd.
  apply List.NoDup_cons_iff in Hnd as [Hnot _]. apply Hnot.
  rewrite <- H. apply nth_In. simpl. lia.
Qed.

Lemma String_fallback (sc : StatusCode) :
  (16 < Byte.to_nat sc)%nat -> StatusCode_String sc = unknownStatus.
Proof.
  intros Hsc. rewrite String_nth. apply nth_overflow. simpl. lia.
Qed.

Lemma String_defined (a b : StatusCode) :
  (Byte.to_nat a <= 16)%nat ->
  StatusCode_String a = StatusCode_String b -> a = b.
Proof.
  intros Ha H. rewrite !String_nth in H.
  pose proof mnemonics_NoDup as Hnd.
  apply List.NoDup_cons_iff in Hnd as [Hnot Hnd].
  assert (Hin : In (nth (Byte.to_nat a) mnemonics unknownStatus) mnemonics)
    by (apply nth_In; simpl; lia).
  destruct (Nat.le_gt_cases (Byte.to_nat b) 16) as [Hb|Hb].
  - assert (Hab : Byte.to_nat a = Byte.to_nat b).
    { apply (proj1 (List.NoDup_nth mnemonics unknownStatus) Hnd);
        [simpl; lia|simpl; lia|exact H]. }
    apply (f_equal Byte.of_nat) in Hab. rewrite !Byte.of_to_nat in Hab.
    congruence.
  - exfalso. apply Hnot. rewrite H in Hin.
    rewrite nth_overflow in Hin by (simpl; lia). exact Hin.
Qed.

(** X22. The mnemonic tells the code: two status codes with the same
    string are the same code, unless both are above 16, where [String]
    has only its one fallback to give. None of the seventeen mnemonics is
    the fallback string. *)
Theorem StatusCode_String_injective (a b : StatusCode) :
  StatusCode_String a = StatusCode_String b ->
  a = b \/ ((16 < Byte.to_nat a)%nat /\ (16 < Byte.to_nat b)%nat).
Proof.
  intros H.
  destruct (Nat.le_gt_cases (Byte.to_nat a) 16) as [Ha|Ha].
  - left. apply String_defined; assumption.
  - right. split; [exact Ha|]. apply String_unknown.
    rewrite <- H. apply String_fallback, Ha.
Qed.

Lemma StatusCode_String_injective_witness :
  SuccessDaemon = x0a \/
  ((16 < Byte.to_nat SuccessDaemon)%nat /\ (16 < Byte.to_nat x0a)%nat).
Proof.
  apply (StatusCode_String_injective SuccessDaemon x0a). reflexivity.
Defined.

(** *** A failed write of the dump *)

(** X23. When every daemon has shown its configuration and the atomic
    write of the merged configuration fails, [DumpRunningConfig] returns
    an error that wraps the error of [atomicWrite]; the path this error
    is labelled with is the configuration path the container was made
    with ([frrConfigPath]), whatever the destination - the destination is
    named by the wrapped error only. The files are as the failed
    [atomicWrite] left them. *)
Theorem DumpRunningConfig_write_failure (s : Sockets) (ctx : Context)
  (dstFile : string) (mode : os.FileMode) (w : World)
  (cb cf cm cz : Connection) (e : error) (fs1 : os.FS) :
  Sockets_wf s w ->
  heap w !! bgpConn s = Some cb -> heap w !! bfdConn s = Some cf ->
  heap w !! mgmtConn s = Some cm -> heap w !! zebraConn s = Some cz ->
  Forall (fun c => ~ showFails ctx c) [cb; cf; cm; cz] ->
  atomicWrite dstFile (mergedConfig ctx [cb; cf; cm; cz]) mode (fs w)
  = (Some e, fs1) ->
  exists err w',
    DumpRunningConfig s ctx dstFile mode w = Some (Some err, w') /\
    Is err e /\ mentions err (frrConfigPath s) /\
    (exists format operands,
        e = fmt_Errorf format operands /\
        In (opString (dstFile ++ ".tmp")%string) operands) /\
    fs w' = fs1.
Proof.
  intros (Hall & Hnd & _) Hb Hf Hm Hz Hshow Hwrite.
  assert (Hcs : Forall2 (fun p c => heap w !! p = Some c)
                        (allConnections s) [cb; cf; cm; cz])
    by (rewrite Hall; repeat constructor; assumption).
  destruct (dumpLoop_spec ctx (allConnections s) _ [] w Hnd Hcs)
    as (r & w1 & Hloop & Hfs & Hok & _).
  unfold DumpRunningConfig, bind. rewrite Hloop, (Hok Hshow). cbn [app].
  unfold onFiles. rewrite Hfs, Hwrite. unfold ret.
  eexists _, _. split; [reflexivity|]. split; [wraps|].
  split; [simpl; auto|]. split; [|reflexivity].
  revert Hwrite. unfold atomicWrite.
  destruct (os.WriteFile _ _ _ _) as [[e1|] fs']; [intros [= <- _]|].
  - eexists _, _. split; [reflexivity|]. simpl. auto.
  - destruct (os.Rename _ _ _) as [[e2|] fs'']; intros [= <- _].
    eexists _, _. split; [reflexivity|]. simpl. auto.
Qed.

Lemma DumpRunningConfig_write_failure_witness :
  exists err w',
    DumpRunningConfig exampleSockets noDeadline "/tmp/running.conf"
      DefaultFRRConfigPerm
      (mkWorld (heap upWorld) (network upWorld)
               (os.mkFS ∅ [Some (None, errors_New "read-only file system")]))
    = Some (Some err, w') /\
    Is err (errors_New "read-only file system") /\
    mentions err "/etc/frr/frr.conf".
Proof.
  destruct (DumpRunningConfig_write_failure exampleSockets noDeadline
              "/tmp/running.conf" DefaultFRRConfigPerm
              (mkWorld (heap upWorld) (network upWorld)
                 (os.mkFS ∅ [Some (None, errors_New "read-only file system")]))
              (answering "/run/frr/bgpd.vty" ("router bgp 65000" ++ NL))
              (answering "/run/frr/bfdd.vty" ("bfd" ++ NL))
              (answering "/run/frr/mgmtd.vty" ("hostname r1" ++ NL))
              (answering "/run/frr/zebra.vty" ("ip forwarding" ++ NL))
              (fmt_Errorf "writing temporary file %q: %w"
                 [opString "/tmp/running.conf.tmp";
                  opError (errors_New "read-only file system")])
              (os.mkFS ∅ []))
    as (err & w' & Hrun & His & Hlabel & _).
  - split; [reflexivity|]. split.
    + repeat (apply NoDup_cons_2;
              [rewrite ?not_elem_of_cons; repeat split;
               try discriminate; apply not_elem_of_nil|]).
      apply NoDup_nil_2.
    + repeat (apply Forall_cons_2; [eexists; reflexivity|]).
      apply Forall_nil_2.
  - reflexivity.
  - reflexivity.
  - reflexivity.
  - reflexivity.
  - repeat (apply Forall_cons_2; [intros H; apply H; reflexivity|]).
    apply Forall_nil_2.
  - reflexivity.
  - exists err, w'. split; [exact Hrun|]. split; [|exact Hlabel].
    eapply Is_trans; [exact His|]. wraps.
Defined.

(** *** A session *)

(** [ShowRunningConfig] on a connection whose daemon shows [P], a
    configuration that the framing can carry. *)
Lemma ShowRunningConfig_shows ctx c nc P :
  conn c = Some nc -> showsConfig nc P -> framable P ->
  fst (ShowRunningConfig ctx c) = (P, None).
Proof.
  intros Hc ([P1 s1] & s2 & [P3 s3] & Hs & F1 & F3 & H1 & H2 & H3) F2.
  simpl in *.
  destruct (Execute_serves ctx "enable" c nc P1 s1 _ Hc Hs F1)
    as (c1 & nc1 & _ & Hex1 & _ & Hc1 & _ & _ & Hs1).
  destruct (Execute_serves ctx "do write terminal" c1 nc1 P s2 _ Hc1 Hs1 F2)
    as (c2 & nc2 & _ & Hex2 & _ & Hc2 & _ & _ & Hs2).
  destruct (Execute_serves ctx "disable" c2 nc2 P3 s3 _ Hc2 Hs2 F3)
    as (c3 & nc3 & _ & Hex3 & _).
  unfold ShowRunningConfig. rewrite (Hex1 H1), (Hex2 H2), (Hex3 H3).
  reflexivity.
Qed.

(** X24. A whole session. On a machine where a daemon listens on each
    of the four sockets of the run directory, with a healthy transport,
    and answers [enable], [do write terminal] and [disable] with accepted
    status, the second with its configuration, and where the files can be
    written; every plaintext the daemons answer with, the four
    configurations among them, being one that the framing can carry - no
    run of three zero bytes in it and no zero byte at its end:
    [NewSockets] makes the container, [Connect] returns nil,
    [DumpRunningConfig] returns nil and leaves at the destination the
    four configurations, each under the comment line with its socket
    path, in the order bgp, bfd, mgmt, zebra, and [Close] then leaves the
    four connections without transport. *)
Theorem Sockets_session (filepath_Join : string -> string -> string)
  (ctx : Context)
  (frrConfigPath0 frrRunDir dstFile : string) (mode : os.FileMode)
  (w : World) (nb nf nm nz : net.Conn) (Pb Pf Pm Pz : list byte) :
  net.listeners (network w) (filepath_Join frrRunDir bgpSocketName) = inl nb ->
  net.listeners (network w) (filepath_Join frrRunDir bfdSocketName) = inl nf ->
  net.listeners (network w) (filepath_Join frrRunDir mgmtSocketName) = inl nm ->
  net.listeners (network w) (filepath_Join frrRunDir zebraSocketName) = inl nz ->
  showsConfig nb Pb -> showsConfig nf Pf ->
  showsConfig nm Pm -> showsConfig nz Pz ->
  framable Pb -> framable Pf -> framable Pm -> framable Pz ->
  filesWork 2 (fs w) ->
  exists s w1 w2 w3 f closed w4,
    NewSockets filepath_Join frrConfigPath0 frrRunDir w = Some (s, w1) /\
    Sockets_Connect s ctx w1 = Some (None, w2) /\
    DumpRunningConfig s ctx dstFile mode w2 = Some (None, w3) /\
    os.files (fs w3) !! dstFile = Some f /\
    os.content f =
      bytes_of_string
        ("! " ++ filepath_Join frrRunDir bgpSocketName ++ NL) ++ Pb
      ++ bytes_of_string
           ("! " ++ filepath_Join frrRunDir bfdSocketName ++ NL) ++ Pf
      ++ bytes_of_string
           ("! " ++ filepath_Join frrRunDir mgmtSocketName ++ NL) ++ Pm
      ++ bytes_of_string
           ("! " ++ filepath_Join frrRunDir zebraSocketName ++ NL) ++ Pz /\
    Sockets_Close s w3 = Some (closed, w4) /\
    Forall (unconnected w4) (allConnections s).
Proof.
  intros Hlb Hlf Hlm Hlz Hsb Hsf Hsm Hsz Fb Ff Fm Fz Hwork.
  destruct (NewSockets_wf filepath_Join frrConfigPath0 frrRunDir w)
    as (s & w1 & Hnew & Hwf1 & Hun & Hpaths).
  assert (Hw1 : network w1 = network w /\ fs w1 = fs w).
  { revert Hnew. unfold NewSockets, bind, alloc, ret. simpl.
    intros [= <- <-]. auto. }
  destruct Hw1 as [Hn1 Hf1].
  pose proof Hwf1 as (Hall & Hnd & Halloc1).
  (* the four connections as [NewSockets] made them *)
  rewrite Hall in Hun, Hpaths.
  apply Forall_cons in Hun as [(cb & Hb & Hcb) Hun].
  apply Forall_cons in Hun as [(cf & Hf & Hcf) Hun].
  apply Forall_cons in Hun as [(cm & Hm & Hcm) Hun].
  apply Forall_cons in Hun as [(cz & Hz & Hcz) _].
  unfold pathsOf in Hpaths. cbn in Hpaths. rewrite Hb, Hf, Hm, Hz in Hpaths.
  cbn in Hpaths. injection Hpaths as Hpb Hpf Hpm Hpz.
  (* Connect *)
  assert (Hdial : forall p, p ∈ allConnections s ->
                            exists nc, dialYields w1 p nc).
  { intros p Hp. rewrite Hall, !elem_of_cons in Hp.
    destruct Hp as [->|[->|[->|[->|Hp]]]];
      [| | | |apply elem_of_nil in Hp; destruct Hp];
      eexists; eexists; (split; [eassumption|]); rewrite Hn1;
      [rewrite Hpb|rewrite Hpf|rewrite Hpm|rewrite Hpz]; eassumption. }
  destruct (connectAll_ok ctx (allConnections s) Hnd w1 Hdial)
    as (w2 & Hloop2 & Hs2 & Hf2 & _ & Hconn & _).
  assert (Hin : forall p, p ∈ [bgpConn s; bfdConn s; mgmtConn s; zebraConn s]
                          -> p ∈ allConnections s)
    by (intros p Hp; rewrite Hall; exact Hp).
  assert (Hb2 : heap w2 !! bgpConn s = Some (with_conn cb (Some nb))).
  { apply Hconn; [apply Hin; rewrite !elem_of_cons; auto|exact Hb|].
    exists cb. rewrite Hn1, Hpb. auto. }
  assert (Hf2' : heap w2 !! bfdConn s = Some (with_conn cf (Some nf))).
  { apply Hconn; [apply Hin; rewrite !elem_of_cons; auto|exact Hf|].
    exists cf. rewrite Hn1, Hpf. auto. }
  assert (Hm2 : heap w2 !! mgmtConn s = Some (with_conn cm (Some nm))).
  { apply Hconn; [apply Hin; rewrite !elem_of_cons; auto|exact Hm|].
    exists cm. rewrite Hn1, Hpm. auto. }
  assert (Hz2 : heap w2 !! zebraConn s = Some (with_conn cz (Some nz))).
  { apply Hconn; [apply Hin; rewrite !elem_of_cons; auto 6|exact Hz|].
    exists cz. rewrite Hn1, Hpz. auto. }
  (* DumpRunningConfig *)
  pose proof (ShowRunningConfig_shows ctx (with_conn cb (Some nb)) nb Pb
                eq_refl Hsb Fb) as Hshb.
  pose proof (ShowRunningConfig_shows ctx (with_conn cf (Some nf)) nf Pf
                eq_refl Hsf Ff) as Hshf.
  pose proof (ShowRunningConfig_shows ctx (with_conn cm (Some nm)) nm Pm
                eq_refl Hsm Fm) as Hshm.
  pose proof (ShowRunningConfig_shows ctx (with_conn cz (Some nz)) nz Pz
                eq_refl Hsz Fz) as Hshz.
  assert (Hcs : Forall2 (fun p c => heap w2 !! p = Some c) (allConnections s)
                        [with_conn cb (Some nb); with_conn cf (Some nf);
                         with_conn cm (Some nm); with_conn cz (Some nz)])
    by (rewrite Hall; repeat constructor; assumption).
  destruct (dumpLoop_spec ctx (allConnections s) _ [] w2 Hnd Hcs)
    as (r & w' & Hloop3 & Hfs3 & Hok & _).
  assert (Halloc2 : Forall (fun p => is_Some (heap w2 !! p)) (allConnections s))
    by (eapply sameSockets_allocated; eassumption).
  destruct (dumpLoop_safe ctx (allConnections s) [] w2 Halloc2)
    as (r' & w'' & Hloop3' & Hs3 & _).
  rewrite Hloop3 in Hloop3'. injection Hloop3' as <- <-.
  rewrite Hok in Hloop3.
  2: { repeat (apply Forall_cons_2;
               [unfold showFails;
                rewrite ?Hshb, ?Hshf, ?Hshm, ?Hshz; intros H; apply H;
                reflexivity|]).
       apply Forall_nil_2. }
  cbn [app] in Hloop3.
  assert (Hwork3 : filesWork 2 (fs w')) by (rewrite Hfs3, Hf2, Hf1; exact Hwork).
  destruct (atomicWrite_ok dstFile
              (mergedConfig ctx [with_conn cb (Some nb); with_conn cf (Some nf);
                                 with_conn cm (Some nm); with_conn cz (Some nz)])
              mode (fs w') Hwork3)
    as (fs1 & f & Hwrite & Hdst & Hcontent & _).
  (* Close *)
  set (w3 := mkWorld (heap w') (network w') fs1).
  assert (Halloc3 : Forall (fun p => is_Some (heap w3 !! p)) (allConnections s))
    by (apply (sameSockets_allocated w2 w'); assumption).
  destruct (closeAll_spec (allConnections s) None w3 Halloc3)
    as (closed & w4 & Hloop4 & _ & _ & _ & _ & Hun4).
  exists s, w1, w2, w3, f, closed, w4.
  split; [exact Hnew|]. split.
  { unfold Sockets_Connect, bind. rewrite Hloop2. reflexivity. }
  split.
  { unfold DumpRunningConfig, bind. rewrite Hloop3.
    unfold onFiles. rewrite Hwrite. reflexivity. }
  split; [exact Hdst|]. split.
  { rewrite Hcontent. unfold mergedConfig, dumpEntry, shown. cbn [map concat].
    rewrite Hshb, Hshf, Hshm, Hshz. cbn [fst socketPath with_conn].
    rewrite Hpb, Hpf, Hpm, Hpz, app_nil_r, <- !app_assoc. reflexivity. }
  split; [exact Hloop4|].
  apply Forall_forall. intros p Hp. apply Hun4. left. exact Hp.
Qed.

(** A daemon as [showing] makes it shows its configuration. *)
Lemma showing_shows config :
  showsConfig (showing config) (bytes_of_string config).
Proof.
  assert (Hempty : framable [])
    by (split; [apply noMarkerRun_short; simpl; lia|discriminate]).
  exists ([], Success), Success, ([], Success).
  split; [|simpl; auto 6].
  split; [split; constructor|].
  exists [[emptyOK];
          [encodeResponse (bytes_of_string config) Success]; [emptyOK]], [].
  split; [reflexivity|].
  constructor; [reflexivity|].
  constructor; [simpl; apply app_nil_r|].
  constructor; [reflexivity|]. constructor.
Qed.

(** A text in which the marker is not found and that does not end in a zero
    byte is one that the framing can
    carry. *)
Lemma framable_text config :
  bytes.Index (bytes_of_string config) terminationMarker = (-1)%Z ->
  last (bytes_of_string config) <> Some x00 ->
  framable (bytes_of_string config).
Proof.
  intros Hrun Hlast. split; [apply Index_noMarkerRun, Hrun|exact Hlast].
Qed.

Lemma Sockets_session_witness :
  exists s w1 w2 w3 f closed w4,
    NewSockets joinClean "/etc/frr/frr.conf" "/run/frr" servedWorld
    = Some (s, w1) /\
    Sockets_Connect s noDeadline w1 = Some (None, w2) /\
    DumpRunningConfig s noDeadline "/etc/frr/frr.conf" DefaultFRRConfigPerm w2
    = Some (None, w3) /\
    os.files (fs w3) !! "/etc/frr/frr.conf" = Some f /\
    os.content f =
      bytes_of_string ("! /run/frr/bgpd.vty" ++ NL ++ "router bgp 65000" ++
                       "! /run/frr/bfdd.vty" ++ NL ++ "bfd" ++
                       "! /run/frr/mgmtd.vty" ++ NL ++ "hostname r1" ++
                       "! /run/frr/zebra.vty" ++ NL ++ "ip forwarding") /\
    Sockets_Close s w3 = Some (closed, w4) /\
    Forall (unconnected w4) (allConnections s).
Proof.
  apply (Sockets_session joinClean noDeadline "/etc/frr/frr.conf" "/run/frr"
           "/etc/frr/frr.conf" DefaultFRRConfigPerm servedWorld
           (showing "router bgp 65000") (showing "bfd")
           (showing "hostname r1") (showing "ip forwarding")
           (bytes_of_string "router bgp 65000") (bytes_of_string "bfd")
           (bytes_of_string "hostname r1") (bytes_of_string "ip forwarding")).
  - reflexivity.
  - reflexivity.
  - reflexivity.
  - reflexivity.
  - apply showing_shows.
  - apply showing_shows.
  - apply showing_shows.
  - apply showing_shows.
  - apply framable_text; [reflexivity|discriminate].
  - apply framable_text; [reflexivity|discriminate].
  - apply framable_text; [reflexivity|discriminate].
  - apply framable_text; [reflexivity|discriminate].
  - apply Forall_nil_2.
Defined.

(** *** A failed Connect closes what it had connected *)

(** The loop of [Sockets.Connect], connection by connection: each one
    holds the transport of its listener where the dial succeeds, and is
    as it was where the dial fails. *)
Lemma connectAll_heap ctx ps :
  NoDup ps ->
  forall err w,
    Forall (fun p => is_Some (heap w !! p)) ps ->
    exists err' w',
      joinEach ps (callConnect ctx) err w = Some (err', w') /\
      forall p c, p ∈ ps -> heap w !! p = Some c ->
                  heap w' !! p
                  = Some match net.listeners (network w) (socketPath c) with
                         | inl nc => with_conn c (Some nc)
                         | inr _ => c
                         end.
Proof.
  induction 1 as [|p ps Hnot Hnd IH]; intros err w Halloc.
  - exists err, w. split; [reflexivity|].
    intros p c Hin. apply elem_of_nil in Hin. destruct Hin.
  - apply Forall_cons in Halloc as [[c Hc] Halloc].
    destruct (callConnect_spec ctx p w c Hc)
      as (e & w1 & Hcall & Hs1 & _).
    assert (Hw1 : heap w1
                  = <[p := match net.listeners (network w) (socketPath c) with
                           | inl nc => with_conn c (Some nc)
                           | inr _ => c
                           end]> (heap w)).
    { revert Hcall. unfold callConnect, Connect, net.DialContext. rewrite Hc.
      destruct (net.listeners (network w) (socketPath c));
        intros [= _ <-]; reflexivity. }
    destruct (IH (errors_Join [err; e]) w1
                (sameSockets_allocated _ _ _ Hs1 Halloc))
      as (err' & w' & Hloop & Hheap).
    exists err', w'. cbn [joinEach]. unfold bind. rewrite Hcall.
    split; [exact Hloop|].
    assert (Hafter : forall q, q ∉ ps -> heap w' !! q = heap w1 !! q).
    { clear - Hloop. revert Hloop. generalize (errors_Join [err; e]).
      revert w1. induction ps as [|x ps IHps]; intros w1 e0 Hloop q Hq.
      - injection Hloop as _ <-. reflexivity.
      - apply not_elem_of_cons in Hq as [Hne Hq].
        cbn [joinEach] in Hloop. unfold bind in Hloop.
        destruct (callConnect ctx x w1) as [[e1 w2]|] eqn:Hcall;
          [|discriminate Hloop].
        rewrite (IHps _ _ Hloop q Hq).
        revert Hcall. unfold callConnect.
        destruct (heap w1 !! x) as [cx|]; [|discriminate].
        destruct (Connect ctx cx (network w1)) as [[e2 cx'] nw'].
        intros [= _ <-]. simpl. apply list_lookup_insert_ne. congruence. }
    intros q cq Hin Hcq. apply elem_of_cons in Hin as [->|Hin].
    + rewrite (Hafter p Hnot), Hw1. rewrite Hc in Hcq. injection Hcq as <-.
      apply list_lookup_insert_eq. eapply lookup_lt_Some; eassumption.
    + assert (Hne : q <> p) by (intros ->; exact (Hnot Hin)).
      rewrite (Hheap q cq Hin).
      * destruct Hs1 as [_ ->]. reflexivity.
      * rewrite Hw1, list_lookup_insert_ne by congruence. exact Hcq.
Qed.

(** X25. When a dial fails, [Sockets.Connect] closes the connections
    whose dial had succeeded, and the failures of these closes are not
    lost: the error it returns carries the failure of every such close
    as well as every dial failure. *)
Theorem Sockets_Connect_close_failures (s : Sockets) (ctx : Context)
  (w : World) :
  Sockets_wf s w ->
  (exists p e, p ∈ allConnections s /\ dialFails w p e) ->
  exists err w',
    Sockets_Connect s ctx w = Some (Some err, w') /\
    (forall q nc e,
        q ∈ allConnections s -> dialYields w q nc ->
        net.closeFault nc = Some e -> Is err e) /\
    (forall p e, p ∈ allConnections s -> dialFails w p e -> Is err e).
Proof.
  intros (Hall & Hnd & Halloc) (p0 & e0 & Hin0 & Hfail0).
  destruct (connectAll_spec ctx (allConnections s) None w Halloc)
    as (err1 & w1 & Hloop1 & Hs1 & _ & _ & _ & Hfail).
  destruct (connectAll_heap ctx (allConnections s) Hnd None w Halloc)
    as (err1' & w1' & Hloop1' & Hheap).
  rewrite Hloop1 in Hloop1'. injection Hloop1' as <- <-.
  destruct (Hfail p0 e0 Hin0 Hfail0) as (e1 & -> & _).
  destruct (closeAll_errors (allConnections s) Hnd None w1
              (sameSockets_allocated _ _ _ Hs1 Halloc))
    as (err2 & w2 & Hloop2 & _ & Hclose & _).
  assert (Hjoin : exists err, errors_Join [Some e1; err2] = Some err)
    by (destruct err2; simpl; eauto).
  destruct Hjoin as [err Herr].
  exists err, w2. split.
  { unfold Sockets_Connect, bind. rewrite Hloop1. unfold Sockets_Close.
    rewrite Hloop2. unfold ret. rewrite Herr. reflexivity. }
  split.
  - intros q nc e Hq (c & Hc & Hy) He.
    assert (Hcar : carries err2 e).
    { apply (Hclose q e Hq). exists (with_conn c (Some nc)), nc.
      split; [|auto]. rewrite (Hheap q c Hq Hc), Hy. reflexivity. }
    destruct (carries_Join_r (Some e1) err2 e Hcar) as (err' & Herr' & His).
    rewrite Herr in Herr'. injection Herr' as <-. exact His.
  - intros p e Hp Hpe.
    destruct (carries_Join_l (Some e1) err2 e (Hfail p e Hp Hpe))
      as (err' & Herr' & His).
    rewrite Herr in Herr'. injection Herr' as <-. exact His.
Qed.

Lemma Sockets_Connect_close_failures_witness :
  exists err w',
    Sockets_Connect exampleSockets noDeadline
      (mkWorld (map NewConnection examplePaths)
         (net.mkNetwork
            (fun path =>
               if String.eqb path "/run/frr/zebra.vty"
               then inl (net.mkConn 0 None [] [] [] []
                                    (Some (errors_New "bad file descriptor")))
               else inr refused) [])
         (os.mkFS ∅ []))
    = Some (Some err, w') /\
    Is err (errors_New "bad file descriptor") /\ Is err refused.
Proof.
  destruct (Sockets_Connect_close_failures exampleSockets noDeadline
              (mkWorld (map NewConnection examplePaths)
                 (net.mkNetwork
                    (fun path =>
                       if String.eqb path "/run/frr/zebra.vty"
                       then inl (net.mkConn 0 None [] [] [] []
                                   (Some (errors_New "bad file descriptor")))
                       else inr refused) [])
                 (os.mkFS ∅ [])))
    as (err & w' & Hrun & Hclose & Hdial).
  - split; [reflexivity|]. split.
    + repeat (apply NoDup_cons_2;
              [rewrite ?not_elem_of_cons; repeat split;
               try discriminate; apply not_elem_of_nil|]).
      apply NoDup_nil_2.
    + repeat (apply Forall_cons_2; [eexists; reflexivity|]).
      apply Forall_nil_2.
  - exists 0, refused. split.
    + apply elem_of_cons. left. reflexivity.
    + eexists. split; reflexivity.
  - exists err, w'. split; [exact Hrun|]. split.
    + apply (Hclose 3 (net.mkConn 0 None [] [] [] []
                                  (Some (errors_New "bad file descriptor")))).
      * do 3 (apply elem_of_cons; right). apply elem_of_cons. left.
        reflexivity.
      * eexists. split; reflexivity.
      * reflexivity.
    + apply (Hdial 0).
      * apply elem_of_cons. left. reflexivity.
      * eexists. split; reflexivity.
Defined.
